(** * Konsole profiles: property store, groups, persistence and the session
      manager's profile bookkeeping.

    A shallow embedding of  src/Profile.h, src/Profile.cpp  and the profile
    half of  src/SessionManager.cpp.  Profiles are reference counted,
    shared and mutated in place in the C++ code, so they live in an explicit
    store and are named by pointers. *)

From Stdlib Require Import ZArith String Ascii List Lia Bool.
From stdpp Require Import base option list gmap strings pretty.

Local Open Scope string_scope.
Local Open Scope Z_scope.
Local Open Scope list_scope.

(** ** QVariant *)

(** The subset of [QVariant::Type] that the property table uses. *)
Inductive QVariantType :=
  | T_Invalid | T_Bool | T_Int | T_String | T_StringList | T_Font | T_Color.

(** A [QVariant] is a tagged value.  Fonts and colours are carried in their
    textual form ([QFont::toString], [QColor::name]). *)
Inductive QVariant :=
  | VInvalid
  | VBool (b : bool)
  | VInt (n : Z)
  | VString (s : string)
  | VStringList (l : list string)
  | VFont (f : string)
  | VColor (c : string).

#[global] Instance QVariantType_eq_dec : EqDecision QVariantType.
Proof. solve_decision. Defined.

#[global] Instance QVariant_eq_dec : EqDecision QVariant.
Proof. solve_decision. Defined.

Definition typeOf (v : QVariant) : QVariantType :=
  match v with
  | VInvalid => T_Invalid
  | VBool _ => T_Bool
  | VInt _ => T_Int
  | VString _ => T_String
  | VStringList _ => T_StringList
  | VFont _ => T_Font
  | VColor _ => T_Color
  end.

(** [QVariant::isNull]: the default constructed variant.  A string variant
    is carried as its text, so [VString ""] stands both for the empty and
    for the null [QString], for which [isNull] is true as well; on every
    other variant the answer is exact. *)
Definition isNull (v : QVariant) : bool :=
  match v with VInvalid => true | _ => false end.

(** ** The platform *)

(** What the code takes from Qt, kdelibs and the environment without the
    sources fixing it. *)
Class Platform := {
  (* the text [KConfigGroup::writeEntry(key, QVariant)] stores *)
  entryText : QVariant -> string;
  (* [KConfigGroup::readEntry(key, QVariant(type))] on the stored text *)
  entryValue : QVariantType -> string -> QVariant;
  (* [QVariant(v).convert(t)] for a type [t] other than the type of [v]:
     the converted variant, [None] when the call returns false *)
  QVariant_convert : QVariant -> QVariantType -> option QVariant;
  (* [ShellCommand(command, arguments).fullCommand()] *)
  ShellCommand_fullCommand : string -> list string -> string;
  (* [ShellCommand(fullCommand).command()] and [.arguments()] *)
  ShellCommand_command : string -> string;
  ShellCommand_arguments : string -> list string;
  (* [KStandardDirs::locate("data", path)] *)
  locate : string -> string;
  (* [KGlobal::dirs()->saveLocation("data", "konsole/")] *)
  saveLocation : string;
  (* [QString::localeAwareCompare] *)
  localeAwareCompare : string -> string -> Z
}.

(** [qIsNumericType] and [QVariant::toLongLong] on the numeric types. *)
Definition qIsNumericType (t : QVariantType) : bool :=
  match t with T_Bool | T_Int => true | _ => false end.

Definition QVariant_toLongLong (v : QVariant) : Z :=
  match v with
  | VBool b => if b then 1 else 0
  | VInt n => n
  | _ => 0
  end.

Section Compare.
Context `{Platform}.

(** [QVariant::cmp] (Qt 4), which is [operator==]; [a] is the left operand.
    Two variants of one type are compared by their values.  Two numeric
    variants of different types are compared as numbers.  Otherwise the
    right operand is converted to the type of the left one, and the two
    differ when that fails. *)
Definition QVariant_eqb (a b : QVariant) : bool :=
  if bool_decide (typeOf a = typeOf b) then bool_decide (a = b)
  else if qIsNumericType (typeOf a) && qIsNumericType (typeOf b)
  then bool_decide (QVariant_toLongLong a = QVariant_toLongLong b)
  else match QVariant_convert b (typeOf a) with
       | Some b' => bool_decide (a = b')
       | None => false
       end.

(** [operator!=] *)
Definition QVariant_neqb (a b : QVariant) : bool := negb (QVariant_eqb a b).

End Compare.

(** ** The property enumeration (Profile.h, enum Property) *)

Inductive Property :=
  | Path | Name | Title | Icon | Command | Arguments | Environment
  | Directory | LocalTabTitleFormat | RemoteTabTitleFormat | ShowMenuBar
  | ShowTerminalSizeHint | SaveGeometryOnExit | TabBarMode | Font
  | ColorScheme | KeyBindings | HistoryMode | HistorySize
  | ScrollBarPosition | BidiRenderingEnabled | CJKAmbiguousWide
  | BlinkingTextEnabled | FlowControlEnabled | AllowProgramsToResizeWindow
  | BlinkingCursorEnabled | UseCustomCursorColor | CursorShape
  | CustomCursorColor | WordCharacters | TabBarPosition | NewTabBehavior
  | TripleClickMode | UnderlineLinksEnabled | DefaultEncoding
  | AntiAliasFonts | BoldIntense | StartInCurrentSessionDir
  | ShowNewAndCloseTabButtons | SilenceSeconds | MenuIndex.

(** The integer value of each enumerator, in declaration order. *)
Definition Property_value (p : Property) : nat :=
  match p with
  | Path => 0 | Name => 1 | Title => 2 | Icon => 3 | Command => 4
  | Arguments => 5 | Environment => 6 | Directory => 7
  | LocalTabTitleFormat => 8 | RemoteTabTitleFormat => 9
  | ShowMenuBar => 10 | ShowTerminalSizeHint => 11
  | SaveGeometryOnExit => 12 | TabBarMode => 13 | Font => 14
  | ColorScheme => 15 | KeyBindings => 16 | HistoryMode => 17
  | HistorySize => 18 | ScrollBarPosition => 19
  | BidiRenderingEnabled => 20 | CJKAmbiguousWide => 21
  | BlinkingTextEnabled => 22 | FlowControlEnabled => 23
  | AllowProgramsToResizeWindow => 24 | BlinkingCursorEnabled => 25
  | UseCustomCursorColor => 26 | CursorShape => 27
  | CustomCursorColor => 28 | WordCharacters => 29
  | TabBarPosition => 30 | NewTabBehavior => 31 | TripleClickMode => 32
  | UnderlineLinksEnabled => 33 | DefaultEncoding => 34
  | AntiAliasFonts => 35 | BoldIntense => 36
  | StartInCurrentSessionDir => 37 | ShowNewAndCloseTabButtons => 38
  | SilenceSeconds => 39 | MenuIndex => 40
  end%nat.

Definition Property_enumerators : list Property :=
  [ Path; Name; Title; Icon; Command; Arguments; Environment; Directory;
    LocalTabTitleFormat; RemoteTabTitleFormat; ShowMenuBar;
    ShowTerminalSizeHint; SaveGeometryOnExit; TabBarMode; Font; ColorScheme;
    KeyBindings; HistoryMode; HistorySize; ScrollBarPosition;
    BidiRenderingEnabled; CJKAmbiguousWide; BlinkingTextEnabled;
    FlowControlEnabled; AllowProgramsToResizeWindow; BlinkingCursorEnabled;
    UseCustomCursorColor; CursorShape; CustomCursorColor; WordCharacters;
    TabBarPosition; NewTabBehavior; TripleClickMode; UnderlineLinksEnabled;
    DefaultEncoding; AntiAliasFonts; BoldIntense; StartInCurrentSessionDir;
    ShowNewAndCloseTabButtons; SilenceSeconds; MenuIndex ].

(** [(Property)n]; only used on values of the enumeration. *)
Definition Property_of_value (n : nat) : option Property :=
  Property_enumerators !! n.

#[global] Instance Property_eq_dec : EqDecision Property.
Proof. solve_decision. Defined.

#[global] Program Instance Property_countable : Countable Property :=
  inj_countable' Property_value
    (fun n => default Path (Property_of_value n)) _.
Next Obligation. intros []; reflexivity. Qed.

(** [Profile::canInheritProperty] *)
Definition canInheritProperty (property : Property) : bool :=
  negb (bool_decide (property = Name)) && negb (bool_decide (property = Path)).

(** ** The static property table (Profile.cpp, DefaultPropertyNames) *)

Definition GENERAL_GROUP := "General".
Definition KEYBOARD_GROUP := "Keyboard".
Definition APPEARANCE_GROUP := "Appearance".
Definition SCROLLING_GROUP := "Scrolling".
Definition TERMINAL_GROUP := "Terminal Features".
Definition CURSOR_GROUP := "Cursor Options".
Definition INTERACTION_GROUP := "Interaction Options".
Definition ENCODING_GROUP := "Encoding Options".

(** [struct PropertyInfo].  A null [const char*] is [None]. *)
Record PropertyInfo := mkInfo {
  info_property : Property;
  info_name : option string;
  info_group : option string;
  info_type : QVariantType
}.

Definition entry (p : Property) (n : string) (g : option string)
  (t : QVariantType) : PropertyInfo := mkInfo p (Some n) g t.

(** The table without its terminating [{ (Property)0, 0, 0, Invalid }]
    entry; every loop over the table stops at that entry. *)
Definition DefaultPropertyNames : list PropertyInfo :=
  [ entry Path "Path" None T_String
  ; entry Name "Name" (Some GENERAL_GROUP) T_String
  ; entry Title "Title" None T_String
  ; entry Icon "Icon" (Some GENERAL_GROUP) T_String
  ; entry Command "Command" None T_String
  ; entry Arguments "Arguments" None T_StringList
  ; entry Environment "Environment" (Some GENERAL_GROUP) T_StringList
  ; entry Directory "Directory" (Some GENERAL_GROUP) T_String
  ; entry LocalTabTitleFormat "LocalTabTitleFormat" (Some GENERAL_GROUP) T_String
  ; entry LocalTabTitleFormat "tabtitle" None T_String
  ; entry RemoteTabTitleFormat "RemoteTabTitleFormat" (Some GENERAL_GROUP) T_String
  ; entry ShowMenuBar "ShowMenuBar" (Some GENERAL_GROUP) T_Bool
  ; entry ShowTerminalSizeHint "ShowTerminalSizeHint" (Some GENERAL_GROUP) T_Bool
  ; entry SaveGeometryOnExit "SaveGeometryOnExit" (Some GENERAL_GROUP) T_Bool
  ; entry TabBarMode "TabBarMode" (Some GENERAL_GROUP) T_Int
  ; entry TabBarPosition "TabBarPosition" (Some GENERAL_GROUP) T_Int
  ; entry NewTabBehavior "NewTabBehavior" (Some GENERAL_GROUP) T_Int
  ; entry StartInCurrentSessionDir "StartInCurrentSessionDir" (Some GENERAL_GROUP) T_Bool
  ; entry ShowNewAndCloseTabButtons "ShowNewAndCloseTabButtons" (Some GENERAL_GROUP) T_Bool
  ; entry MenuIndex "MenuIndex" (Some GENERAL_GROUP) T_String
  ; entry SilenceSeconds "SilenceSeconds" (Some GENERAL_GROUP) T_Int
    (* Appearance *)
  ; entry Font "Font" (Some APPEARANCE_GROUP) T_Font
  ; entry ColorScheme "ColorScheme" (Some APPEARANCE_GROUP) T_String
  ; entry ColorScheme "colors" None T_String
  ; entry AntiAliasFonts "AntiAliasFonts" (Some APPEARANCE_GROUP) T_Bool
  ; entry BoldIntense "BoldIntense" (Some APPEARANCE_GROUP) T_Bool
    (* Keyboard *)
  ; entry KeyBindings "KeyBindings" (Some KEYBOARD_GROUP) T_String
    (* Scrolling *)
  ; entry HistoryMode "HistoryMode" (Some SCROLLING_GROUP) T_Int
  ; entry HistorySize "HistorySize" (Some SCROLLING_GROUP) T_Int
  ; entry ScrollBarPosition "ScrollBarPosition" (Some SCROLLING_GROUP) T_Int
    (* Terminal Features *)
  ; entry BlinkingTextEnabled "BlinkingTextEnabled" (Some TERMINAL_GROUP) T_Bool
  ; entry FlowControlEnabled "FlowControlEnabled" (Some TERMINAL_GROUP) T_Bool
  ; entry AllowProgramsToResizeWindow "AllowProgramsToResizeWindow" (Some TERMINAL_GROUP) T_Bool
  ; entry BidiRenderingEnabled "BidiRenderingEnabled" (Some TERMINAL_GROUP) T_Bool
  ; entry CJKAmbiguousWide "CJKAmbiguousWide" (Some TERMINAL_GROUP) T_Bool
  ; entry BlinkingCursorEnabled "BlinkingCursorEnabled" (Some TERMINAL_GROUP) T_Bool
    (* Cursor *)
  ; entry UseCustomCursorColor "UseCustomCursorColor" (Some CURSOR_GROUP) T_Bool
  ; entry CursorShape "CursorShape" (Some CURSOR_GROUP) T_Int
  ; entry CustomCursorColor "CustomCursorColor" (Some CURSOR_GROUP) T_Color
    (* Interaction *)
  ; entry WordCharacters "WordCharacters" (Some INTERACTION_GROUP) T_String
  ; entry TripleClickMode "TripleClickMode" (Some INTERACTION_GROUP) T_Int
  ; entry UnderlineLinksEnabled "UnderlineLinksEnabled" (Some INTERACTION_GROUP) T_Bool
    (* Encoding *)
  ; entry DefaultEncoding "DefaultEncoding" (Some ENCODING_GROUP) T_String ].

(** The properties the table mentions, one per entry (aliases repeat). *)
Definition tableProperties : list Property :=
  map info_property DefaultPropertyNames.

(** [QString::toLower], on the ASCII range. *)
Definition toLower_ascii (c : ascii) : ascii :=
  let n := nat_of_ascii c in
  if (65 <=? n)%nat && (n <=? 90)%nat then ascii_of_nat (n + 32) else c.

Fixpoint toLower (s : string) : string :=
  match s with
  | EmptyString => EmptyString
  | String c r => String (toLower_ascii c) (toLower r)
  end.

(** [Profile::registerProperty], on the name table [_propertyInfoByName]
    ([QHash::insert] replaces an existing entry). *)
Definition registerProperty (info : PropertyInfo)
  (byName : gmap string PropertyInfo) : gmap string PropertyInfo :=
  match info_name info with
  | Some n => <[toLower n := info]> byName
  | None => byName
  end.

(** [Profile::fillTableWithDefaultNames]: the table is walked front to back. *)
Definition fillTableWithDefaultNames : gmap string PropertyInfo :=
  foldl (fun tbl info => registerProperty info tbl) ∅ DefaultPropertyNames.

(** A value-initialised [PropertyInfo], which is what
    [QHash::operator[]] inserts and returns for a key that is absent:
    all members zero, so [property] is the enumerator of value 0. *)
Definition PropertyInfo_zero : PropertyInfo :=
  mkInfo (default Path (Property_of_value 0)) None None T_Invalid.

(** [Profile::lookupByName]:
    [return _propertyInfoByName[name.toLower()].property;] *)
Definition lookupByName (name : string) : Property :=
  info_property
    (default PropertyInfo_zero (fillTableWithDefaultNames !! toLower name)).

(** ** Profiles in the store *)

Abbreviation Ptr := nat.

(** One [Profile] object.  [_group] is [None] for a plain [Profile] and
    [Some ms] for a [ProfileGroup] whose member list [_profiles] is [ms]. *)
Record ProfileObj := mkProfile {
  _propertyValues : gmap Property QVariant;
  _parent : option Ptr;
  _hidden : bool;
  _group : option (list Ptr)
}.

Abbreviation Heap := (list ProfileObj).

(** [Profile::Profile(parent)] and [ProfileGroup::ProfileGroup(parent)] *)
Definition new_Profile (parent : option Ptr) : ProfileObj :=
  mkProfile ∅ parent false None.
Definition new_ProfileGroup (parent : option Ptr) : ProfileObj :=
  mkProfile ∅ parent true (Some []).

Definition with_values (o : ProfileObj) (m : gmap Property QVariant) :=
  mkProfile m (_parent o) (_hidden o) (_group o).
Definition with_parent (o : ProfileObj) (q : option Ptr) :=
  mkProfile (_propertyValues o) q (_hidden o) (_group o).
Definition with_hidden (o : ProfileObj) (b : bool) :=
  mkProfile (_propertyValues o) (_parent o) b (_group o).
Definition with_group (o : ProfileObj) (ms : list Ptr) :=
  mkProfile (_propertyValues o) (_parent o) (_hidden o) (Some ms).

(** Allocation of a new object; its pointer is the next free slot. *)
Definition alloc (h : Heap) (o : ProfileObj) : Heap * Ptr :=
  (h ++ [o], length h).

(** [Profile::isPropertySet]: [_propertyValues.contains(property)]. *)
Definition isPropertySet (o : ProfileObj) (property : Property) : bool :=
  bool_decide (is_Some (_propertyValues o !! property)).

Definition isHidden (o : ProfileObj) : bool := _hidden o.
Definition isEmpty (o : ProfileObj) : bool :=
  bool_decide (_propertyValues o = ∅).

(** [Profile::property<QVariant>].  The recursion follows parent pointers;
    [depth] bounds the number of objects visited, and [None] stands for a
    walk that did not finish within that bound. *)
Fixpoint property (depth : nat) (h : Heap) (p : Ptr) (X : Property)
  : option QVariant :=
  match depth with
  | O => None
  | S n =>
    match h !! p with
    | None => None
    | Some o =>
      match _propertyValues o !! X with
      | Some v => Some v
      | None =>
        match _parent o with
        | Some q =>
            if canInheritProperty X then property n h q X
            else Some VInvalid
        | None => Some VInvalid
        end
      end
    end
  end.

(** [Profile::setProperty] (the base class implementation). *)
Definition Profile_setProperty (h : Heap) (p : Ptr) (X : Property)
  (v : QVariant) : option Heap :=
  o ← h !! p;
  Some (<[p := with_values o (<[X := v]> (_propertyValues o))]> h).

Definition setHidden (h : Heap) (p : Ptr) (b : bool) : option Heap :=
  o ← h !! p; Some (<[p := with_hidden o b]> h).

Definition setParent (h : Heap) (p : Ptr) (q : option Ptr) : option Heap :=
  o ← h !! p; Some (<[p := with_parent o q]> h).

(** [ProfileGroup::addProfile] *)
Definition addProfileToGroup (h : Heap) (g m : Ptr) : option Heap :=
  o ← h !! g;
  ms ← _group o;
  Some (<[g := with_group o (ms ++ [m])]> h).

(** The virtual [setProperty]: [Profile::setProperty] on a plain profile,
    [ProfileGroup::setProperty] on a group.  A group forwards to its members
    through the same virtual call; [fuel] bounds that nesting. *)
Fixpoint setProperty (fuel : nat) (h : Heap) (p : Ptr) (X : Property)
  (v : QVariant) : option Heap :=
  match fuel with
  | O => None
  | S n =>
    o ← h !! p;
    match _group o with
    | None => Profile_setProperty h p X v
    | Some ms =>
        if bool_decide (1 < length ms)%nat && negb (canInheritProperty X)
        then Some h
        else
          h1 ← Profile_setProperty h p X v;
          foldl (fun acc m => h' ← acc; setProperty n h' m X v) (Some h1) ms
    end
  end.

Section CloneUpdate.
Context `{Platform}.

(** [Profile::clone].  The loop walks the static table; [this] receives
    the values through the virtual [setProperty]. *)
Definition clone_entry (fuel : nat) (this profile : Ptr)
  (differentOnly : bool) (acc : option Heap) (info : PropertyInfo)
  : option Heap :=
  h ← acc;
  let current := info_property info in
  otherValue ← property fuel h profile current;
  match current with
  | Name => Some h
  | Path => Some h
  | _ =>
      if differentOnly then
        mine ← property fuel h this current;
        if QVariant_neqb mine otherValue
        then setProperty fuel h this current otherValue
        else Some h
      else setProperty fuel h this current otherValue
  end.

Definition clone (fuel : nat) (h : Heap) (this profile : Ptr)
  (differentOnly : bool) : option Heap :=
  foldl (clone_entry fuel this profile differentOnly) (Some h)
        DefaultPropertyNames.

(** The member scan of [ProfileGroup::updateValues] for one property:
    [value] is the loop variable, [ms] the members still to visit. *)
Fixpoint scanMembers (fuel : nat) (h : Heap) (X : Property)
  (value : QVariant) (ms : list Ptr) : option QVariant :=
  match ms with
  | [] => Some value
  | m :: rest =>
      profileValue ← property fuel h m X;
      if isNull value then scanMembers fuel h X profileValue rest
      else if QVariant_neqb value profileValue then Some VInvalid
      else scanMembers fuel h X value rest
  end.

Definition updateValues_entry (fuel : nat) (g : Ptr) (acc : option Heap)
  (info : PropertyInfo) : option Heap :=
  h ← acc;
  o ← h !! g;
  ms ← _group o;
  if bool_decide (1 < length ms)%nat
     && negb (canInheritProperty (info_property info))
  then Some h
  else
    value ← scanMembers fuel h (info_property info) VInvalid ms;
    Profile_setProperty h g (info_property info) value.

(** [ProfileGroup::updateValues] *)
Definition updateValues (fuel : nat) (h : Heap) (g : Ptr) : option Heap :=
  foldl (updateValues_entry fuel g) (Some h) DefaultPropertyNames.

End CloneUpdate.

(** ** Conversions out of a variant *)

(** [QVariant::value<QString>()] *)
Definition toQString (v : QVariant) : string :=
  match v with
  | VString s => s
  | VInt n => pretty n
  | VBool b => if b then "true" else "false"
  | VStringList [s] => s
  | VFont f => f
  | VColor c => c
  | _ => ""
  end.

(** [QVariant::value<QStringList>()] *)
Definition toQStringList (v : QVariant) : list string :=
  match v with
  | VStringList l => l
  | VString s => [s]
  | _ => []
  end.

Definition digit_of (c : ascii) : option Z :=
  let n := nat_of_ascii c in
  if (48 <=? n)%nat && (n <=? 57)%nat then Some (Z.of_nat (n - 48)) else None.

Fixpoint parseDigits (acc : Z) (s : string) : option Z :=
  match s with
  | EmptyString => Some acc
  | String c r => d ← digit_of c; parseDigits (acc * 10 + d) r
  end.

(** [QChar::isSpace] (Qt 4) on the Latin-1 range: the characters 9 to 13,
    the blank and the no-break space. *)
Definition QChar_isSpace (c : ascii) : bool :=
  let n := nat_of_ascii c in
  ((9 <=? n) && (n <=? 13) || (n =? 32) || (n =? 160))%nat.

(** The text without the white space at its front, and at its end. *)
Fixpoint skipSpaces (s : string) : string :=
  match s with
  | EmptyString => EmptyString
  | String c r => if QChar_isSpace c then skipSpaces r else s
  end.

Fixpoint dropTrailingSpaces (s : string) : string :=
  match s with
  | EmptyString => EmptyString
  | String c r =>
      match dropTrailingSpaces r with
      | EmptyString => if QChar_isSpace c then EmptyString else String c EmptyString
      | r' => String c r'
      end
  end.

(** [QString::toInt(&ok, 10)] with the digits and signs of the C locale:
    [None] when [ok] is false.  White space before and after the number is
    skipped; the number is an optional sign and at least one decimal digit,
    and lies within the range of [int]. *)
Definition QString_toInt (s : string) : option Z :=
  let unsigned body :=
    match body with
    | EmptyString => None
    | _ => parseDigits 0 body
    end in
  r ← match dropTrailingSpaces (skipSpaces s) with
      | String "-" r => Z.opp <$> unsigned r
      | String "+" r => unsigned r
      | body => unsigned body
      end;
  if (-2147483648 <=? r) && (r <=? 2147483647) then Some r else None.

(** [QString::number(int)] *)
Definition QString_number (n : Z) : string := pretty n.

(** [Profile::path()], [Profile::name()], ... : [property<QString>(...)] *)
Definition propertyString (fuel : nat) (h : Heap) (p : Ptr) (X : Property)
  : option string := toQString <$> property fuel h p X.

Definition Profile_path (fuel : nat) (h : Heap) (p : Ptr) :=
  propertyString fuel h p Path.
Definition Profile_name (fuel : nat) (h : Heap) (p : Ptr) :=
  propertyString fuel h p Name.
Definition Profile_command (fuel : nat) (h : Heap) (p : Ptr) :=
  propertyString fuel h p Command.
Definition Profile_menuIndex (fuel : nat) (h : Heap) (p : Ptr) :=
  propertyString fuel h p MenuIndex.
Definition Profile_arguments (fuel : nat) (h : Heap) (p : Ptr)
  : option (list string) :=
  toQStringList <$> property fuel h p Arguments.

(** [Profile::menuIndexAsInt] *)
Definition menuIndexAsInt (fuel : nat) (h : Heap) (p : Ptr) : option Z :=
  s ← Profile_menuIndex fuel h p;
  Some (match QString_toInt s with Some index => index | None => 0 end).

(** ** ProfileCommandParser *)

Definition isLetter (c : ascii) : bool :=
  let n := nat_of_ascii c in
  ((65 <=? n) && (n <=? 90) || (97 <=? n) && (n <=? 122))%nat.

Definition notSemicolon (c : ascii) : bool :=
  negb (bool_decide (c = ";"%char)).

(** The longest prefix of [s] whose characters satisfy [P], and the rest. *)
Fixpoint span (P : ascii -> bool) (s : string) : string * string :=
  match s with
  | EmptyString => (EmptyString, EmptyString)
  | String c r =>
      if P c then let '(a, b) := span P r in (String c a, b)
      else (EmptyString, s)
  end.

(** A match of the regular expression  ([a-zA-Z]+)=([^;]+)  that starts at
    the first character of [s]: the two captured texts.  Both groups are
    greedy; a shorter run of letters can never be followed by '='. *)
Definition matchHere (s : string) : option (string * string) :=
  let '(cap1, rest) := span isLetter s in
  match cap1, rest with
  | String _ _, String "=" rest' =>
      let '(cap2, _) := span notSemicolon rest' in
      match cap2 with
      | EmptyString => None
      | _ => Some (cap1, cap2)
      end
  | _, _ => None
  end.

(** The leftmost match in [s]. *)
Fixpoint searchFrom (s : string) : option (string * string) :=
  match matchHere s with
  | Some r => Some r
  | None =>
      match s with
      | EmptyString => None
      | String _ r => searchFrom r
      end
  end.

Fixpoint dropString (n : nat) (s : string) : string :=
  match n, s with
  | O, _ => s
  | S n', String _ r => dropString n' r
  | S _, EmptyString => EmptyString
  end.

(** [regExp.indexIn(input, offset) != -1], with the captured texts. *)
Definition indexIn (input : string) (offset : nat) : option (string * string) :=
  if (offset <=? String.length input)%nat
  then searchFrom (dropString offset input)
  else None.

Fixpoint indexOfFrom (c : ascii) (s : string) (i : nat) : option nat :=
  match s with
  | EmptyString => None
  | String d r => if bool_decide (c = d) then Some i else indexOfFrom c r (S i)
  end.

(** [input.indexOf(c, offset)]: [None] is the result -1. *)
Definition indexOf (c : ascii) (input : string) (offset : nat) : option nat :=
  indexOfFrom c (dropString offset input) offset.

(** The loop of [ProfileCommandParser::parse]; [fuel] bounds the number of
    iterations. *)
Fixpoint parse_loop (fuel : nat) (input : string) (offset : nat)
  (changes : gmap Property QVariant) : gmap Property QVariant :=
  match fuel with
  | O => changes
  | S n =>
      match indexIn input offset with
      | None => changes
      | Some (cap1, cap2) =>
          let property := lookupByName cap1 in
          let changes' := <[property := VString cap2]> changes in
          match indexOf ";" input offset with
          | None => changes'
          | Some i => parse_loop n input (S i) changes'
          end
      end
  end.

(** [ProfileCommandParser::parse].  Every iteration moves [offset] past one
    more character of [input], so [length input + 1] iterations suffice. *)
Definition parse (input : string) : gmap Property QVariant :=
  parse_loop (S (String.length input)) input 0 ∅.

(** ** Files and configuration files *)

(** A [KConfig] file: the stored text of every entry, by group and key. *)
Abbreviation KConfig := (gmap (string * string) string).

Definition hasKey (config : KConfig) (group key : string) : bool :=
  bool_decide (is_Some (config !! (group, key))).

(** [KConfigGroup::readEntry(key)] as a [QString] (empty when absent). *)
Definition readEntryString (config : KConfig) (group key : string) : string :=
  default "" (config !! (group, key)).

Definition writeEntryString (config : KConfig) (group key value : string)
  : KConfig := <[(group, key) := value]> config.

(** The part of the file system the profile code looks at. *)
Record FileSystem := mkFS {
  fs_files : gmap string KConfig;   (* regular files, parsed as KConfig *)
  fs_dirs : list string;            (* paths that are directories *)
  fs_locked : list string           (* files that [QFile::remove] cannot remove *)
}.

Definition QFile_exists (fs : FileSystem) (path : string) : bool :=
  bool_decide (is_Some (fs_files fs !! path)).

Definition QFileInfo_isDir (fs : FileSystem) (path : string) : bool :=
  bool_decide (path ∈ fs_dirs fs).

(** [QFile::remove]: the result and the file system afterwards. *)
Definition QFile_remove (fs : FileSystem) (path : string) : bool * FileSystem :=
  if QFile_exists fs path && negb (bool_decide (path ∈ fs_locked fs))
  then (true, mkFS (delete path (fs_files fs)) (fs_dirs fs) (fs_locked fs))
  else (false, fs).

(** *** Path helpers ([QFileInfo], [QString]) *)

(** Split at the last occurrence of [c]. *)
Fixpoint splitLast (c : ascii) (s : string) : option (string * string) :=
  match s with
  | EmptyString => None
  | String d r =>
      match splitLast c r with
      | Some (a, b) => Some (String d a, b)
      | None => if bool_decide (d = c) then Some (EmptyString, r) else None
      end
  end.

Definition QFileInfo_fileName (p : string) : string :=
  match splitLast "/" p with Some (_, f) => f | None => p end.

Definition QFileInfo_path (p : string) : string :=
  match splitLast "/" p with
  | Some (EmptyString, _) => "/"
  | Some (d, _) => d
  | None => "."
  end.

Definition QFileInfo_suffix (p : string) : string :=
  match splitLast "." (QFileInfo_fileName p) with
  | Some (_, e) => e
  | None => ""
  end.

Definition QFileInfo_isAbsolute (p : string) : bool :=
  match p with String "/" _ => true | _ => false end.

Definition startsWith (s pre : string) : bool := String.prefix pre s.

Definition endsWith (s suf : string) : bool :=
  String.prefix (String.rev suf) (String.rev s).

Definition isEmptyString (s : string) : bool :=
  match s with EmptyString => true | _ => false end.

(** ** Profile readers and writers (KDE 4 format) *)

Section ReadWrite.
Context `{Platform}.

(** [KDE4ProfileWriter::getPath] *)
Definition getPath (fuel : nat) (h : Heap) (info : Ptr) : option string :=
  o ← h !! info;
  p ← Profile_path fuel h info;
  if isPropertySet o Path && startsWith p saveLocation
  then Some p
  else n ← Profile_name fuel h info; Some (saveLocation ++ n ++ ".profile")%string.

(** One step of the loop of [KDE4ProfileWriter::writeProperties].  The
    cached [group] object only selects where the entry goes. *)
Definition writeProperties_entry (fuel : nat) (h : Heap) (profile : Ptr)
  (acc : option KConfig) (properties : PropertyInfo) : option KConfig :=
  config ← acc;
  match info_group properties, info_name properties with
  | Some group, Some key =>
      o ← h !! profile;
      if isPropertySet o (info_property properties) then
        v ← property fuel h profile (info_property properties);
        Some (writeEntryString config group key (entryText v))
      else Some config
  | _, _ => Some config
  end.

Definition writeProperties (fuel : nat) (h : Heap) (config : KConfig)
  (profile : Ptr) (properties : list PropertyInfo) : option KConfig :=
  foldl (writeProperties_entry fuel h profile) (Some config) properties.

(** [KDE4ProfileWriter::writeProfile].  [KConfig config(path)] opens the
    file that is already there, if any; the entries are stored back when
    [config] goes out of scope.  The function always returns [true]. *)
Definition writeProfile (fuel : nat) (h : Heap) (fs : FileSystem)
  (path : string) (profile : Ptr) : option (bool * FileSystem) :=
  o ← h !! profile;
  let config := default ∅ (fs_files fs !! path) in
  config1 ← match _parent o with
            | Some q =>
                pp ← Profile_path fuel h q;
                Some (writeEntryString config GENERAL_GROUP "Parent" pp)
            | None => Some config
            end;
  config2 ← (if isPropertySet o Command || isPropertySet o Arguments then
               c ← Profile_command fuel h profile;
               a ← Profile_arguments fuel h profile;
               Some (writeEntryString config1 GENERAL_GROUP "Command"
                       (ShellCommand_fullCommand c a))
             else Some config1);
  config3 ← writeProperties fuel h config2 profile DefaultPropertyNames;
  Some (true, mkFS (<[path := config3]> (fs_files fs)) (fs_dirs fs) (fs_locked fs)).

(** One step of the loop of [KDE4ProfileReader::readProperties]. *)
Definition readProperties_entry (fuel : nat) (config : KConfig)
  (profile : Ptr) (acc : option Heap) (properties : PropertyInfo)
  : option Heap :=
  h ← acc;
  match info_group properties, info_name properties with
  | Some group, Some key =>
      if hasKey config group key then
        setProperty fuel h profile (info_property properties)
          (entryValue (info_type properties) (readEntryString config group key))
      else Some h
  | _, _ => Some h
  end.

Definition readProperties (fuel : nat) (h : Heap) (config : KConfig)
  (profile : Ptr) (properties : list PropertyInfo) : option Heap :=
  foldl (readProperties_entry fuel config profile) (Some h) properties.

(** [KDE4ProfileReader::readProfile].  The result is the returned flag, the
    value left in [parentProfile] (which the caller passes in empty) and
    the store. *)
Definition readProfile (fuel : nat) (h : Heap) (fs : FileSystem)
  (path : string) (profile : Ptr) : option (bool * string * Heap) :=
  match fs_files fs !! path with
  | None => Some (false, "", h)
  | Some config =>
      let parentProfile :=
        if hasKey config GENERAL_GROUP "Parent"
        then readEntryString config GENERAL_GROUP "Parent" else "" in
      h1 ← (if hasKey config GENERAL_GROUP "Command" then
              let text := readEntryString config GENERAL_GROUP "Command" in
              h' ← setProperty fuel h profile Command
                     (VString (ShellCommand_command text));
              setProperty fuel h' profile Arguments
                     (VStringList (ShellCommand_arguments text))
            else Some h);
      h2 ← readProperties fuel h1 config profile DefaultPropertyNames;
      Some (true, parentProfile, h2)
  end.

End ReadWrite.

(** ** qStableSort (Qt 4, QtCore/qalgorithms.h)

    The in-place merge sort of Qt 4 on a list.  [lessThan] is used exactly
    where the library uses it; nothing is assumed about it. *)

Section QAlgorithms.
Context {A : Type} (lessThan : A -> A -> bool).

(** [qLowerBound(begin, end, value, lessThan) - begin] by binary search. *)
Fixpoint qLowerBound_loop (fuel : nat) (l : list A) (value : A)
  (begin n : nat) : nat :=
  match fuel with
  | O => begin
  | S f =>
      if (n =? 0)%nat then begin
      else
        let half := (n / 2)%nat in
        let middle := (begin + half)%nat in
        match l !! middle with
        | Some x =>
            if lessThan x value
            then qLowerBound_loop f l value (middle + 1)%nat (n - (half + 1))%nat
            else qLowerBound_loop f l value begin half
        | None => begin
        end
  end.

Definition qLowerBound (l : list A) (value : A) : nat :=
  qLowerBound_loop (length l) l value 0%nat (length l).

(** [qUpperBound(begin, end, value, lessThan) - begin]. *)
Fixpoint qUpperBound_loop (fuel : nat) (l : list A) (value : A)
  (begin n : nat) : nat :=
  match fuel with
  | O => begin
  | S f =>
      if (n =? 0)%nat then begin
      else
        let half := (n / 2)%nat in
        let middle := (begin + half)%nat in
        match l !! middle with
        | Some x =>
            if lessThan value x
            then qUpperBound_loop f l value begin half
            else qUpperBound_loop f l value (middle + 1)%nat (n - (half + 1))%nat
        | None => begin
        end
  end.

Definition qUpperBound (l : list A) (value : A) : nat :=
  qUpperBound_loop (length l) l value 0%nat (length l).

(** [qMerge(begin, pivot, end, t, lessThan)] with [left] the range
    [begin, pivot) and [right] the range [pivot, end).  [qRotate] brings
    the head of [right] between the two parts of [left]; the two recursive
    calls then merge each half. *)
Fixpoint qMerge (fuel : nat) (left right : list A) : list A :=
  match fuel with
  | O => left ++ right
  | S f =>
      let len1 := length left in
      let len2 := length right in
      if (len1 =? 0)%nat || (len2 =? 0)%nat then left ++ right
      else if (len1 + len2 =? 2)%nat then
        match left, right with
        | [a], [b] => if lessThan b a then [b; a] else [a; b]
        | _, _ => left ++ right
        end
      else
        let '(firstCut, len2Half) :=
          if (len2 <? len1)%nat then
            let len1Half := (len1 / 2)%nat in
            match left !! len1Half with
            | Some x => (len1Half, qLowerBound right x)
            | None => (len1Half, 0%nat)
            end
          else
            let len2Half := (len2 / 2)%nat in
            match right !! len2Half with
            | Some x => (qUpperBound left x, len2Half)
            | None => (len1, len2Half)
            end in
        qMerge f (take firstCut left) (take len2Half right)
        ++ qMerge f (drop firstCut left) (drop len2Half right)
  end.

(** [qStableSortHelper(begin, end, t, lessThan)] *)
Fixpoint qStableSortHelper (fuel : nat) (l : list A) : list A :=
  match fuel with
  | O => l
  | S f =>
      let span := length l in
      if (span <? 2)%nat then l
      else
        let middle := (span / 2)%nat in
        qMerge span (qStableSortHelper f (take middle l))
                    (qStableSortHelper f (drop middle l))
  end.

Definition qStableSort (l : list A) : list A :=
  qStableSortHelper (length l) l.

End QAlgorithms.

(** ** SessionManager *)

Abbreviation QKeySequence := string.
Abbreviation Session := nat.

(** [SessionManager::ShortcutData] *)
Record ShortcutData := mkShortcutData {
  profileKey : option Ptr;
  profilePath : string
}.

(** What the manager sends out: its Qt signals, and the calls of
    [applyProfile(Session*, Profile::Ptr, bool)] on a session. *)
Inductive Signal :=
  | profileAdded (p : Ptr)
  | profileRemoved (p : option Ptr)
  | profileChanged (p : Ptr)
  | favoriteStatusChanged (p : Ptr) (favorite : bool)
  | shortcutChanged (p : Ptr) (k : QKeySequence)
  | sessionApplied (s : Session) (p : Ptr) (modifiedPropertiesOnly : bool).

(** The manager, with the store of profile objects and the disk it works
    on.  The [QSet]s and the [QMap] are kept as duplicate free lists, in
    insertion order. *)
Record SessionManager := mkManager {
  heap : Heap;
  disk : FileSystem;
  _profiles : list Ptr;
  _favorites : list Ptr;
  _defaultProfile : option Ptr;
  _fallbackProfile : Ptr;
  _shortcuts : list (QKeySequence * ShortcutData);
  _sessions : list Session;
  _sessionProfiles : gmap Session Ptr;
  recursionGuard : list string;          (* the static stack of loadProfile *)
  konsolerc_DefaultProfile : option string;
  emitted : list Signal
}.

Definition with_heap (m : SessionManager) (h : Heap) : SessionManager :=
  mkManager h (disk m) (_profiles m) (_favorites m) (_defaultProfile m)
    (_fallbackProfile m) (_shortcuts m) (_sessions m) (_sessionProfiles m)
    (recursionGuard m) (konsolerc_DefaultProfile m) (emitted m).
Definition with_disk (m : SessionManager) (d : FileSystem) : SessionManager :=
  mkManager (heap m) d (_profiles m) (_favorites m) (_defaultProfile m)
    (_fallbackProfile m) (_shortcuts m) (_sessions m) (_sessionProfiles m)
    (recursionGuard m) (konsolerc_DefaultProfile m) (emitted m).
Definition with_profiles (m : SessionManager) (l : list Ptr) : SessionManager :=
  mkManager (heap m) (disk m) l (_favorites m) (_defaultProfile m)
    (_fallbackProfile m) (_shortcuts m) (_sessions m) (_sessionProfiles m)
    (recursionGuard m) (konsolerc_DefaultProfile m) (emitted m).
Definition with_favorites (m : SessionManager) (l : list Ptr) : SessionManager :=
  mkManager (heap m) (disk m) (_profiles m) l (_defaultProfile m)
    (_fallbackProfile m) (_shortcuts m) (_sessions m) (_sessionProfiles m)
    (recursionGuard m) (konsolerc_DefaultProfile m) (emitted m).
Definition with_defaultProfile (m : SessionManager) (p : option Ptr)
  : SessionManager :=
  mkManager (heap m) (disk m) (_profiles m) (_favorites m) p
    (_fallbackProfile m) (_shortcuts m) (_sessions m) (_sessionProfiles m)
    (recursionGuard m) (konsolerc_DefaultProfile m) (emitted m).
Definition with_shortcuts (m : SessionManager)
  (l : list (QKeySequence * ShortcutData)) : SessionManager :=
  mkManager (heap m) (disk m) (_profiles m) (_favorites m) (_defaultProfile m)
    (_fallbackProfile m) l (_sessions m) (_sessionProfiles m)
    (recursionGuard m) (konsolerc_DefaultProfile m) (emitted m).
Definition with_sessionProfiles (m : SessionManager) (sp : gmap Session Ptr)
  : SessionManager :=
  mkManager (heap m) (disk m) (_profiles m) (_favorites m) (_defaultProfile m)
    (_fallbackProfile m) (_shortcuts m) (_sessions m) sp
    (recursionGuard m) (konsolerc_DefaultProfile m) (emitted m).
Definition with_recursionGuard (m : SessionManager) (g : list string)
  : SessionManager :=
  mkManager (heap m) (disk m) (_profiles m) (_favorites m) (_defaultProfile m)
    (_fallbackProfile m) (_shortcuts m) (_sessions m) (_sessionProfiles m)
    g (konsolerc_DefaultProfile m) (emitted m).
Definition with_konsolerc (m : SessionManager) (e : option string)
  : SessionManager :=
  mkManager (heap m) (disk m) (_profiles m) (_favorites m) (_defaultProfile m)
    (_fallbackProfile m) (_shortcuts m) (_sessions m) (_sessionProfiles m)
    (recursionGuard m) e (emitted m).
Definition emit (m : SessionManager) (s : Signal) : SessionManager :=
  mkManager (heap m) (disk m) (_profiles m) (_favorites m) (_defaultProfile m)
    (_fallbackProfile m) (_shortcuts m) (_sessions m) (_sessionProfiles m)
    (recursionGuard m) (konsolerc_DefaultProfile m) (emitted m ++ [s]).

(** [QSet::insert] and [QSet::remove] on the list representation. *)
Definition QSet_insert (l : list Ptr) (p : Ptr) : list Ptr :=
  if bool_decide (p ∈ l) then l else l ++ [p].
Definition QSet_remove (l : list Ptr) (p : Ptr) : list Ptr :=
  filter (fun q => q ≠ p) l.

(** [SessionManager::addProfile] *)
Definition addProfile (m : SessionManager) (type : Ptr) : SessionManager :=
  let m1 := match _profiles m with
            | [] => with_defaultProfile m (Some type)
            | _ => m
            end in
  emit (with_profiles m1 (QSet_insert (_profiles m1) type)) (profileAdded type).

(** [FallbackProfile::FallbackProfile].  [shell] is [$SHELL], [fixedFont]
    the system's fixed font and [localeCodec] the name of the locale's
    codec. *)
Definition FallbackProfile (shell fixedFont localeCodec : string) : ProfileObj :=
  mkProfile
    (list_to_map
       [ (Name, VString "Shell"); (Path, VString "FALLBACK/");
         (Command, VString shell); (Icon, VString "utilities-terminal");
         (Arguments, VStringList [shell]);
         (Environment, VStringList ["TERM=xterm"]);
         (LocalTabTitleFormat, VString "%D : %n");
         (RemoteTabTitleFormat, VString "(%u) %H");
         (TabBarMode, VInt 2); (TabBarPosition, VInt 0);
         (NewTabBehavior, VInt 0); (ShowMenuBar, VBool true);
         (ShowTerminalSizeHint, VBool true); (SaveGeometryOnExit, VBool true);
         (StartInCurrentSessionDir, VBool true);
         (ShowNewAndCloseTabButtons, VBool false);
         (MenuIndex, VString "0"); (SilenceSeconds, VInt 10);
         (KeyBindings, VString "default"); (ColorScheme, VString "Linux");
         (Font, VFont fixedFont);
         (HistoryMode, VInt 1); (HistorySize, VInt 1000);
         (ScrollBarPosition, VInt 1);
         (FlowControlEnabled, VBool true);
         (AllowProgramsToResizeWindow, VBool true);
         (BlinkingTextEnabled, VBool true);
         (UnderlineLinksEnabled, VBool true); (TripleClickMode, VInt 0);
         (BlinkingCursorEnabled, VBool false);
         (BidiRenderingEnabled, VBool false); (CJKAmbiguousWide, VBool false);
         (CursorShape, VInt 0); (UseCustomCursorColor, VBool false);
         (CustomCursorColor, VColor "#000000");
         (DefaultEncoding, VString localeCodec);
         (AntiAliasFonts, VBool true); (BoldIntense, VBool true);
         (WordCharacters, VString ":@-./_~?&=%+#") ])
    None true None.

(** The manager as [SessionManager::SessionManager] has it after
    [addProfile(_fallbackProfile)], before anything is read from disk. *)
Definition SessionManager_init (fallback : ProfileObj) (d : FileSystem)
  : SessionManager :=
  addProfile (mkManager [fallback] d [] [] None 0%nat [] [] ∅ [] None []) 0%nat.

Section Manager.
Context `{Platform}.

(** The search of [loadProfile] through [_profiles] for a profile whose
    path is [path]. *)
Fixpoint findLoaded (fuel : nat) (h : Heap) (path : string)
  (profiles : list Ptr) : option (option Ptr) :=
  match profiles with
  | [] => Some None
  | profile :: rest =>
      pp ← Profile_path fuel h profile;
      if bool_decide (pp = path) then Some (Some profile)
      else findLoaded fuel h path rest
  end.

(** Modelled from the spec: [PopStackOnExit] (declared in SessionManager.h,
    which is not among the sources): on every exit of [loadProfile] the
    guard stack drops what this call pushed, that is, it returns to the
    size [count] it had when the guard object was constructed. *)
Definition PopStackOnExit (count : nat) (m : SessionManager) : SessionManager :=
  with_recursionGuard m (take count (recursionGuard m)).

(** The path [loadProfile] looks for, from the one it is given. *)
Definition resolvePath (shortPath : string) : string :=
  let path := shortPath in
  let path :=
    if bool_decide (QFileInfo_suffix shortPath ≠ "profile")
    then (path ++ ".profile")%string else path in
  let path :=
    if isEmptyString (QFileInfo_path shortPath)
       || bool_decide (QFileInfo_path shortPath = ".")
    then ("konsole/" ++ path)%string else path in
  if negb (QFileInfo_isAbsolute shortPath) then locate path else path.

(** [SessionManager::loadProfile].  The result is the returned pointer
    ([None] is the null [Profile::Ptr]) and the manager afterwards.  The
    recursion loads the parent; [fuel] bounds its depth. *)
Fixpoint loadProfile (fuel : nat) (m : SessionManager) (shortPath : string)
  : option (option Ptr * SessionManager) :=
  match fuel with
  | O => None
  | S n =>
    fallbackPath ← Profile_path (S n) (heap m) (_fallbackProfile m);
    if bool_decide (shortPath = fallbackPath)
    then Some (Some (_fallbackProfile m), m)
    else if QFileInfo_isDir (disk m) shortPath then Some (None, m)
    else
      let path := resolvePath shortPath in
      loaded ← findLoaded (S n) (heap m) path (_profiles m);
      match loaded with
      | Some profile => Some (Some profile, m)
      | None =>
        let count := length (recursionGuard m) in
        if bool_decide (path ∈ recursionGuard m)
        then Some (Some (_fallbackProfile m), PopStackOnExit count m)
        else
          let m1 := with_recursionGuard m (recursionGuard m ++ [path]) in
          if endsWith path ".desktop"
          then Some (None, PopStackOnExit count m1)
          else
            let '(h1, newProfile) :=
              alloc (heap m1) (new_Profile (Some (_fallbackProfile m1))) in
            h2 ← setProperty (S n) h1 newProfile Path (VString path);
            '(result, parentProfilePath, h3) ←
              readProfile (S n) h2 (disk m1) path newProfile;
            let m2 := with_heap m1 h3 in
            m3 ← (if negb (isEmptyString parentProfilePath) then
                    '(parentProfile, m') ← loadProfile n m2 parentProfilePath;
                    h' ← setParent (heap m') newProfile parentProfile;
                    Some (with_heap m' h')
                  else Some m2);
            let m4 := PopStackOnExit count m3 in
            if negb result then Some (None, m4)
            else Some (Some newProfile, addProfile m4 newProfile)
      end
  end.

(** [profileIndexLessThan] and [profileNameLessThan].  The sort only runs
    on profiles whose properties were read just before; a comparison that
    cannot read them is [false]. *)
Definition profileIndexLessThan (fuel : nat) (h : Heap) (p1 p2 : Ptr) : bool :=
  match menuIndexAsInt fuel h p1, menuIndexAsInt fuel h p2 with
  | Some i1, Some i2 => i1 <=? i2
  | _, _ => false
  end.

Definition profileNameLessThan (fuel : nat) (h : Heap) (p1 p2 : Ptr) : bool :=
  match Profile_name fuel h p1, Profile_name fuel h p2 with
  | Some n1, Some n2 => localeAwareCompare n1 n2 <=? 0
  | _, _ => false
  end.

Definition sortByIndexProfileList (fuel : nat) (h : Heap) (l : list Ptr) :=
  qStableSort (profileIndexLessThan fuel h) l.
Definition sortByNameProfileList (fuel : nat) (h : Heap) (l : list Ptr) :=
  qStableSort (profileNameLessThan fuel h) l.

(** The first loop of [sortProfiles]: ([lackingIndices], [havingIndices]). *)
Definition sortProfiles_split (fuel : nat) (h : Heap) (fallbackPath : string)
  (acc : option (list Ptr * list Ptr)) (p : Ptr)
  : option (list Ptr * list Ptr) :=
  '(lackingIndices, havingIndices) ← acc;
  pp ← Profile_path fuel h p;
  if bool_decide (pp = fallbackPath) then Some (lackingIndices, havingIndices)
  else
    index ← menuIndexAsInt fuel h p;
    if index =? 0 then Some (lackingIndices ++ [p], havingIndices)
    else Some (lackingIndices, havingIndices ++ [p]).

(** The renumbering loops: the profile at position [k] of [l] gets the
    menu index [k + 1 + i]. *)
Fixpoint renumber (fuel : nat) (h : Heap) (l : list Ptr) (i : Z)
  : option Heap :=
  match l with
  | [] => Some h
  | tempProfile :: rest =>
      h' ← setProperty fuel h tempProfile MenuIndex
             (VString (QString_number (i + 1)));
      renumber fuel h' rest (i + 1)
  end.

(** [SessionManager::sortProfiles]: the list afterwards and the manager. *)
Definition sortProfiles (fuel : nat) (m : SessionManager) (l : list Ptr)
  : option (list Ptr * SessionManager) :=
  fallbackPath ← Profile_path fuel (heap m) (_fallbackProfile m);
  '(lackingIndices, havingIndices) ←
    foldl (sortProfiles_split fuel (heap m) fallbackPath) (Some ([], [])) l;
  let havingIndices := sortByIndexProfileList fuel (heap m) havingIndices in
  let lackingIndices := sortByNameProfileList fuel (heap m) lackingIndices in
  h1 ← renumber fuel (heap m) havingIndices 0;
  h2 ← renumber fuel h1 lackingIndices (Z.of_nat (length havingIndices));
  Some (havingIndices ++ lackingIndices, with_heap m h2).

(** [SessionManager::applyProfile(Session*, Profile::Ptr, bool)]: the
    binding is renewed and the session's setters are called, which is
    recorded as one event. *)
Definition applyProfileToSession (m : SessionManager) (session : Session)
  (profile : Ptr) (modifiedPropertiesOnly : bool) : SessionManager :=
  emit (with_sessionProfiles m (<[session := profile]> (_sessionProfiles m)))
       (sessionApplied session profile modifiedPropertiesOnly).

(** [SessionManager::applyProfile(Profile::Ptr, bool)] *)
Definition applyProfile (m : SessionManager) (profile : Ptr)
  (modifiedPropertiesOnly : bool) : SessionManager :=
  foldl (fun m' next =>
           if bool_decide (_sessionProfiles m' !! next = Some profile)
           then applyProfileToSession m' next profile modifiedPropertiesOnly
           else m')
        m (_sessions m).

(** [SessionManager::saveProfile] *)
Definition saveProfile (fuel : nat) (m : SessionManager) (profile : Ptr)
  : option (string * SessionManager) :=
  newPath ← getPath fuel (heap m) profile;
  '(_, d) ← writeProfile fuel (heap m) (disk m) newPath profile;
  Some (newPath, with_disk m d).

(** The first loop of [changeProfile]: every change goes through the
    virtual [setProperty] of [profile]. *)
Definition insertChanges (fuel : nat) (h : Heap) (profile : Ptr)
  (changes : list (Property * QVariant)) : option Heap :=
  foldl (fun acc '(property, value) =>
           h' ← acc; setProperty fuel h' profile property value)
        (Some h) changes.

(** [SessionManager::changeProfile].  [propertyMap.keys()] is walked in
    the order of [map_to_list]. *)
Fixpoint changeProfile (fuel : nat) (m : SessionManager) (profile : Ptr)
  (propertyMap : gmap Property QVariant) (persistent : bool)
  : option SessionManager :=
  match fuel with
  | O => None
  | S n =>
    h1 ← insertChanges (S n) (heap m) profile (map_to_list propertyMap);
    let m1 := with_heap m h1 in
    nm ← Profile_name (S n) h1 profile;
    let persistent := persistent && negb (isEmptyString nm) in
    o ← h1 !! profile;
    match _group o with
    | Some members =>
        foldl (fun acc member =>
                 m' ← acc; changeProfile n m' member propertyMap persistent)
              (Some m1) members
    | None =>
        let m2 := applyProfile m1 profile true in
        let m3 := emit m2 (profileChanged profile) in
        if persistent && negb (isHidden o) then
          '(newPath, m4) ← saveProfile (S n) m3 profile;
          h5 ← setProperty (S n) (heap m4) profile Path (VString newPath);
          Some (with_heap m4 h5)
        else Some m3
    end
  end.

(** [SessionManager::setDefaultProfile] *)
Definition setDefaultProfile (fuel : nat) (m : SessionManager) (profile : Ptr)
  : option SessionManager :=
  let m1 := with_defaultProfile m (Some profile) in
  p ← Profile_path fuel (heap m1) profile;
  path ← (if isEmptyString p then getPath fuel (heap m1) profile else Some p);
  Some (with_konsolerc m1 (Some (QFileInfo_fileName path))).

(** [SessionManager::setFavorite] *)
Definition setFavorite (m : SessionManager) (profile : Ptr) (favorite : bool)
  : SessionManager :=
  let m1 := if bool_decide (profile ∈ _profiles m) then m
            else addProfile m profile in
  if favorite && negb (bool_decide (profile ∈ _favorites m1)) then
    emit (with_favorites m1 (QSet_insert (_favorites m1) profile))
         (favoriteStatusChanged profile favorite)
  else if negb favorite && bool_decide (profile ∈ _favorites m1) then
    emit (with_favorites m1 (QSet_remove (_favorites m1) profile))
         (favoriteStatusChanged profile favorite)
  else m1.

(** [SessionManager::shortcut]: the empty key sequence when none is bound.
    The list is scanned in its own order, the [QMap] of the code in the
    order of its keys; the answers agree when at most one key is bound to
    the profile. *)
Fixpoint shortcut_scan (profile : Ptr) (profilePath_ : string)
  (l : list (QKeySequence * ShortcutData)) : QKeySequence :=
  match l with
  | [] => ""
  | (key, value) :: rest =>
      if bool_decide (profileKey value = Some profile)
         || bool_decide (profilePath value = profilePath_)
      then key
      else shortcut_scan profile profilePath_ rest
  end.

Definition shortcut (fuel : nat) (m : SessionManager) (profile : Ptr)
  : option QKeySequence :=
  p ← Profile_path fuel (heap m) profile;
  Some (shortcut_scan profile p (_shortcuts m)).

Definition QMap_remove (l : list (QKeySequence * ShortcutData))
  (k : QKeySequence) : list (QKeySequence * ShortcutData) :=
  filter (fun e => e.1 ≠ k) l.

(** [SessionManager::setShortcut] *)
Definition setShortcut (fuel : nat) (m : SessionManager) (profile : Ptr)
  (keySequence : QKeySequence) : option SessionManager :=
  existingShortcut ← shortcut fuel m profile;
  let m1 := with_shortcuts m (QMap_remove (_shortcuts m) existingShortcut) in
  if isEmptyString keySequence then Some m1
  else
    p ← Profile_path fuel (heap m1) profile;
    let data := mkShortcutData (Some profile) p in
    Some (emit (with_shortcuts m1
                  (QMap_remove (_shortcuts m1) keySequence ++ [(keySequence, data)]))
               (shortcutChanged profile keySequence)).

(** [SessionManager::deleteProfile]: the returned flag and the manager. *)
Definition deleteProfile (fuel : nat) (m : SessionManager) (type : option Ptr)
  : option (bool * SessionManager) :=
  let wasDefault := bool_decide (type = _defaultProfile m) in
  r ← match type with
      | Some t =>
          o ← heap m !! t;
          p ← Profile_path fuel (heap m) t;
          (* try to delete the config file *)
          let '(failed, d) :=
            if isPropertySet o Path && QFile_exists (disk m) p then
              let '(removed, d) := QFile_remove (disk m) p in (negb removed, d)
            else (false, disk m) in
          if failed then Some (inl m)
          else
            let m1 := with_disk m d in
            (* remove from favorites, profile list, shortcut list etc. *)
            let m2 := setFavorite m1 t false in
            m3 ← setShortcut fuel m2 t "";
            let m4 := with_profiles m3 (QSet_remove (_profiles m3) t) in
            h5 ← setHidden (heap m4) t true;
            Some (inr (with_heap m4 h5))
      | None => Some (inr m)
      end;
  match r with
  | inl m' => Some (false, m')
  | inr m' =>
      m6 ← (if wasDefault then
              first ← head (_profiles m');
              setDefaultProfile fuel m' first
            else Some m');
      Some (true, emit m6 (profileRemoved type))
  end.

End Manager.

(** ** Reading the store *)

(** The value stored in the object [p] itself for [X], if any. *)
Definition localValue (h : Heap) (p : Ptr) (X : Property) : option QVariant :=
  o ← h !! p; _propertyValues o !! X.

(** The parent chain of [p] ends within [fuel] objects. *)
Fixpoint chain_ok (fuel : nat) (h : Heap) (p : Ptr) : bool :=
  match fuel with
  | O => false
  | S n =>
      match h !! p with
      | None => false
      | Some o =>
          match _parent o with
          | None => true
          | Some q => chain_ok n h q
          end
      end
  end.

(** The groups below [p] nest at most [fuel] deep. *)
Fixpoint group_ok (fuel : nat) (h : Heap) (p : Ptr) : bool :=
  match fuel with
  | O => false
  | S n =>
      match h !! p with
      | None => false
      | Some o =>
          match _group o with
          | None => true
          | Some ms => forallb (group_ok n h) ms
          end
      end
  end.

(** Two stores with the same objects up to their property values. *)
Definition same_shape (h h' : Heap) : Prop :=
  Forall2 (fun o o' => _parent o = _parent o' /\ _hidden o = _hidden o'
                       /\ _group o = _group o') h h'.

(** [ProfileGroup::setProperty] returns at once: a group of more than one
    profile, and a property that cannot be inherited. *)
Definition blocked (o : ProfileObj) (X : Property) : bool :=
  match _group o with
  | Some ms => bool_decide (1 < length ms)%nat && negb (canInheritProperty X)
  | None => false
  end.

(** Between [h] and [h'] nothing but stored values of [X] changed, and
    those only to [v]. *)
Definition only_wrote (X : Property) (v : QVariant) (h h' : Heap) : Prop :=
  same_shape h h' /\
  forall q Y, localValue h' q Y = localValue h q Y
              \/ (Y = X /\ localValue h' q Y = Some v).

(** The member loop of [ProfileGroup::setProperty], as [setProperty] has it. *)
Definition fanOut (n : nat) (X : Property) (v : QVariant)
  (acc : option Heap) (ms : list Ptr) : option Heap :=
  foldl (fun acc m => h' ← acc; setProperty n h' m X v) acc ms.

(** What [clone] needs to run to its end: both parent chains end and the
    receiver's groups nest within [fuel]. *)
Definition clone_inv (fuel : nat) (this profile : Ptr) (h : Heap) : Prop :=
  chain_ok fuel h this = true /\ chain_ok fuel h profile = true
  /\ group_ok fuel h this = true.

(** ** The entries the writer stores *)

(** The group and key under which a table entry is persisted, if any. *)
Definition entryKey (info : PropertyInfo) : option (string * string) :=
  match info_group info, info_name info with
  | Some group, Some key => Some (group, key)
  | _, _ => None
  end.

Section WriteValues.
Context `{Platform}.

(** What one table entry makes [writeProperties] store for the object [o]. *)
Definition writeValues_entry (o : ProfileObj) (config : KConfig)
  (properties : PropertyInfo) : KConfig :=
  match info_group properties, info_name properties with
  | Some group, Some key =>
      match _propertyValues o !! info_property properties with
      | Some v => writeEntryString config group key (entryText v)
      | None => config
      end
  | _, _ => config
  end.

(** The entries of the file after [writeProperties]. *)
Definition writeValues (o : ProfileObj) (l : list PropertyInfo)
  (config : KConfig) : KConfig :=
  foldl (writeValues_entry o) config l.

End WriteValues.

(** No entry of [l] is persisted under [key]; no persisted entry of [l]
    is for the property [X]. *)
Definition keyFree (key : string * string) (l : list PropertyInfo) : bool :=
  forallb (fun i => negb (bool_decide (entryKey i = Some key))) l.
Definition propFree (X : Property) (l : list PropertyInfo) : bool :=
  forallb (fun i => negb (bool_decide (is_Some (entryKey i)))
                    || negb (bool_decide (info_property i = X))) l.

(** The persisted entries of [l] have pairwise different keys and are for
    pairwise different properties. *)
Fixpoint distinctEntries (l : list PropertyInfo) : bool :=
  match l with
  | [] => true
  | e :: r =>
      match entryKey e with
      | Some key => keyFree key r && propFree (info_property e) r
      | None => true
      end && distinctEntries r
  end.

(** ** What a plain profile holds after a file is read into it *)

Section ReadValues.
Context `{Platform}.

(** What one table entry makes [readProperties] store. *)
Definition readValues_entry (config : KConfig) (vals : gmap Property QVariant)
  (properties : PropertyInfo) : gmap Property QVariant :=
  match info_group properties, info_name properties with
  | Some group, Some key =>
      if hasKey config group key
      then <[info_property properties :=
               entryValue (info_type properties)
                 (readEntryString config group key)]> vals
      else vals
  | _, _ => vals
  end.

(** The values a plain profile holds after [readProperties]. *)
Definition readValues (config : KConfig) (l : list PropertyInfo)
  (vals : gmap Property QVariant) : gmap Property QVariant :=
  foldl (readValues_entry config) vals l.

(** The values a plain profile holds after [readProfile]. *)
Definition readProfile_values (config : KConfig)
  (vals : gmap Property QVariant) : gmap Property QVariant :=
  readValues config DefaultPropertyNames
    (if hasKey config GENERAL_GROUP "Command" then
       let text := readEntryString config GENERAL_GROUP "Command" in
       <[Arguments := VStringList (ShellCommand_arguments text)]>
         (<[Command := VString (ShellCommand_command text)]> vals)
     else vals).

(** The parent path [readProfile] reports. *)
Definition parentProfileOf (config : KConfig) : string :=
  if hasKey config GENERAL_GROUP "Parent"
  then readEntryString config GENERAL_GROUP "Parent" else "".

(** The object [loadProfile] creates for the file [config] at [path],
    before its parent is attached. *)
Definition loadedProfile (fallback : Ptr) (path : string) (config : KConfig)
  : ProfileObj :=
  with_values (new_Profile (Some fallback))
    (readProfile_values config {[ Path := VString path ]}).

End ReadValues.

(** ** Chains of profile files *)

Section Chains.
Context `{Platform}.

(** A chain of profile files, each given by the name it is asked for under
    and by its content: every file names the next one as its parent, and
    the last one names [closing]. *)
Fixpoint chained (files : list (string * KConfig)) (closing : string) : Prop :=
  match files with
  | [] => True
  | (name, config) :: rest =>
      let next := match rest with [] => closing | (next, _) :: _ => next end in
      config !! (GENERAL_GROUP, "Parent") = Some next /\ next <> ""
      /\ chained rest closing
  end.

(** What [loadProfile] needs to read the file: its name is not the
    fallback profile's path and not a directory, the path it resolves to
    does not end in .desktop, holds the file, and is not loaded yet. *)
Definition loadable (m : SessionManager) (fallbackPath : string)
  (file : string * KConfig) : Prop :=
  file.1 <> fallbackPath
  /\ QFileInfo_isDir (disk m) file.1 = false
  /\ endsWith (resolvePath file.1) ".desktop" = false
  /\ fs_files (disk m) !! resolvePath file.1 = Some file.2
  /\ findLoaded 1 (heap m) (resolvePath file.1) (_profiles m) = Some None.

(** The objects of a chain in the store, from the slot [base] on: the
    parent of each is the object after it, and the fallback profile for
    the last one. *)
Fixpoint chainObjects (fallback : Ptr) (base : nat)
  (files : list (string * KConfig)) : list ProfileObj :=
  match files with
  | [] => []
  | (name, config) :: rest =>
      with_parent (loadedProfile fallback (resolvePath name) config)
        (Some (match rest with [] => fallback | _ => S base end))
      :: chainObjects fallback (S base) rest
  end.

End Chains.

(** ** What changeProfile may write *)


(** [q] is a plain profile (not a group) whose parent chain ends within
    [fuel] objects. *)
Definition plainMember (fuel : nat) (h : Heap) (q : Ptr) : bool :=
  match h !! q with
  | Some o => bool_decide (_group o = None) && chain_ok fuel h q
  | None => false
  end.






Section SavedPath.
Context `{Platform}.




End SavedPath.

(** ** Example stores *)

(** A base profile and a child that sets only its directory. *)
Definition resolution_heap : Heap :=
  [ mkProfile {[ Icon := VString "parent-icon"; Name := VString "Base" ]}
      None false None
  ; mkProfile {[ Directory := VString "/tmp" ]} (Some 0%nat) false None ].

(** Words of a command line, separated by blanks (no quoting). *)
Fixpoint splitWords (cur : string) (s : string) : list string :=
  match s with
  | EmptyString => match cur with EmptyString => [] | _ => [String.rev cur] end
  | String c r =>
      if bool_decide (c = " "%char)
      then match cur with
           | EmptyString => splitWords EmptyString r
           | _ => String.rev cur :: splitWords EmptyString r
           end
      else splitWords (String c cur) r
  end.

Fixpoint joinWords (l : list string) : string :=
  match l with
  | [] => ""
  | [w] => w
  | w :: r => (w ++ " " ++ joinWords r)%string
  end.

(** A platform for the examples: an entry is stored as the text of the
    variant and read back by the declared type; a number, a truth value, a
    list of one string, a font and a colour convert to their text, and a
    text converts to a number, a truth value, a list, a font and a colour;
    a command line is the argument list joined by blanks; data files live
    under /usr/share/apps/; names compare by character codes. *)
Definition examplePlatform : Platform := {|
  entryText := toQString;
  entryValue := fun t s =>
    match t with
    | T_Int => VInt (default 0 (QString_toInt s))
    | T_Bool => VBool (bool_decide (s = "true"))
    | T_StringList => VStringList (splitWords "" s)
    | T_Font => VFont s
    | T_Color => VColor s
    | _ => VString s
    end;
  QVariant_convert := fun v t =>
    match t, v with
    | T_String, VInt n => Some (VString (QString_number n))
    | T_String, VBool b => Some (VString (if b then "true" else "false"))
    | T_String, VStringList [s] => Some (VString s)
    | T_String, VFont f => Some (VString f)
    | T_String, VColor c => Some (VString c)
    | T_Int, VString s => VInt <$> QString_toInt s
    | T_Bool, VString s =>
        Some (VBool (negb (bool_decide (toLower s = "0")
                           || bool_decide (toLower s = "false")
                           || bool_decide (s = ""))))
    | T_StringList, VString s => Some (VStringList [s])
    | T_Font, VString s => Some (VFont s)
    | T_Color, VString s => Some (VColor s)
    | _, _ => None
    end;
  ShellCommand_fullCommand := fun _ a => joinWords a;
  ShellCommand_command := fun s => default "" (head (splitWords "" s));
  ShellCommand_arguments := fun s => splitWords "" s;
  locate := fun p => ("/usr/share/apps/" ++ p)%string;
  saveLocation := "/home/user/.kde/share/apps/konsole/";
  localeAwareCompare := fun a b =>
    match String.compare a b with Lt => -1 | Eq => 0 | Gt => 1 end
|}.

Definition exampleFallback : ProfileObj :=
  FallbackProfile "/bin/bash" "Monospace,10" "UTF-8".

(** Two profiles that differ in one property, and a group of both. *)
Definition plainProfile (values : list (Property * QVariant)) : ProfileObj :=
  mkProfile (list_to_map values) (Some 0%nat) false None.

Definition group_heap : Heap :=
  [ exampleFallback
  ; plainProfile [ (Name, VString "M1"); (Icon, VString "term") ]
  ; plainProfile [ (Name, VString "M2"); (Icon, VString "term");
                   (Directory, VString "/tmp") ]
  ; mkProfile ∅ None true (Some [1; 2]%nat) ].

(** The members of the spec's example: M1(A=1,B=2), M2(A=1,B=3), with
    [HistoryMode] for A and [HistorySize] for B. *)
Definition group_heap_AB : Heap :=
  [ exampleFallback
  ; plainProfile [ (HistoryMode, VInt 1); (HistorySize, VInt 2) ]
  ; plainProfile [ (HistoryMode, VInt 1); (HistorySize, VInt 3) ]
  ; mkProfile ∅ None true (Some [1; 2]%nat) ].


(** Two profiles with the same menu index 1, in the order P, Q. *)
Definition ties_manager : SessionManager :=
  with_heap (SessionManager_init exampleFallback (mkFS ∅ [] []))
    [ exampleFallback
    ; plainProfile [ (Name, VString "P"); (Path, VString "/p/P.profile");
                     (MenuIndex, VString "1") ]
    ; plainProfile [ (Name, VString "Q"); (Path, VString "/p/Q.profile");
                     (MenuIndex, VString "1") ] ].

(** The spec's example: Zeta (index 0), Abc (index 2), Mid (index 1). *)
Definition menu_manager : SessionManager :=
  with_heap (SessionManager_init exampleFallback (mkFS ∅ [] []))
    [ exampleFallback
    ; plainProfile [ (Name, VString "Zeta"); (Path, VString "/p/Zeta.profile");
                     (MenuIndex, VString "0") ]
    ; plainProfile [ (Name, VString "Abc"); (Path, VString "/p/Abc.profile");
                     (MenuIndex, VString "2") ]
    ; plainProfile [ (Name, VString "Mid"); (Path, VString "/p/Mid.profile");
                     (MenuIndex, VString "1") ] ].

(** Two profile files that name each other as parent. *)
Definition cycle_disk : FileSystem :=
  mkFS {[ "/usr/share/apps/konsole/A.profile" :=
            {[ ("General", "Name") := "A"; ("General", "Parent") := "B.profile" ]};
          "/usr/share/apps/konsole/B.profile" :=
            {[ ("General", "Name") := "B"; ("General", "Parent") := "A.profile" ]} ]}
       [] [].

Definition cycle_manager : SessionManager :=
  SessionManager_init exampleFallback cycle_disk.

(** Three profile files whose parents run in a circle: A, B, C, A. *)
Definition cycle3_manager : SessionManager :=
  SessionManager_init exampleFallback
    (mkFS {[ "/usr/share/apps/konsole/A.profile" :=
               {[ ("General", "Name") := "A"; ("General", "Parent") := "B.profile" ]};
             "/usr/share/apps/konsole/B.profile" :=
               {[ ("General", "Name") := "B"; ("General", "Parent") := "C.profile" ]};
             "/usr/share/apps/konsole/C.profile" :=
               {[ ("General", "Name") := "C"; ("General", "Parent") := "A.profile" ]} ]}
          [] []).

(** A manager whose store is [group_heap]. *)
Definition group_manager : SessionManager :=
  with_heap (SessionManager_init exampleFallback (mkFS ∅ [] [])) group_heap.



(** A profile that sets only its command, and an empty profile to read
    a file into. *)
Definition command_heap : Heap :=
  [ exampleFallback
  ; plainProfile [ (Command, VString "ssh") ]
  ; new_Profile (Some 0%nat) ].


(** A loaded profile whose file cannot be removed; it is the default
    profile, a favourite, and bound to a shortcut. *)
Definition locked_manager : SessionManager :=
  mkManager
    [ exampleFallback
    ; plainProfile [ (Name, VString "Work"); (Path, VString "/ro/Work.profile") ] ]
    (mkFS {[ "/ro/Work.profile" := {[ ("General", "Name") := "Work" ]} ]}
          [] [ "/ro/Work.profile" ])
    [0; 1]%nat [1%nat] (Some 1%nat) 0%nat
    [ ("Ctrl+W", mkShortcutData (Some 1%nat) "/ro/Work.profile") ]
    [] ∅ [] None [].

(** ** Definitions for the further properties *)

(** Every character of [s] satisfies [P]. *)
Fixpoint allChars (P : ascii -> bool) (s : string) : bool :=
  match s with
  | EmptyString => true
  | String c r => P c && allChars P r
  end.

Definition notEquals (c : ascii) : bool := negb (bool_decide (c = "="%char)).

(** What [clone(profile, false)] needs to run to its end: the source's
    parent chain ends and the receiver's groups nest within [fuel]. *)
Definition clone_all_inv (fuel : nat) (this profile : Ptr) (h : Heap) : Prop :=
  chain_ok fuel h profile = true /\ group_ok fuel h this = true.

(** No profile of the store has [g] as its parent. *)
Definition noChildren (h : Heap) (g : Ptr) : Prop :=
  forall q o, h !! q = Some o -> _parent o <> Some g.

(** The number of files that are not on the guard stack of [loadProfile]. *)
Definition pending (fs : FileSystem) (guard : list string) : nat :=
  size (filter (fun kv => kv.1 ∉ guard) (fs_files fs)).

(** What [loadProfile] leaves as it found it: the disk, the favourites, the
    shortcuts, the sessions, the fallback profile and every object that
    was in the store; new objects come after those. *)
Definition loaded_more (m m' : SessionManager) : Prop :=
  disk m' = disk m /\ _favorites m' = _favorites m
  /\ _shortcuts m' = _shortcuts m /\ _sessions m' = _sessions m
  /\ _sessionProfiles m' = _sessionProfiles m
  /\ _fallbackProfile m' = _fallbackProfile m
  /\ konsolerc_DefaultProfile m' = konsolerc_DefaultProfile m
  /\ recursionGuard m' = recursionGuard m
  /\ (exists ext, heap m' = heap m ++ ext)
  /\ (forall q, q ∈ _profiles m -> q ∈ _profiles m')
  /\ (_profiles m <> [] -> _defaultProfile m' = _defaultProfile m).

(** The fallback profile and every registered profile is an object of the
    store. *)
Definition profiles_valid (m : SessionManager) : Prop :=
  is_Some (heap m !! _fallbackProfile m)
  /\ Forall (fun p => is_Some (heap m !! p)) (_profiles m).

(** [QMap::insert]: an entry with the same key is replaced. *)
Definition QMap_insert (l : list (QKeySequence * ShortcutData))
  (k : QKeySequence) (data : ShortcutData) : list (QKeySequence * ShortcutData) :=
  QMap_remove l k ++ [(k, data)].

(** [SessionManager::loadShortcuts].  [entries] is the entry map of the
    group "Profile Shortcuts" of the application's configuration: key
    sequences and profile paths. *)
Definition loadShortcuts (entries : list (string * string)) (m : SessionManager)
  : SessionManager :=
  foldl (fun m' '(key, path) =>
           with_shortcuts m'
             (QMap_insert (_shortcuts m') key (mkShortcutData None path)))
        m entries.

Section Constructor.
Context `{Platform}.

(** [SessionManager::SessionManager].  [konsolerc] is the entry
    "DefaultProfile" of konsolerc, if there is one. *)
Definition SessionManager_new (fuel : nat) (fallback : ProfileObj)
  (d : FileSystem) (konsolerc : option string) (entries : list (string * string))
  : option SessionManager :=
  let m0 := with_konsolerc (SessionManager_init fallback d) konsolerc in
  let defaultSessionFilename := default "Shell.profile" konsolerc in
  let path := locate ("konsole/" ++ defaultSessionFilename) in
  m1 ← (if negb (isEmptyString path) then
          '(profile, m') ← loadProfile fuel m0 path;
          Some (match profile with
                | Some p => with_defaultProfile m' (Some p)
                | None => m'
                end)
        else Some m0);
  Some (loadShortcuts entries m1).

End Constructor.

(** The entry [e] of the shortcut map is bound to [profile], by pointer
    or by path: the test of [SessionManager::shortcut]. *)
Definition boundTo (profile : Ptr) (path : string)
  (e : QKeySequence * ShortcutData) : Prop :=
  profileKey e.2 = Some profile \/ profilePath e.2 = path.

(** [QMap::value]/[QMap::contains] on the list representation. *)
Fixpoint QMap_find (l : list (QKeySequence * ShortcutData)) (k : QKeySequence)
  : option ShortcutData :=
  match l with
  | [] => None
  | (key, value) :: rest =>
      if bool_decide (key = k) then Some value else QMap_find rest k
  end.

(** [_shortcuts[k]] on the non-const map: a key that is absent is first
    inserted with a default constructed [ShortcutData]. *)
Definition QMap_index (l : list (QKeySequence * ShortcutData)) (k : QKeySequence)
  : ShortcutData * list (QKeySequence * ShortcutData) :=
  match QMap_find l k with
  | Some data => (data, l)
  | None => (mkShortcutData None "", l ++ [(k, mkShortcutData None "")])
  end.

(** [_shortcuts[k].profileKey = key] *)
Definition QMap_setProfileKey (l : list (QKeySequence * ShortcutData))
  (k : QKeySequence) (key : option Ptr) : list (QKeySequence * ShortcutData) :=
  map (fun e => if bool_decide (e.1 = k)
                then (e.1, mkShortcutData key (profilePath e.2)) else e) l.

Section ManagerShortcuts.
Context `{Platform}.

(** [SessionManager::findByShortcut].  [Q_ASSERT] does nothing in a
    release build. *)
Definition findByShortcut (fuel : nat) (m : SessionManager)
  (shortcut : QKeySequence) : option (option Ptr * SessionManager) :=
  let '(data, l1) := QMap_index (_shortcuts m) shortcut in
  let m1 := with_shortcuts m l1 in
  match profileKey data with
  | Some p => Some (Some p, m1)
  | None =>
      '(key, m2) ← loadProfile fuel m1 (profilePath data);
      match key with
      | None =>
          Some (None, with_shortcuts m2 (QMap_remove (_shortcuts m2) shortcut))
      | Some p =>
          Some (Some p,
                with_shortcuts m2
                  (QMap_setProfileKey (_shortcuts m2) shortcut (Some p)))
      end
  end.

End ManagerShortcuts.

(** [l] is in ascending order of [key]. *)
Definition ascending {A} (key : A -> Z) (l : list A) : Prop :=
  forall i j x y, (i <= j)%nat -> l !! i = Some x -> l !! j = Some y -> key x <= key y.

(** ** Further example stores *)

(** A file that names itself as its parent, and a file without parent. *)
Definition more_disk : FileSystem :=
  mkFS {[ "/usr/share/apps/konsole/S.profile" :=
            {[ ("General", "Name") := "S"; ("General", "Parent") := "S.profile" ]};
          "/usr/share/apps/konsole/One.profile" :=
            {[ ("General", "Name") := "One"; ("General", "Icon") := "one" ]} ]}
       [] [].

Definition more_manager : SessionManager :=
  SessionManager_init exampleFallback more_disk.

(** Two shortcuts whose profiles are not loaded yet; the second names a
    file that does not exist. *)
Definition lazy_manager : SessionManager :=
  with_shortcuts more_manager
    [ ("Ctrl+O", mkShortcutData None "One.profile")
    ; ("Ctrl+Z", mkShortcutData None "Z.profile") ].

(** A loaded profile with a file that can be removed; it is the default
    profile, a favourite, and bound to a shortcut. *)
Definition work_manager : SessionManager :=
  mkManager
    [ exampleFallback
    ; plainProfile [ (Name, VString "Work"); (Path, VString "/rw/Work.profile") ] ]
    (mkFS {[ "/rw/Work.profile" := {[ ("General", "Name") := "Work" ]} ]} [] [])
    [0; 1]%nat [1%nat] (Some 1%nat) 0%nat
    [ ("Ctrl+W", mkShortcutData (Some 1%nat) "/rw/Work.profile") ]
    [7%nat; 8%nat] {[ 7%nat := 1%nat; 8%nat := 0%nat ]} [] None [].

(** A disk with an older file of the profile M2. *)
Definition old_disk : FileSystem :=
  mkFS {[ "/x/M2.profile" := {[ ("General", "Stale") := "1" ]} ]} [] [].

(** * Verified properties *)

(** ** The store: shape and frame lemmas *)

Lemma same_shape_refl h : same_shape h h.
Proof. apply Forall2_same_length_lookup_2; [done|]. intros i x y Hx Hy. by simplify_eq. Qed.

Lemma same_shape_trans h1 h2 h3 : same_shape h1 h2 -> same_shape h2 h3 -> same_shape h1 h3.
Proof.
  unfold same_shape. intros H12 H23.
  eapply Forall2_trans; [|exact H12|exact H23].
  simpl. intros x y z (?&?&?) (?&?&?). repeat split; congruence.
Qed.

Lemma same_shape_lookup h h' p o : same_shape h h' -> h !! p = Some o ->
  exists o', h' !! p = Some o' /\ _parent o = _parent o' /\ _hidden o = _hidden o' /\ _group o = _group o'.
Proof. intros Hs Hp. destruct (Forall2_lookup_l _ _ _ _ _ Hs Hp) as (o'&?&?). eauto. Qed.

Lemma same_shape_lookup_None h h' p : same_shape h h' -> h !! p = None -> h' !! p = None.
Proof.
  intros Hs Hp. apply lookup_ge_None. apply lookup_ge_None in Hp.
  rewrite <- (Forall2_length _ _ _ Hs). done.
Qed.

Lemma same_shape_insert h p o o' : h !! p = Some o ->
  _parent o = _parent o' -> _hidden o = _hidden o' -> _group o = _group o' ->
  same_shape h (<[p := o']> h).
Proof.
  intros Hp ? ? ?. unfold same_shape.
  apply Forall2_same_length_lookup_2; [by rewrite length_insert|].
  intros i x y Hx Hy. destruct (decide (i = p)) as [->|Hne].
  - rewrite list_lookup_insert_eq in Hy by (by eapply lookup_lt_Some). simplify_eq. done.
  - rewrite list_lookup_insert_ne in Hy by done. simplify_eq. done.
Qed.

Lemma Profile_setProperty_spec h p X v h' :
  Profile_setProperty h p X v = Some h' ->
  same_shape h h' /\ localValue h' p X = Some v /\
  (forall q Y, q <> p \/ Y <> X -> localValue h' q Y = localValue h q Y).
Proof.
  unfold Profile_setProperty. intros Hs.
  destruct (h !! p) as [o|] eqn:Hp; simplify_eq/=.
  assert (p < length h)%nat by (by eapply lookup_lt_Some).
  split; [by eapply same_shape_insert|]. split.
  - unfold localValue. rewrite list_lookup_insert_eq by done. simpl. apply lookup_insert_eq.
  - intros q Y Hne. unfold localValue. destruct (decide (q = p)) as [->|].
    + rewrite list_lookup_insert_eq by done. rewrite Hp. simpl.
      destruct Hne as [|Hne]; [done|]. by rewrite lookup_insert_ne.
    + by rewrite list_lookup_insert_ne.
Qed.

Lemma Profile_setProperty_is_Some h p X v : is_Some (h !! p) -> is_Some (Profile_setProperty h p X v).
Proof. intros [o Ho]. unfold Profile_setProperty. rewrite Ho. simpl. eauto. Qed.


Lemma only_wrote_refl X v h : only_wrote X v h h.
Proof. split; [apply same_shape_refl|]. auto. Qed.

Lemma only_wrote_trans X v h1 h2 h3 : only_wrote X v h1 h2 -> only_wrote X v h2 h3 -> only_wrote X v h1 h3.
Proof.
  intros [S1 L1] [S2 L2]. split; [by eapply same_shape_trans|].
  intros q Y. destruct (L2 q Y) as [E2|[? E2]]; [|by right].
  rewrite E2. apply L1.
Qed.

Lemma only_wrote_keeps X v h h' q : only_wrote X v h h' -> localValue h q X = Some v -> localValue h' q X = Some v.
Proof. intros [_ L] Hq. destruct (L q X) as [E|[_ E]]; congruence. Qed.

Lemma Profile_setProperty_only_wrote h p X v h' :
  Profile_setProperty h p X v = Some h' -> only_wrote X v h h'.
Proof.
  intros Hs. destruct (Profile_setProperty_spec _ _ _ _ _ Hs) as (S&W&F).
  split; [done|]. intros q Y.
  destruct (decide (q = p)) as [->|]; [|left; apply F; auto].
  destruct (decide (Y = X)) as [->|]; [right; auto|left; apply F; auto].
Qed.


Lemma fanOut_None n X v ms : fanOut n X v None ms = None.
Proof. induction ms; simpl; auto. Qed.

Lemma setProperty_only_wrote fuel : forall h p X v h',
  setProperty fuel h p X v = Some h' -> only_wrote X v h h'.
Proof.
  induction fuel as [|n IH]; intros h p X v h' Hs; [done|].
  simpl in Hs. destruct (h !! p) as [o|] eqn:Hp; simplify_eq/=.
  destruct (_group o) as [ms|] eqn:Hg.
  - destruct (bool_decide (1 < length ms)%nat && negb (canInheritProperty X)).
    { simplify_eq. apply only_wrote_refl. }
    destruct (Profile_setProperty h p X v) as [h1|] eqn:H1; simplify_eq/=.
    apply Profile_setProperty_only_wrote in H1.
    revert h1 H1 Hs. clear Hg Hp. induction ms as [|m ms IHms]; intros h1 H1 Hs; simpl in Hs.
    + by simplify_eq.
    + destruct (setProperty n h1 m X v) as [h2|] eqn:H2.
      * eapply IHms; [|exact Hs]. eapply only_wrote_trans; [exact H1|]. by eapply IH.
      * fold (fanOut n X v None ms) in Hs. by rewrite fanOut_None in Hs.
  - by eapply Profile_setProperty_only_wrote.
Qed.

Lemma same_shape_chain_ok h h' : same_shape h h' -> forall fuel p, chain_ok fuel h' p = chain_ok fuel h p.
Proof.
  intros Hs fuel. induction fuel as [|n IH]; intros p; [done|]. simpl.
  destruct (h !! p) as [o|] eqn:Hp.
  - destruct (same_shape_lookup _ _ _ _ Hs Hp) as (o'&->&Hpar&_&_). rewrite <- Hpar.
    destruct (_parent o); auto.
  - by rewrite (same_shape_lookup_None _ _ _ Hs Hp).
Qed.

Lemma forallb_pointwise {A} (f g : A -> bool) l :
  (forall x, f x = g x) -> forallb f l = forallb g l.
Proof. intros E. induction l as [|a l IH]; simpl; [done|]. by rewrite E, IH. Qed.

Lemma same_shape_group_ok h h' : same_shape h h' -> forall fuel p, group_ok fuel h' p = group_ok fuel h p.
Proof.
  intros Hs fuel. induction fuel as [|n IH]; intros p; [done|]. simpl.
  destruct (h !! p) as [o|] eqn:Hp.
  - destruct (same_shape_lookup _ _ _ _ Hs Hp) as (o'&->&_&_&Hg). rewrite <- Hg.
    destruct (_group o) as [ms|]; auto.
    apply forallb_pointwise, IH.
  - by rewrite (same_shape_lookup_None _ _ _ Hs Hp).
Qed.

Lemma group_ok_lookup fuel h p : group_ok fuel h p = true -> is_Some (h !! p).
Proof. destruct fuel; [done|]. simpl. destruct (h !! p); eauto. done. Qed.

Lemma setProperty_returns fuel : forall h p X v,
  group_ok fuel h p = true -> is_Some (setProperty fuel h p X v).
Proof.
  induction fuel as [|n IH]; intros h p X v Hok; [done|].
  simpl in *. destruct (h !! p) as [o|] eqn:Hp; [|done]. simpl.
  destruct (_group o) as [ms|] eqn:Hg.
  - destruct (bool_decide (1 < length ms)%nat && negb (canInheritProperty X)); [eauto|].
    destruct (Profile_setProperty_is_Some h p X v) as [h1 H1]; [eauto|].
    rewrite H1. simpl.
    pose proof (Profile_setProperty_only_wrote _ _ _ _ _ H1) as Hw.
    assert (Hall : forallb (group_ok n h1) ms = true).
    { rewrite <- Hok. destruct Hw as [Hs _].
      apply forallb_pointwise. intros x. by apply same_shape_group_ok. }
    clear Hok Hg Hp H1 Hw. revert h1 Hall.
    induction ms as [|m ms IHms]; intros h1 Hall; simpl in *; [eauto|].
    apply andb_prop in Hall as [Hm Hms].
    destruct (IH h1 m X v Hm) as [h2 H2]. rewrite H2.
    apply IHms. rewrite <- Hms.
    apply setProperty_only_wrote in H2 as [Hs _].
    apply forallb_pointwise. intros x. by apply same_shape_group_ok.
  - apply Profile_setProperty_is_Some. eauto.
Qed.

(** After the call the object itself holds [v], unless the call was blocked. *)
Lemma fanOut_keeps n X v : forall ms h1 h' q,
  fanOut n X v (Some h1) ms = Some h' -> localValue h1 q X = Some v -> localValue h' q X = Some v.
Proof.
  induction ms as [|m ms IH]; intros h1 h' q Hf Hq; simpl in Hf; [by simplify_eq|].
  destruct (setProperty n h1 m X v) as [h2|] eqn:H2.
  - eapply IH; [exact Hf|]. eapply only_wrote_keeps; [|exact Hq]. by eapply setProperty_only_wrote.
  - fold (fanOut n X v None ms) in Hf. by rewrite fanOut_None in Hf.
Qed.

Lemma fanOut_same_shape n X v : forall ms h1 h',
  fanOut n X v (Some h1) ms = Some h' -> only_wrote X v h1 h'.
Proof.
  induction ms as [|m ms IH]; intros h1 h' Hf; simpl in Hf; [simplify_eq; apply only_wrote_refl|].
  destruct (setProperty n h1 m X v) as [h2|] eqn:H2.
  - eapply only_wrote_trans; [by eapply setProperty_only_wrote|]. by apply IH.
  - fold (fanOut n X v None ms) in Hf. by rewrite fanOut_None in Hf.
Qed.

Lemma setProperty_written fuel h p X v h' o :
  setProperty fuel h p X v = Some h' -> h !! p = Some o -> blocked o X = false ->
  localValue h' p X = Some v.
Proof.
  destruct fuel as [|n]; [done|]. simpl. intros Hs Hp Hb. rewrite Hp in Hs. simpl in Hs.
  unfold blocked in Hb. destruct (_group o) as [ms|].
  - rewrite Hb in Hs.
    destruct (Profile_setProperty h p X v) as [h1|] eqn:H1; simplify_eq/=.
    eapply (fanOut_keeps n X v ms); [exact Hs|].
    by apply Profile_setProperty_spec in H1 as (_&?&_).
  - by apply Profile_setProperty_spec in Hs as (_&?&_).
Qed.

(** Every member that is not itself blocked holds [v] after the fan-out. *)
Lemma fanOut_members n X v : forall ms h1 h' m o,
  fanOut n X v (Some h1) ms = Some h' -> m ∈ ms -> h1 !! m = Some o -> blocked o X = false ->
  localValue h' m X = Some v.
Proof.
  induction ms as [|m0 ms IH]; intros h1 h' m o Hf Hin Hm Hb; [by apply elem_of_nil in Hin|].
  simpl in Hf. destruct (setProperty n h1 m0 X v) as [h2|] eqn:H2.
  2:{ fold (fanOut n X v None ms) in Hf. by rewrite fanOut_None in Hf. }
  apply elem_of_cons in Hin as [->|Hin].
  - eapply (fanOut_keeps n X v ms); [exact Hf|]. by eapply setProperty_written.
  - pose proof (setProperty_only_wrote _ _ _ _ _ _ H2) as [Hs _].
    destruct (same_shape_lookup _ _ _ _ Hs Hm) as (o'&Hm'&_&_&Hg).
    eapply IH; [exact Hf|exact Hin|exact Hm'|]. unfold blocked in *. by rewrite <- Hg.
Qed.

Lemma localValue_lookup h p o X : h !! p = Some o -> localValue h p X = _propertyValues o !! X.
Proof. intros Hp. unfold localValue. by rewrite Hp. Qed.

Lemma property_frame h h' X :
  same_shape h h' -> (forall q, localValue h' q X = localValue h q X) ->
  forall fuel p, property fuel h' p X = property fuel h p X.
Proof.
  intros Hs Hl fuel. induction fuel as [|n IH]; intros p; [done|]. simpl.
  destruct (h !! p) as [o|] eqn:Hp.
  - destruct (same_shape_lookup _ _ _ _ Hs Hp) as (o'&Hp'&Hpar&_&_). rewrite Hp'.
    specialize (Hl p). rewrite (localValue_lookup _ _ _ _ Hp), (localValue_lookup _ _ _ _ Hp') in Hl.
    rewrite Hl, <- Hpar. destruct (_propertyValues o !! X); [done|].
    destruct (_parent o); [|done]. by rewrite IH.
  - by rewrite (same_shape_lookup_None _ _ _ Hs Hp).
Qed.

Lemma property_overwrite h h' X v :
  only_wrote X v h h' ->
  forall fuel p, property fuel h p X = Some v -> property fuel h' p X = Some v.
Proof.
  intros [Hs Hl] fuel. induction fuel as [|n IH]; intros p; [done|]. simpl.
  destruct (h !! p) as [o|] eqn:Hp; [|done].
  destruct (same_shape_lookup _ _ _ _ Hs Hp) as (o'&Hp'&Hpar&_&_). rewrite Hp'.
  specialize (Hl p X). rewrite (localValue_lookup _ _ _ _ Hp), (localValue_lookup _ _ _ _ Hp') in Hl.
  rewrite <- Hpar. destruct Hl as [->|[_ ->]]; [|done].
  destruct (_propertyValues o !! X); [done|].
  destruct (_parent o); [|done]. destruct (canInheritProperty X); [apply IH|done].
Qed.

Lemma only_wrote_other X v h h' Y :
  only_wrote X v h h' -> Y <> X -> forall fuel p, property fuel h' p Y = property fuel h p Y.
Proof.
  intros [Hs Hl] Hne. apply property_frame; [done|].
  intros q. destruct (Hl q Y) as [?|[? _]]; [done|congruence].
Qed.

Lemma chain_ok_property fuel : forall h p X, chain_ok fuel h p = true -> is_Some (property fuel h p X).
Proof.
  induction fuel as [|n IH]; intros h p X Hc; [done|]. simpl in *.
  destruct (h !! p) as [o|]; [|done].
  destruct (_propertyValues o !! X); [eauto|].
  destruct (_parent o); [|eauto]. destruct (canInheritProperty X); eauto.
Qed.

Lemma property_local fuel h p X v : localValue h p X = Some v -> property (S fuel) h p X = Some v.
Proof.
  unfold localValue. simpl. destruct (h !! p) as [o|]; [|done]. simpl. by intros ->.
Qed.

Lemma QVariant_eqb_refl `{Platform} a : QVariant_eqb a a = true.
Proof. unfold QVariant_eqb. by rewrite !bool_decide_eq_true_2. Qed.

Lemma QVariant_neqb_refl `{Platform} a : QVariant_neqb a a = false.
Proof. unfold QVariant_neqb. by rewrite QVariant_eqb_refl. Qed.

(** On two variants of one type [operator==] is equality of the values. *)
Lemma QVariant_eqb_same_type `{Platform} a b :
  typeOf a = typeOf b -> QVariant_eqb a b = bool_decide (a = b).
Proof. intros E. unfold QVariant_eqb. by rewrite bool_decide_eq_true_2. Qed.

Lemma canInheritProperty_true X : canInheritProperty X = true <-> X <> Name /\ X <> Path.
Proof.
  unfold canInheritProperty. rewrite andb_true_iff, !negb_true_iff, !bool_decide_eq_false. tauto.
Qed.

Lemma canInheritProperty_false X : canInheritProperty X = false <-> X = Name \/ X = Path.
Proof. destruct X; unfold canInheritProperty; simpl; split; intros; try done; try tauto; destruct H as [?|?]; done. Qed.

Lemma clone_entry_unfold `{Platform} fuel this profile differentOnly h info :
  clone_entry fuel this profile differentOnly (Some h) info =
  (otherValue ← property fuel h profile (info_property info);
   if canInheritProperty (info_property info) then
     if differentOnly then
       mine ← property fuel h this (info_property info);
       if QVariant_neqb mine otherValue
       then setProperty fuel h this (info_property info) otherValue
       else Some h
     else setProperty fuel h this (info_property info) otherValue
   else Some h).
Proof.
  unfold clone_entry. simpl. destruct (property fuel h profile (info_property info)); [|done].
  simpl. by destruct (info_property info).
Qed.

Lemma blocked_inheritable o X : canInheritProperty X = true -> blocked o X = false.
Proof. intros E. unfold blocked. destruct (_group o); [|done]. rewrite E. apply andb_false_r. Qed.

Section CloneProof.
Context `{Platform}.
Variables (fuel : nat) (this profile : Ptr).


Lemma clone_inv_shape h h' : same_shape h h' -> clone_inv fuel this profile h -> clone_inv fuel this profile h'.
Proof.
  intros Hs (?&?&?). unfold clone_inv.
  by rewrite !(same_shape_chain_ok _ _ Hs), (same_shape_group_ok _ _ Hs).
Qed.

Lemma clone_entry_spec h info :
  clone_inv fuel this profile h ->
  exists h', clone_entry fuel this profile true (Some h) info = Some h' /\
    same_shape h h' /\
    (forall q Y, Y <> info_property info -> localValue h' q Y = localValue h q Y) /\
    (forall q, localValue h' q Name = localValue h q Name /\ localValue h' q Path = localValue h q Path) /\
    (info_property info <> Name -> info_property info <> Path ->
       exists a b, property fuel h' this (info_property info) = Some a /\
                 property fuel h' profile (info_property info) = Some b /\
                 QVariant_eqb a b = true /\
                 (a = b \/ forall q, localValue h' q (info_property info)
                                     = localValue h q (info_property info))).
Proof.
  intros (Ct&Cp&Gt). rewrite clone_entry_unfold. set (X := info_property info).
  destruct (chain_ok_property _ _ _ X Cp) as [other Ho]. rewrite Ho. simpl.
  destruct (chain_ok_property _ _ _ X Ct) as [mine Hm].
  destruct (canInheritProperty X) eqn:HX.
  2:{ exists h. split; [done|]. split; [apply same_shape_refl|].
      split; [auto|]. split; [auto|]. intros HnN HnP.
      apply canInheritProperty_false in HX. tauto. }
  pose proof HX as HX'. apply canInheritProperty_true in HX' as [HnN HnP].
  rewrite Hm. simpl.
  destruct (QVariant_neqb mine other) eqn:Hne.
  - destruct (setProperty_returns fuel h this X other Gt) as [h' Hs].
    exists h'. split; [done|].
    pose proof (setProperty_only_wrote _ _ _ _ _ _ Hs) as Hw.
    split; [apply Hw|]. split.
    { intros q Y HY. destruct Hw as [_ Hl]. destruct (Hl q Y) as [?|[? _]]; [done|congruence]. }
    split.
    { intros q. destruct Hw as [_ Hl]. split.
      - destruct (Hl q Name) as [?|[? _]]; [done|congruence].
      - destruct (Hl q Path) as [?|[? _]]; [done|congruence]. }
    intros _ _. exists other, other. split; [|split; [by eapply property_overwrite|]].
    + destruct (group_ok_lookup _ _ _ Gt) as [o Hp].
      pose proof (setProperty_written _ _ _ _ _ _ _ Hs Hp (blocked_inheritable o X HX)) as Hl.
      destruct fuel as [|n]; [done|]. by apply property_local.
    + split; [apply QVariant_eqb_refl|by left].
  - exists h. split; [done|]. split; [apply same_shape_refl|].
    split; [auto|]. split; [auto|]. intros _ _. exists mine, other.
    split; [done|]. split; [done|]. split; [|by right].
    unfold QVariant_neqb in Hne. by apply negb_false_iff in Hne.
Qed.


End CloneProof.

Lemma tableProperties_complete X : X ∈ tableProperties.
Proof. apply list_elem_of_In. destruct X; vm_compute; tauto. Qed.



(** The comparison at work: the receiver holds the history size as the text
    "1000" (as [ProfileCommandParser] stores it), the source as the number
    1000 (as the fallback profile does).  The number converts to the same
    text, so [clone] writes nothing and the receiver keeps its text. *)
Lemma clone_differentOnly_keeps_text :
  let h := [ exampleFallback
           ; plainProfile [ (Name, VString "T"); (HistorySize, VString "1000") ] ] in
  property 2 h 0%nat HistorySize = Some (VInt 1000)
  /\ (h' ← clone (H:=examplePlatform) 2 h 1%nat 0%nat true;
      property 2 h' 1%nat HistorySize) = Some (VString "1000").
Proof. split; by vm_compute. Qed.

(** ** Property resolution *)

(** C1. [property] returns the locally stored value when there is one;
    otherwise, with a parent and an inheritable property, the parent's
    resolved value; otherwise the null variant.  For [Name] and [Path] the
    result is a function of the object's own values only, and so is
    [isPropertySet] for every property. *)
Theorem property_resolution (fuel : nat) (h : Heap) (P : Ptr) (o : ProfileObj)
  (X : Property) :
  h !! P = Some o ->
  (forall v, _propertyValues o !! X = Some v ->
     property (S fuel) h P X = Some v) /\
  (forall Q, _propertyValues o !! X = None -> _parent o = Some Q ->
     X <> Name -> X <> Path ->
     property (S fuel) h P X = property fuel h Q X) /\
  (_propertyValues o !! X = None ->
     _parent o = None \/ X = Name \/ X = Path ->
     property (S fuel) h P X = Some VInvalid) /\
  (X = Name \/ X = Path ->
     forall h' o', h' !! P = Some o' ->
       _propertyValues o' = _propertyValues o ->
       property (S fuel) h' P X = property 1 h P X) /\
  (isPropertySet o X = true <-> exists v, _propertyValues o !! X = Some v) /\
  (forall o', _propertyValues o' = _propertyValues o ->
     isPropertySet o' X = isPropertySet o X).
Proof.
  intros HP. repeat split.
  - intros v Hv. simpl. by rewrite HP, Hv.
  - intros Q Hn Hq HnN HnP. simpl. rewrite HP, Hn, Hq.
    by rewrite (proj2 (canInheritProperty_true X)).
  - intros Hn Hc. simpl. rewrite HP, Hn. destruct (_parent o); [|done].
    destruct Hc as [?|Hc]; [done|]. by rewrite (proj2 (canInheritProperty_false X)).
  - intros HX h' o' HP' Hv. simpl. rewrite HP, HP', Hv.
    destruct (_propertyValues o !! X); [done|].
    rewrite (proj2 (canInheritProperty_false X)) by done.
    by destruct (_parent o), (_parent o').
  - unfold isPropertySet. intros Hs. apply bool_decide_eq_true in Hs. by destruct Hs as [v Hv]; exists v.
  - intros [v Hv]. unfold isPropertySet. apply bool_decide_eq_true. eauto.
  - intros o' Hv. unfold isPropertySet. by rewrite Hv.
Qed.

Lemma property_resolution_witness :
  resolution_heap !! 1%nat = Some (mkProfile {[ Directory := VString "/tmp" ]} (Some 0%nat) false None)
  /\ property 2 resolution_heap 1%nat Icon = property 1 resolution_heap 0%nat Icon.
Proof.
  split; [reflexivity|].
  apply (property_resolution 1 resolution_heap 1%nat _ Icon eq_refl); [reflexivity|reflexivity|discriminate|discriminate].
Defined.

(** ** ProfileGroup::setProperty *)

(** C8. On a group of more than one member, [setProperty] for [Name] or
    [Path] leaves the whole store as it was: neither the group nor a member
    is written.  For every other property it returns a store in which the
    group and every member hold the value locally, and nothing but that
    property was written.  On a group of exactly one member no property is
    refused: the group holds the value, and so does the member (unless the
    member is itself a group that refuses the property). *)
Theorem ProfileGroup_setProperty_spec (n : nat) (h : Heap) (g : Ptr)
  (o : ProfileObj) (ms : list Ptr) (X : Property) (v : QVariant) :
  h !! g = Some o -> _group o = Some ms ->
  forallb (group_ok n h) ms = true ->
  ((1 < length ms)%nat -> X = Name \/ X = Path ->
     setProperty (S n) h g X v = Some h) /\
  ((1 < length ms)%nat -> X <> Name -> X <> Path ->
     exists h', setProperty (S n) h g X v = Some h' /\
       only_wrote X v h h' /\
       localValue h' g X = Some v /\
       forall m, m ∈ ms -> localValue h' m X = Some v) /\
  (forall m, ms = [m] ->
     exists h', setProperty (S n) h g X v = Some h' /\
       only_wrote X v h h' /\
       localValue h' g X = Some v /\
       forall om, h !! m = Some om -> blocked om X = false ->
                  localValue h' m X = Some v).
Proof.
  intros Hg Hms Hok.
  assert (Gok : group_ok (S n) h g = true) by (simpl; by rewrite Hg, Hms).
  destruct (setProperty_returns (S n) h g X v Gok) as [h' Hs].
  pose proof (setProperty_only_wrote _ _ _ _ _ _ Hs) as Hw.
  split; [|split].
  - intros Hlen HX. simpl. rewrite Hg. simpl. rewrite Hms.
    rewrite bool_decide_eq_true_2 by done.
    by rewrite (proj2 (canInheritProperty_false X)).
  - intros Hlen HnN HnP. exists h'. split; [done|]. split; [done|].
    assert (HX : canInheritProperty X = true) by (by apply canInheritProperty_true).
    split; [by eapply setProperty_written, blocked_inheritable|].
    intros m Hm. simpl in Hs. rewrite Hg in Hs. simpl in Hs. rewrite Hms in Hs.
    rewrite HX, andb_false_r in Hs.
    destruct (Profile_setProperty h g X v) as [h1|] eqn:H1; [|done]. simpl in Hs.
    assert (is_Some (h !! m)) as [om Hom].
    { rewrite forallb_forall in Hok. apply (group_ok_lookup n). apply Hok. by apply list_elem_of_In. }
    apply Profile_setProperty_only_wrote in H1 as [Hs1 _].
    destruct (same_shape_lookup _ _ _ _ Hs1 Hom) as (om'&Hom'&_).
    eapply (fanOut_members n X v ms); [exact Hs|exact Hm|exact Hom'|].
    by apply blocked_inheritable.
  - intros m ->. exists h'. split; [done|]. split; [done|].
    assert (Hb : blocked o X = false).
    { unfold blocked. rewrite Hms. reflexivity. }
    split; [by eapply setProperty_written|].
    intros om Hom Hbm. simpl in Hs. rewrite Hg in Hs. simpl in Hs. rewrite Hms in Hs.
    change (bool_decide (1 < length [m])%nat) with false in Hs. simpl in Hs.
    destruct (Profile_setProperty h g X v) as [h1|] eqn:H1; [|done]. simpl in Hs.
    apply Profile_setProperty_only_wrote in H1 as [Hs1 _].
    destruct (same_shape_lookup _ _ _ _ Hs1 Hom) as (om'&Hom'&_&_&Hgm).
    destruct (setProperty n h1 m X v) as [h2|] eqn:H2; [|done]. simplify_eq.
    eapply setProperty_written; [exact H2|exact Hom'|].
    unfold blocked in *. by rewrite <- Hgm.
Qed.


(** ** ProfileCommandParser::parse *)

(** C2 (the code departs from the claim).  On the claim's own input the
    parser returns three entries: the segment with the unknown name
    [BadKey] is stored under [Path], the enumerator of value 0, because
    [lookupByName] answers an unregistered name from a value-initialised
    table entry. *)
Theorem parse_unknown_name_writes_Path :
  lookupByName "BadKey" = Path
  /\ parse "Icon=term;BadKey=x;Directory=/tmp"
     = {[ Icon := VString "term"; Path := VString "x";
          Directory := VString "/tmp" ]}
  /\ parse "Icon=term;BadKey=x;Directory=/tmp"
     <> {[ Icon := VString "term"; Directory := VString "/tmp" ]}.
Proof.
  split; [reflexivity|]. split; [by vm_compute|].
  intros E. apply (f_equal (fun m => m !! Path)) in E. vm_compute in E. discriminate.
Qed.

(** ** ProfileGroup::updateValues *)

(** C4 (the code departs from the claim).  The first member resolves
    [Directory] to the null variant and the second to "/tmp"; the scan
    does not keep the first member's value as the candidate but adopts the
    second one, and the group stores "/tmp" although the members differ. *)
Theorem updateValues_adopts_later_value `{Platform} :
  property 2 group_heap 1%nat Directory = Some VInvalid
  /\ property 2 group_heap 2%nat Directory = Some (VString "/tmp")
  /\ (h ← updateValues 2 group_heap 3%nat; localValue h 3%nat Directory)
     = Some (VString "/tmp").
Proof. repeat split; by vm_compute. Qed.

(** The example of the claim itself behaves as the claim says: for
    M1(A=1,B=2) and M2(A=1,B=3) the group resolves A to 1 and B to the
    null variant, and stores neither [Name] nor [Path]. *)
Lemma updateValues_example_AB `{Platform} :
  (h ← updateValues 2 group_heap_AB 3%nat;
   Some (property 2 h 3%nat HistoryMode, property 2 h 3%nat HistorySize,
         localValue h 3%nat Name, localValue h 3%nat Path))
  = Some (Some (VInt 1), Some VInvalid, None, None).
Proof. by vm_compute. Qed.

(** ** SessionManager::sortProfiles *)

(** C5 (the code departs from the claim).  P and Q both carry menu index
    1 and are given in the order P, Q.  [profileIndexLessThan] answers
    [<=], so the merge step of [qStableSort] swaps the two: the output is
    Q (renumbered 1), then P (renumbered 2). *)
Theorem sortProfiles_reverses_ties `{Platform} :
  (r ← sortProfiles 2 ties_manager [1; 2]%nat;
   Some (r.1, localValue (heap r.2) 1%nat MenuIndex,
              localValue (heap r.2) 2%nat MenuIndex))
  = Some ([2; 1]%nat, Some (VString "2"), Some (VString "1")).
Proof. by vm_compute. Qed.

(** The example of the claim has no ties and sorts as the claim says:
    Mid (1), Abc (2), Zeta (3). *)
Lemma sortProfiles_example `{Platform} :
  (r ← sortProfiles 2 menu_manager [1; 2; 3]%nat;
   Some (r.1, localValue (heap r.2) 3%nat MenuIndex,
              localValue (heap r.2) 2%nat MenuIndex,
              localValue (heap r.2) 1%nat MenuIndex))
  = Some ([3; 2; 1]%nat, Some (VString "1"), Some (VString "2"),
          Some (VString "3")).
Proof. by vm_compute. Qed.

(** ** SessionManager::deleteProfile *)

(** C10. When the profile's file exists and [QFile::remove] fails,
    [deleteProfile] returns [false] and the manager is exactly as before:
    loaded profiles, favourites, shortcuts, default profile, the profile's
    hidden flag, the disk, and no signal is sent. *)
Theorem deleteProfile_failure_is_atomic `{Platform} (fuel : nat)
  (m : SessionManager) (type : Ptr) (o : ProfileObj) (p : QVariant) :
  heap m !! type = Some o ->
  _propertyValues o !! Path = Some p ->
  QFile_exists (disk m) (toQString p) = true ->
  (QFile_remove (disk m) (toQString p)).1 = false ->
  deleteProfile (S fuel) m (Some type) = Some (false, m).
Proof.
  intros Ho Hp Hex Hrm. unfold deleteProfile.
  rewrite Ho. cbn [mbind option_bind].
  unfold Profile_path, propertyString.
  rewrite (property_local fuel (heap m) type Path p) by (by rewrite (localValue_lookup _ _ o)).
  cbn [fmap option_fmap option_map mbind option_bind].
  unfold isPropertySet. rewrite Hp, Hex.
  rewrite (bool_decide_eq_true_2 (is_Some (Some p))) by (by eexists). cbn [andb].
  destruct (QFile_remove (disk m) (toQString p)) as [removed d]. simpl in Hrm. subst removed.
  reflexivity.
Qed.

Lemma deleteProfile_failure_is_atomic_witness :
  QFile_exists (disk locked_manager) "/ro/Work.profile" = true
  /\ (QFile_remove (disk locked_manager) "/ro/Work.profile").1 = false
  /\ deleteProfile (H:=examplePlatform) 1 locked_manager (Some 1%nat)
     = Some (false, locked_manager).
Proof.
  split; [by vm_compute|]. split; [by vm_compute|].
  apply (deleteProfile_failure_is_atomic (H:=examplePlatform) 0 locked_manager 1%nat
           (plainProfile [ (Name, VString "Work"); (Path, VString "/ro/Work.profile") ])
           (VString "/ro/Work.profile")); by vm_compute.
Defined.

Lemma ProfileGroup_setProperty_spec_witness :
  group_heap !! 3%nat = Some (mkProfile ∅ None true (Some [1; 2]%nat))
  /\ forallb (group_ok 1 group_heap) [1; 2]%nat = true
  /\ setProperty 2 group_heap 3%nat Name (VString "Both") = Some group_heap
  /\ exists h', setProperty 2 group_heap 3%nat Icon (VString "x") = Some h' /\
       only_wrote Icon (VString "x") group_heap h' /\
       localValue h' 3%nat Icon = Some (VString "x") /\
       forall m, m ∈ [1; 2]%nat -> localValue h' m Icon = Some (VString "x").
Proof.
  split; [reflexivity|]. split; [reflexivity|].
  destruct (ProfileGroup_setProperty_spec 1 group_heap 3%nat
              (mkProfile ∅ None true (Some [1; 2]%nat)) [1; 2]%nat)
    with (X := Name) (v := VString "Both") as (H1 & _ & _);
    [reflexivity | reflexivity | reflexivity |].
  destruct (ProfileGroup_setProperty_spec 1 group_heap 3%nat
              (mkProfile ∅ None true (Some [1; 2]%nat)) [1; 2]%nat)
    with (X := Icon) (v := VString "x") as (_ & H2 & _);
    [reflexivity | reflexivity | reflexivity |].
  split.
  - apply H1; [simpl; lia | by left].
  - apply H2; [simpl; lia | discriminate | discriminate].
Defined.


(** ** SessionManager::loadProfile *)


Lemma setProperty_plain n h p o X v :
  h !! p = Some o -> _group o = None ->
  setProperty (S n) h p X v
  = Some (<[p := with_values o (<[X := v]> (_propertyValues o))]> h).
Proof.
  intros Hp Hg. simpl. rewrite Hp. simpl. rewrite Hg.
  unfold Profile_setProperty. by rewrite Hp.
Qed.

Section LoadProofs.
Context `{Platform}.

Lemma readProperties_plain n config p l : forall h o,
  h !! p = Some o -> _group o = None ->
  readProperties (S n) h config p l
  = Some (<[p := with_values o (readValues config l (_propertyValues o))]> h).
Proof.
  unfold readProperties, readValues.
  induction l as [|info l IH]; intros h o Hp Hg; cbn [foldl].
  - f_equal. symmetry. apply list_insert_id. rewrite Hp. by destruct o.
  - assert (Hlt : (p < length h)%nat) by (by eapply lookup_lt_Some).
    unfold readProperties_entry at 2. unfold readValues_entry at 2. cbn [mbind option_bind].
    destruct (info_group info) as [g|]; [|by apply IH].
    destruct (info_name info) as [k|]; [|by apply IH].
    destruct (hasKey config g k); [|by apply IH].
    rewrite (setProperty_plain n h p o) by done.
    rewrite (IH _ (with_values o (<[info_property info :=
                entryValue (info_type info) (readEntryString config g k)]> (_propertyValues o)))).
    + f_equal. by rewrite list_insert_insert_eq.
    + by rewrite list_lookup_insert_eq.
    + done.
Qed.

Lemma readProfile_plain n h d path p o config :
  h !! p = Some o -> _group o = None ->
  fs_files d !! path = Some config ->
  readProfile (S n) h d path p
  = Some (true, parentProfileOf config,
          <[p := with_values o (readProfile_values config (_propertyValues o))]> h).
Proof.
  intros Hp Hg Hf. unfold readProfile. rewrite Hf.
  assert (Hlt : (p < length h)%nat) by (by eapply lookup_lt_Some).
  unfold readProfile_values, parentProfileOf.
  destruct (hasKey config GENERAL_GROUP "Command").
  - rewrite (setProperty_plain n h p o) by done. cbn [mbind option_bind].
    erewrite setProperty_plain; [|by rewrite list_lookup_insert_eq|done].
    cbn [mbind option_bind]. rewrite list_insert_insert_eq.
    erewrite readProperties_plain; [|by rewrite list_lookup_insert_eq|done].
    cbn [mbind option_bind]. by rewrite list_insert_insert_eq.
  - cbn [mbind option_bind]. erewrite readProperties_plain; [|done|done].
    done.
Qed.

Lemma readProfile_missing n h d path p :
  fs_files d !! path = None -> readProfile n h d path p = Some (false, "", h).
Proof. intros Hf. unfold readProfile. by rewrite Hf. Qed.

Lemma Profile_path_valid n h p o :
  h !! p = Some o ->
  Profile_path (S n) h p
  = Some (toQString (default VInvalid (_propertyValues o !! Path))).
Proof.
  intros Hp. unfold Profile_path, propertyString. simpl. rewrite Hp.
  destruct (_propertyValues o !! Path); [done|]. by destruct (_parent o).
Qed.

Lemma Profile_path_is_Some n h p s : Profile_path n h p = Some s -> is_Some (h !! p).
Proof.
  unfold Profile_path, propertyString. destruct n; [done|]. simpl.
  destruct (h !! p); [eauto|done].
Qed.

Lemma Profile_path_ext n n' h ext p s :
  Profile_path (S n) h p = Some s -> Profile_path (S n') (h ++ ext) p = Some s.
Proof.
  intros Hs. destruct (Profile_path_is_Some _ _ _ _ Hs) as [o Ho].
  rewrite (Profile_path_valid _ _ _ o) in Hs by done.
  rewrite (Profile_path_valid _ _ _ o); [done|].
  by apply lookup_app_l_Some.
Qed.

Lemma findLoaded_ext n n' h ext path l :
  findLoaded (S n) h path l = Some None ->
  findLoaded (S n') (h ++ ext) path l = Some None.
Proof.
  induction l as [|p l IH]; [done|]. cbn [findLoaded].
  destruct (Profile_path (S n) h p) as [s|] eqn:Hs; [|done].
  rewrite (Profile_path_ext _ n' _ ext _ _ Hs). cbn [mbind option_bind].
  destruct (bool_decide (s = path)); [done|]. exact IH.
Qed.

Lemma PopStackOnExit_same m :
  PopStackOnExit (length (recursionGuard m)) m = m.
Proof. unfold PopStackOnExit. rewrite firstn_all. by destruct m. Qed.

(** The call that finds its path on the guard stack. *)
Lemma loadProfile_detects n m shortPath fallbackPath :
  Profile_path (S n) (heap m) (_fallbackProfile m) = Some fallbackPath ->
  shortPath <> fallbackPath ->
  QFileInfo_isDir (disk m) shortPath = false ->
  findLoaded (S n) (heap m) (resolvePath shortPath) (_profiles m) = Some None ->
  resolvePath shortPath ∈ recursionGuard m ->
  loadProfile (S n) m shortPath = Some (Some (_fallbackProfile m), m).
Proof.
  intros Hfb Hne Hdir Hfind Hin. cbn [loadProfile].
  rewrite Hfb. cbn [mbind option_bind].
  rewrite bool_decide_eq_false_2 by done. rewrite Hdir, Hfind. cbn [mbind option_bind].
  rewrite bool_decide_eq_true_2 by done. by rewrite PopStackOnExit_same.
Qed.

(** One call that reads a file, up to its recursive call. *)
Lemma loadProfile_step n m shortPath fallbackPath config :
  Profile_path (S n) (heap m) (_fallbackProfile m) = Some fallbackPath ->
  shortPath <> fallbackPath ->
  QFileInfo_isDir (disk m) shortPath = false ->
  findLoaded (S n) (heap m) (resolvePath shortPath) (_profiles m) = Some None ->
  resolvePath shortPath ∉ recursionGuard m ->
  endsWith (resolvePath shortPath) ".desktop" = false ->
  fs_files (disk m) !! resolvePath shortPath = Some config ->
  let path := resolvePath shortPath in
  let newProfile := length (heap m) in
  let m2 := with_heap (with_recursionGuard m (recursionGuard m ++ [path]))
              (heap m ++ [loadedProfile (_fallbackProfile m) path config]) in
  loadProfile (S n) m shortPath =
    (m3 ← (if negb (isEmptyString (parentProfileOf config)) then
             '(parentProfile, m') ← loadProfile n m2 (parentProfileOf config);
             h' ← setParent (heap m') newProfile parentProfile;
             Some (with_heap m' h')
           else Some m2);
     Some (Some newProfile,
           addProfile (PopStackOnExit (length (recursionGuard m)) m3) newProfile)).
Proof.
  intros Hfb Hne Hdir Hfind Hin Hdesk Hfile. cbv zeta.
  set (path := resolvePath shortPath) in *. set (newProfile := length (heap m)).
  set (m2 := with_heap _ _). cbn [loadProfile]. fold path.
  rewrite Hfb. cbn [mbind option_bind].
  rewrite bool_decide_eq_false_2 by done. rewrite Hdir, Hfind. cbn [mbind option_bind].
  rewrite bool_decide_eq_false_2 by done. cbn [recursionGuard with_recursionGuard].
  rewrite Hdesk. unfold alloc. cbn [heap with_recursionGuard _fallbackProfile disk].
  fold newProfile.
  assert (Hnew : (heap m ++ [new_Profile (Some (_fallbackProfile m))]) !! newProfile
                 = Some (new_Profile (Some (_fallbackProfile m)))).
  { unfold newProfile. by rewrite list_lookup_middle. }
  rewrite (setProperty_plain n _ _ _ Path (VString path) Hnew eq_refl).
  cbn [mbind option_bind].
  erewrite (readProfile_plain n _ _ path newProfile); cycle 1.
  { rewrite list_lookup_insert_eq; [done|]. rewrite length_app. simpl. unfold newProfile. lia. }
  { done. }
  { exact Hfile. }
  cbn [mbind option_bind]. rewrite list_insert_insert_eq.
  assert (Hheap : <[newProfile := with_values
                     (with_values (new_Profile (Some (_fallbackProfile m)))
                        (<[Path:=VString path]> (_propertyValues (new_Profile (Some (_fallbackProfile m))))))
                     (readProfile_values config
                        (_propertyValues (with_values (new_Profile (Some (_fallbackProfile m)))
                           (<[Path:=VString path]> (_propertyValues (new_Profile (Some (_fallbackProfile m))))))))]>
                  (heap m ++ [new_Profile (Some (_fallbackProfile m))])
                = heap m ++ [loadedProfile (_fallbackProfile m) path config]).
  { unfold newProfile. rewrite insert_app_r_alt by lia. rewrite Nat.sub_diag. simpl.
    f_equal. }
  rewrite Hheap. fold m2.
  destruct (negb (isEmptyString (parentProfileOf config))); cbn [mbind option_bind negb].
  - destruct (loadProfile n m2 (parentProfileOf config)) as [[pp m']|]; [|done].
    cbn [mbind option_bind]. destruct (setParent (heap m') newProfile pp); done.
  - done.
Qed.

End LoadProofs.

Lemma addProfile_heap m p : heap (addProfile m p) = heap m.
Proof. unfold addProfile. by destruct (_profiles m). Qed.
Lemma addProfile_recursionGuard m p : recursionGuard (addProfile m p) = recursionGuard m.
Proof. unfold addProfile. by destruct (_profiles m). Qed.
Lemma addProfile_fallbackProfile m p : _fallbackProfile (addProfile m p) = _fallbackProfile m.
Proof. unfold addProfile. by destruct (_profiles m). Qed.
Lemma addProfile_disk m p : disk (addProfile m p) = disk m.
Proof. unfold addProfile. by destruct (_profiles m). Qed.
Lemma addProfile_profiles m p : _profiles (addProfile m p) = QSet_insert (_profiles m) p.
Proof. unfold addProfile. destruct (_profiles m) eqn:E; simpl; by rewrite ?E. Qed.

Lemma QSet_insert_elem l p : p ∈ QSet_insert l p.
Proof.
  unfold QSet_insert. destruct (bool_decide (p ∈ l)) eqn:E.
  - by apply bool_decide_eq_true in E.
  - apply elem_of_app. right. by apply list_elem_of_singleton.
Qed.
Lemma QSet_insert_mono l p q : q ∈ l -> q ∈ QSet_insert l p.
Proof.
  unfold QSet_insert. intros Hq. destruct (bool_decide (p ∈ l)); [done|].
  apply elem_of_app. by left.
Qed.

Lemma with_parent_values o q : _propertyValues (with_parent o q) = _propertyValues o.
Proof. reflexivity. Qed.

Section Cycle.
Context `{Platform}.

Lemma readValues_other config X : forall l vals,
  Forall (fun info => info_group info <> None -> info_property info <> X) l ->
  readValues config l vals !! X = vals !! X.
Proof.
  unfold readValues.
  induction l as [|info l IH]; intros vals Hall; [done|]. cbn [foldl].
  apply Forall_cons in Hall as [Hi Hl]. rewrite IH by done.
  unfold readValues_entry. destruct (info_group info) as [g|]; [|done].
  destruct (info_name info); [|done]. destruct (hasKey config g _); [|done].
  apply lookup_insert_ne. by apply Hi.
Qed.

Lemma table_never_reads_Path :
  Forall (fun info => info_group info <> None -> info_property info <> Path)
         DefaultPropertyNames.
Proof.
  unfold DefaultPropertyNames.
  repeat (apply Forall_cons; split;
          [first [intros _; discriminate | intros Hc; by destruct Hc]|]).
  by apply Forall_nil.
Qed.

Lemma loadedProfile_Path fallback path config :
  _propertyValues (loadedProfile fallback path config) !! Path = Some (VString path).
Proof.
  unfold loadedProfile, readProfile_values. cbn [_propertyValues with_values].
  rewrite readValues_other by apply table_never_reads_Path.
  destruct (hasKey config GENERAL_GROUP "Command").
  - rewrite !lookup_insert_ne by done. apply lookup_singleton_eq.
  - apply lookup_singleton_eq.
Qed.

Lemma loadedProfile_parent fallback path config :
  _parent (loadedProfile fallback path config) = Some fallback.
Proof. reflexivity. Qed.

Lemma parentProfileOf_key config parent :
  config !! (GENERAL_GROUP, "Parent") = Some parent -> parentProfileOf config = parent.
Proof.
  intros Hk. unfold parentProfileOf, hasKey, readEntryString. rewrite Hk.
  by rewrite bool_decide_eq_true_2 by (by eexists).
Qed.

Lemma isEmptyString_false s : s <> "" -> isEmptyString s = false.
Proof. by destruct s. Qed.

Lemma Profile_path_fuel n n' h p s :
  Profile_path (S n) h p = Some s -> Profile_path (S n') h p = Some s.
Proof. intros Hs. rewrite <- (app_nil_r h). by eapply Profile_path_ext. Qed.

Lemma findLoaded_fuel n n' h path l :
  findLoaded (S n) h path l = Some None -> findLoaded (S n') h path l = Some None.
Proof. intros Hs. rewrite <- (app_nil_r h). by eapply findLoaded_ext. Qed.

(** [loadProfile_step] with the new object named. *)
Lemma loadProfile_step_obj n m shortPath fallbackPath config obj :
  Profile_path (S n) (heap m) (_fallbackProfile m) = Some fallbackPath ->
  shortPath <> fallbackPath ->
  QFileInfo_isDir (disk m) shortPath = false ->
  findLoaded (S n) (heap m) (resolvePath shortPath) (_profiles m) = Some None ->
  resolvePath shortPath ∉ recursionGuard m ->
  endsWith (resolvePath shortPath) ".desktop" = false ->
  fs_files (disk m) !! resolvePath shortPath = Some config ->
  parentProfileOf config <> "" ->
  obj = loadedProfile (_fallbackProfile m) (resolvePath shortPath) config ->
  loadProfile (S n) m shortPath =
    ('(parentProfile, m') ←
        loadProfile n
          (with_heap (with_recursionGuard m (recursionGuard m ++ [resolvePath shortPath]))
                     (heap m ++ [obj]))
          (parentProfileOf config);
     h' ← setParent (heap m') (length (heap m)) parentProfile;
     Some (Some (length (heap m)),
           addProfile (PopStackOnExit (length (recursionGuard m)) (with_heap m' h'))
                      (length (heap m)))).
Proof.
  intros Hfb Hne Hdir Hfind Hin Hdesk Hfile Hpar ->.
  rewrite (loadProfile_step n m shortPath fallbackPath config) by done.
  rewrite (isEmptyString_false _ Hpar). cbn [negb].
  destruct (loadProfile n _ _) as [[pp m']|]; [|done]. cbn [mbind option_bind].
  by destruct (setParent (heap m') (length (heap m)) pp).
Qed.

Lemma chainObjects_length fallback files : forall base,
  length (chainObjects fallback base files) = length files.
Proof.
  induction files as [|[name config] rest IH]; intros base; [done|].
  cbn [chainObjects length]. by rewrite IH.
Qed.

Lemma chainObjects_lookup fallback files : forall base i name config,
  files !! i = Some (name, config) ->
  chainObjects fallback base files !! i
  = Some (with_parent (loadedProfile fallback (resolvePath name) config)
            (Some (if bool_decide (S i < length files)%nat
                   then (base + i + 1)%nat else fallback))).
Proof.
  induction files as [|[name0 config0] rest IH]; intros base i name config Hi; [done|].
  destruct i as [|i].
  - injection Hi as -> ->. cbn [chainObjects lookup list_lookup length].
    destruct rest as [|f rest].
    + rewrite bool_decide_eq_false_2 by (cbn; lia). done.
    + rewrite bool_decide_eq_true_2 by (cbn; lia). do 3 f_equal. lia.
  - cbn [lookup list_lookup] in Hi.
    etransitivity; [exact (IH (S base) i name config Hi)|]. cbn [length].
    destruct (decide (S i < length rest)%nat).
    + rewrite !bool_decide_eq_true_2 by lia. do 3 f_equal. lia.
    + rewrite !bool_decide_eq_false_2 by lia. done.
Qed.

Lemma loadable_ext m m' fallbackPath file ext :
  disk m' = disk m -> heap m' = heap m ++ ext -> _profiles m' = _profiles m ->
  loadable m fallbackPath file -> loadable m' fallbackPath file.
Proof.
  intros Hd Hh Hp (H1 & H2 & H3 & H4 & H5). unfold loadable.
  rewrite Hd, Hh, Hp. repeat split; try done. by apply (findLoaded_ext 0).
Qed.

(** The calls for a chain whose last file names a path that is on the
    guard stack or belongs to the chain. *)
Lemma loadProfile_chain fallbackPath closing : forall files n m name config rest,
  files = (name, config) :: rest ->
  Profile_path 1 (heap m) (_fallbackProfile m) = Some fallbackPath ->
  Forall (loadable m fallbackPath) files ->
  NoDup (map (fun f => resolvePath f.1) files) ->
  (forall f, f ∈ files -> resolvePath f.1 ∉ recursionGuard m) ->
  chained files closing ->
  closing <> fallbackPath -> QFileInfo_isDir (disk m) closing = false ->
  findLoaded 1 (heap m) (resolvePath closing) (_profiles m) = Some None ->
  resolvePath closing ∈ recursionGuard m ++ map (fun f => resolvePath f.1) files ->
  exists m',
    loadProfile (S (length files + n)) m name = Some (Some (length (heap m)), m')
    /\ heap m' = heap m ++ chainObjects (_fallbackProfile m) (length (heap m)) files
    /\ recursionGuard m' = recursionGuard m
    /\ _fallbackProfile m' = _fallbackProfile m
    /\ disk m' = disk m
    /\ (forall q, q ∈ _profiles m' <->
          q ∈ _profiles m
          \/ (length (heap m) <= q < length (heap m) + length files)%nat).
Proof.
  induction files as [|f0 files IH]; intros n m name config rest E; [done|].
  injection E as -> ->.
  intros Hfb Hload Hnd Hguard Hch Hcf Hcd Hcl Hcin.
  apply Forall_cons in Hload as [(L1 & L2 & L3 & L4 & L5) Hload]. cbn [fst snd] in *.
  cbn [chained] in Hch. destruct Hch as (Hkey & Hnext & Hch).
  apply parentProfileOf_key in Hkey.
  cbn [map fst] in Hnd. apply NoDup_cons in Hnd as [Hfresh Hnd].
  set (path := resolvePath name) in *.
  set (obj := loadedProfile (_fallbackProfile m) path config).
  set (m2 := with_heap (with_recursionGuard m (recursionGuard m ++ [path]))
                       (heap m ++ [obj])).
  assert (Hstep := loadProfile_step_obj (S (length rest + n)) m name fallbackPath config obj).
  rewrite Hkey in Hstep. fold path m2 in Hstep.
  cbn [length]. rewrite Nat.add_succ_l.
  rewrite Hstep; clear Hstep; cycle 1.
  { by eapply (Profile_path_fuel 0). }
  { done. }
  { done. }
  { by eapply (findLoaded_fuel 0). }
  { apply (Hguard (name, config)). by left. }
  { done. }
  { done. }
  { done. }
  { done. }
  assert (Hfb2 : Profile_path 1 (heap m2) (_fallbackProfile m2) = Some fallbackPath).
  { unfold m2; cbn [heap with_heap _fallbackProfile with_recursionGuard].
    by eapply (Profile_path_ext 0). }
  assert (Hlen2 : length (heap m2) = S (length (heap m))).
  { unfold m2; cbn [heap with_heap]. rewrite length_app. cbn. lia. }
  destruct rest as [|[name' config'] rest'].
  - (* the last file: the call for its parent finds the path on the stack *)
    cbn [length Nat.add].
    rewrite (loadProfile_detects n m2 closing fallbackPath); cycle 1.
    { by eapply (Profile_path_fuel 0). }
    { done. }
    { done. }
    { unfold m2; cbn [heap with_heap _profiles with_recursionGuard].
      eapply (findLoaded_ext 0). exact Hcl. }
    { unfold m2; cbn [recursionGuard with_heap with_recursionGuard]. cbn [map fst] in Hcin.
      fold path in Hcin. by rewrite app_nil_r in Hcin || exact Hcin. }
    cbn [mbind option_bind]. unfold setParent.
    unfold m2; cbn [heap with_heap]. rewrite (list_lookup_middle (heap m) [] obj) by done.
    cbn [mbind option_bind].
    rewrite (insert_app_r_alt (heap m)) by lia. rewrite Nat.sub_diag.
    cbn [insert list_insert].
    eexists. split; [reflexivity|].
    rewrite addProfile_heap, addProfile_recursionGuard, addProfile_fallbackProfile,
            addProfile_disk, addProfile_profiles.
    cbn [heap disk recursionGuard _fallbackProfile _profiles with_heap PopStackOnExit
         with_recursionGuard chainObjects _fallbackProfile].
    split; [done|]. split.
    { unfold m2; cbn [recursionGuard with_heap with_recursionGuard]. by rewrite take_app_length. }
    split; [done|]. split; [done|].
    intros q. cbn [length]. unfold QSet_insert.
    destruct (bool_decide (length (heap m) ∈ _profiles m)) eqn:Ein.
    + apply bool_decide_eq_true in Ein. split; [by left|].
      intros [Hq|Hq]; [done|]. by replace q with (length (heap m)) by lia.
    + rewrite elem_of_app, list_elem_of_singleton. split.
      * intros [Hq | ->]; [by left|right; lia].
      * intros [Hq|Hq]; [by left|right; lia].
  - (* a file in the middle: the call for its parent goes on along the chain *)
    destruct (IH (n) m2 name' config' rest' eq_refl Hfb2) as (m' & E & Hh & Hg & Hf & Hd & Hp).
    { eapply Forall_impl; [exact Hload|]. intros f Hf.
      eapply (loadable_ext m m2 _ _ [obj]); done. }
    { done. }
    { intros f Hf. unfold m2; cbn [recursionGuard with_heap with_recursionGuard].
      rewrite elem_of_app, list_elem_of_singleton. intros [Hin|Heq].
      - apply (Hguard f); [by right|done].
      - apply Hfresh. rewrite <- Heq. apply list_elem_of_fmap.
        exists f. split; [done|exact Hf]. }
    { done. }
    { done. }
    { done. }
    { unfold m2; cbn [heap with_heap _profiles with_recursionGuard].
      eapply (findLoaded_ext 0). exact Hcl. }
    { unfold m2; cbn [recursionGuard with_heap with_recursionGuard].
      cbn [map fst] in Hcin. fold path in Hcin.
      rewrite <- app_assoc. exact Hcin. }
    cbn [length] in E. cbn [length Nat.add]. rewrite Nat.add_succ_l in E.
    rewrite E. cbn [mbind option_bind].
    unfold setParent. rewrite Hh. unfold m2; cbn [heap with_heap].
    rewrite <- app_assoc. cbn [app _fallbackProfile with_heap with_recursionGuard].
    rewrite !length_app. cbn [length]. rewrite !Nat.add_1_r.
    rewrite (list_lookup_middle (heap m) _ obj) by done.
    cbn [mbind option_bind].
    rewrite (insert_app_r_alt (heap m)) by lia. rewrite Nat.sub_diag.
    cbn [insert list_insert app].
    eexists. split; [reflexivity|].
    rewrite addProfile_heap, addProfile_recursionGuard, addProfile_fallbackProfile,
            addProfile_disk, addProfile_profiles.
    cbn [heap disk recursionGuard _fallbackProfile _profiles with_heap PopStackOnExit
         with_recursionGuard].
    rewrite Hg, Hf, Hd. unfold m2. cbn [heap disk recursionGuard _fallbackProfile _profiles with_heap
         with_recursionGuard].
    split; [done|].
    split; [by rewrite take_app_length|]. split; [done|]. split; [done|].
    intros q. rewrite Hlen2 in Hp. unfold m2 in Hp. cbn [_profiles with_heap with_recursionGuard] in Hp.
    cbn [length] in *. unfold QSet_insert.
    destruct (bool_decide (length (heap m) ∈ _profiles m')) eqn:Ein.
    + apply bool_decide_eq_true in Ein. rewrite Hp. split.
      * intros [Hq|Hq]; [by left|right; lia].
      * intros [Hq|Hq]; [by left|].
        destruct (decide (q = length (heap m))) as [->|Hne]; [by apply Hp|right; lia].
    + rewrite elem_of_app, list_elem_of_singleton, Hp. split.
      * intros [[Hq|Hq] | ->]; [by left|right; lia|right; lia].
      * intros [Hq|Hq]; [by left; left|].
        destruct (decide (q = length (heap m))) as [->|Hne]; [by right|left; right; lia].
Qed.

(** C3 (amended).  A chain of profile files, none of them loaded: each
    names the next one as its parent and the last one names a file of the
    chain, so that the [Parent] entries run into a cycle, directly or
    through any number of files.  Loading the first file returns after one
    call per file and one more call, which finds its path on the guard
    stack and answers with the fallback profile.  The result is not the
    fallback profile but a new profile for the first file; every file of
    the chain has got a new, registered profile whose path is the file's
    and whose parent is the profile of the next file; the parent of the last
    one, which would close the cycle, is the fallback profile.  The objects
    that were in the store are as before and the guard stack is empty
    again. *)
Theorem loadProfile_cycle (n : nat) (m : SessionManager)
  (fallbackPath closing : string) (first : string * KConfig)
  (others : list (string * KConfig)) :
  let files := first :: others in
  Profile_path 1 (heap m) (_fallbackProfile m) = Some fallbackPath ->
  recursionGuard m = [] ->
  Forall (loadable m fallbackPath) files ->
  NoDup (map (fun f => resolvePath f.1) files) ->
  chained files closing ->
  closing <> fallbackPath -> QFileInfo_isDir (disk m) closing = false ->
  resolvePath closing ∈ map (fun f => resolvePath f.1) files ->
  exists m',
    loadProfile (S (length files + n)) m first.1 = Some (Some (length (heap m)), m')
    /\ length (heap m) <> _fallbackProfile m
    /\ heap m' = heap m ++ chainObjects (_fallbackProfile m) (length (heap m)) files
    /\ (forall i name config, files !! i = Some (name, config) ->
          exists o, heap m' !! (length (heap m) + i)%nat = Some o
            /\ _propertyValues o !! Path = Some (VString (resolvePath name))
            /\ _parent o = Some (if bool_decide (S i < length files)%nat
                                 then (length (heap m) + i + 1)%nat
                                 else _fallbackProfile m)
            /\ (length (heap m) + i)%nat ∈ _profiles m')
    /\ (forall p, (p < length (heap m))%nat -> heap m' !! p = heap m !! p)
    /\ (forall q, q ∈ _profiles m -> q ∈ _profiles m')
    /\ recursionGuard m' = []
    /\ _fallbackProfile m' = _fallbackProfile m
    /\ disk m' = disk m.
Proof.
  intros files Hfb Hguard Hload Hnd Hch Hcf Hcd Hcin. destruct first as [name config].
  assert (Hcl : findLoaded 1 (heap m) (resolvePath closing) (_profiles m) = Some None).
  { apply list_elem_of_fmap in Hcin as (f & Hf & Hin).
    rewrite Forall_forall in Hload. destruct (Hload f Hin) as (_ & _ & _ & _ & L5).
    by rewrite Hf. }
  destruct (loadProfile_chain fallbackPath closing files n m name config others eq_refl)
    as (m' & E & Hh & Hg & Hf & Hd & Hp); try done.
  { intros f _. rewrite Hguard. apply not_elem_of_nil. }
  { by rewrite Hguard. }
  exists m'. split; [exact E|].
  assert (Hvalid : (_fallbackProfile m < length (heap m))%nat).
  { destruct (Profile_path_is_Some _ _ _ _ Hfb) as [o Ho]. by eapply lookup_lt_Some. }
  split; [lia|]. split; [exact Hh|]. split.
  { intros i name' config' Hi.
    eexists. split.
    { rewrite Hh, lookup_app_r by lia.
      replace (length (heap m) + i - length (heap m))%nat with i by lia.
      by apply chainObjects_lookup. }
    rewrite with_parent_values. split; [apply loadedProfile_Path|].
    split; [reflexivity|]. apply Hp. right.
    apply lookup_lt_Some in Hi. lia. }
  split; [intros p Hlt; rewrite Hh; by apply lookup_app_l|].
  split; [intros q Hq; apply Hp; by left|].
  split; [by rewrite Hg|]. by split.
Qed.

End Cycle.

Lemma loadProfile_cycle_witness :
  exists m',
    loadProfile (H:=examplePlatform) 3 cycle_manager "A.profile" = Some (Some 1%nat, m')
    /\ (exists oa ob, heap m' !! 1%nat = Some oa /\ heap m' !! 2%nat = Some ob
          /\ _parent oa = Some 2%nat /\ _parent ob = Some 0%nat
          /\ _propertyValues oa !! Path
             = Some (VString "/usr/share/apps/konsole/A.profile")
          /\ _propertyValues ob !! Path
             = Some (VString "/usr/share/apps/konsole/B.profile"))
    /\ 1%nat ∈ _profiles m' /\ 2%nat ∈ _profiles m'
    /\ recursionGuard m' = [].
Proof.
  destruct (loadProfile_cycle (H:=examplePlatform) 0 cycle_manager "FALLBACK/" "A.profile"
              ("A.profile",
               {[ ("General", "Name") := "A"; ("General", "Parent") := "B.profile" ]})
              [ ("B.profile",
                 {[ ("General", "Name") := "B"; ("General", "Parent") := "A.profile" ]}) ])
    as (m' & E & _ & _ & Hobj & _ & _ & Hg & _).
  - reflexivity.
  - reflexivity.
  - repeat (apply Forall_cons; split; [repeat split; first [discriminate|reflexivity]|]).
    apply Forall_nil_2.
  - vm_compute.
    repeat (apply NoDup_cons_2; [rewrite ?elem_of_cons, elem_of_nil; intros Hc;
      repeat (destruct Hc as [Hc|Hc]; [discriminate Hc|]); exact Hc|]).
    apply NoDup_nil_2.
  - cbn [chained]. repeat split; first [discriminate|reflexivity].
  - discriminate.
  - reflexivity.
  - apply elem_of_cons. by left.
  - exists m'. split; [exact E|].
    destruct (Hobj 0%nat _ _ eq_refl) as (oa & Ha & Pa & Qa & Ra).
    destruct (Hobj 1%nat _ _ eq_refl) as (ob & Hb & Pb & Qb & Rb).
    split; [|split; [exact Ra|split; [exact Rb|exact Hg]]].
    exists oa, ob. split; [exact Ha|]. split; [exact Hb|].
    split; [exact Qa|]. split; [exact Qb|]. split; [exact Pa|exact Pb].
Defined.

(** The same on a cycle through three files: profile 1 (for A) is
    returned, the parents run 1, 2, 3 and the fallback profile 0 closes the
    chain. *)
Lemma loadProfile_three_cycle :
  (r ← loadProfile (H:=examplePlatform) 4 cycle3_manager "A.profile";
   Some (r.1, map _parent (heap r.2), recursionGuard r.2))
  = Some (Some 1%nat, [None; Some 2%nat; Some 3%nat; Some 0%nat], []).
Proof. by vm_compute. Qed.

(** C3, as stated, does not hold: on the two files that name each other,
    loading "A.profile" returns the new profile 1, whose path is A's and
    whose parent is profile 2 (for B); the fallback profile is profile 0
    and is only the parent of profile 2. *)
Lemma loadProfile_cycle_returns_child :
  (r ← loadProfile (H:=examplePlatform) 3 cycle_manager "A.profile";
   Some (r.1, _fallbackProfile r.2,
         Profile_path 1 (heap r.2) 1%nat,
         map _parent (heap r.2)))
  = Some (Some 1%nat, 0%nat, Some "/usr/share/apps/konsole/A.profile",
          [None; Some 2%nat; Some 0%nat]).
Proof. by vm_compute. Qed.

(** ** Writing a profile and reading it back *)


Lemma keyFree_cons key e l :
  keyFree key (e :: l) = true <-> entryKey e <> Some key /\ keyFree key l = true.
Proof.
  unfold keyFree. cbn [forallb]. rewrite andb_true_iff, negb_true_iff, bool_decide_eq_false.
  done.
Qed.

Lemma propFree_cons X e l :
  propFree X (e :: l) = true <->
  (entryKey e <> None -> info_property e <> X) /\ propFree X l = true.
Proof.
  unfold propFree. cbn [forallb].
  rewrite andb_true_iff, orb_true_iff, !negb_true_iff, !bool_decide_eq_false.
  split; intros [Hh Ht]; (split; [|done]).
  - intros Hk. destruct Hh as [Hh|Hh]; [|done]. exfalso. apply Hh.
    destruct (entryKey e); [by eexists|done].
  - destruct (entryKey e) eqn:E.
    + right. apply Hh. done.
    + left. by intros [? ?].
Qed.

Section RoundTrip.
Context `{Platform}.

Lemma writeValues_entry_key o config e :
  writeValues_entry o config e =
  match entryKey e with
  | Some key =>
      match _propertyValues o !! info_property e with
      | Some v => <[key := entryText v]> config
      | None => config
      end
  | None => config
  end.
Proof.
  unfold writeValues_entry, entryKey, writeEntryString.
  destruct (info_group e); [|done]. by destruct (info_name e).
Qed.

Lemma readValues_entry_key config vals e :
  readValues_entry config vals e =
  match entryKey e with
  | Some key =>
      match config !! key with
      | Some s => <[info_property e := entryValue (info_type e) s]> vals
      | None => vals
      end
  | None => vals
  end.
Proof.
  unfold readValues_entry, entryKey, hasKey, readEntryString.
  destruct (info_group e) as [g|]; [|done]. destruct (info_name e) as [k|]; [|done].
  destruct (config !! (g, k)) as [s|] eqn:E.
  - by rewrite bool_decide_eq_true_2 by (by eexists).
  - rewrite bool_decide_eq_false_2; [done|]. by intros [? ?].
Qed.

Lemma writeProperties_values n h p o : forall l config,
  h !! p = Some o ->
  writeProperties (S n) h config p l = Some (writeValues o l config).
Proof.
  unfold writeProperties, writeValues.
  induction l as [|e l IH]; intros config Hp; [done|]. cbn [foldl].
  rewrite <- IH by done. f_equal.
  unfold writeProperties_entry, writeValues_entry. cbn [mbind option_bind].
  destruct (info_group e) as [g|]; [|done]. destruct (info_name e) as [k|]; [|done].
  rewrite Hp. cbn [mbind option_bind]. unfold isPropertySet.
  destruct (_propertyValues o !! info_property e) as [v|] eqn:E.
  - rewrite bool_decide_eq_true_2 by (by eexists).
    rewrite (property_local n h p _ v) by (by rewrite (localValue_lookup _ _ o)).
    done.
  - rewrite bool_decide_eq_false_2; [done|]. by intros [? ?].
Qed.

Lemma writeValues_other o key : forall l config,
  keyFree key l = true -> writeValues o l config !! key = config !! key.
Proof.
  unfold writeValues.
  induction l as [|e l IH]; intros config Hf; [done|]. cbn [foldl].
  apply keyFree_cons in Hf as [He Hl]. rewrite IH by done.
  rewrite writeValues_entry_key. destruct (entryKey e) as [k|]; [|done].
  destruct (_propertyValues o !! info_property e); [|done].
  apply lookup_insert_ne. congruence.
Qed.

Lemma writeValues_lookup o : forall l config e key,
  distinctEntries l = true -> e ∈ l -> entryKey e = Some key ->
  writeValues o l config !! key
  = match _propertyValues o !! info_property e with
    | Some v => Some (entryText v)
    | None => config !! key
    end.
Proof.
  unfold writeValues.
  induction l as [|e0 l IH]; intros config e key Hd Hin Hk; [by apply elem_of_nil in Hin|].
  cbn [foldl]. cbn [distinctEntries] in Hd. apply andb_true_iff in Hd as [Hd0 Hd].
  apply elem_of_cons in Hin as [->|Hin].
  - rewrite Hk in Hd0. apply andb_true_iff in Hd0 as [Hkf _].
    fold (writeValues o l (writeValues_entry o config e0)).
    rewrite writeValues_other by done. rewrite writeValues_entry_key, Hk.
    destruct (_propertyValues o !! info_property e0); [|done]. apply lookup_insert_eq.
  - rewrite (IH _ e key) by done.
    destruct (_propertyValues o !! info_property e); [done|].
    rewrite writeValues_entry_key. destruct (entryKey e0) as [k0|] eqn:E0; [|done].
    destruct (_propertyValues o !! info_property e0); [|done].
    apply lookup_insert_ne. intros ->.
    apply andb_true_iff in Hd0 as [Hkf _].
    unfold keyFree in Hkf. rewrite forallb_forall in Hkf.
    specialize (Hkf e (proj1 (list_elem_of_In _ _) Hin)).
    apply negb_true_iff, bool_decide_eq_false in Hkf. done.
Qed.

Lemma readValues_propFree config X : forall l vals,
  propFree X l = true -> readValues config l vals !! X = vals !! X.
Proof.
  unfold readValues.
  induction l as [|e l IH]; intros vals Hf; [done|]. cbn [foldl].
  apply propFree_cons in Hf as [He Hl]. rewrite IH by done.
  rewrite readValues_entry_key. destruct (entryKey e) as [k|]; [|done].
  destruct (config !! k); [|done]. apply lookup_insert_ne. by apply He.
Qed.

Lemma readValues_lookup config : forall l vals e key,
  distinctEntries l = true -> e ∈ l -> entryKey e = Some key ->
  readValues config l vals !! info_property e
  = match config !! key with
    | Some s => Some (entryValue (info_type e) s)
    | None => vals !! info_property e
    end.
Proof.
  unfold readValues.
  induction l as [|e0 l IH]; intros vals e key Hd Hin Hk; [by apply elem_of_nil in Hin|].
  cbn [foldl]. cbn [distinctEntries] in Hd. apply andb_true_iff in Hd as [Hd0 Hd].
  apply elem_of_cons in Hin as [->|Hin].
  - rewrite Hk in Hd0. apply andb_true_iff in Hd0 as [_ Hpf].
    fold (readValues config l (readValues_entry config vals e0)).
    rewrite readValues_propFree by done. rewrite readValues_entry_key, Hk.
    destruct (config !! key); [|done]. apply lookup_insert_eq.
  - rewrite (IH _ e key) by done.
    destruct (config !! key); [done|].
    rewrite readValues_entry_key. destruct (entryKey e0) as [k0|] eqn:E0; [|done].
    destruct (config !! k0); [|done].
    apply lookup_insert_ne.
    apply andb_true_iff in Hd0 as [_ Hpf].
    unfold propFree in Hpf. rewrite forallb_forall in Hpf.
    specialize (Hpf e (proj1 (list_elem_of_In _ _) Hin)).
    apply orb_true_iff in Hpf as [Hpf|Hpf].
    + apply negb_true_iff, bool_decide_eq_false in Hpf. exfalso. apply Hpf. rewrite Hk. by eexists.
    + apply negb_true_iff, bool_decide_eq_false in Hpf. congruence.
Qed.

End RoundTrip.

Lemma table_distinct : distinctEntries DefaultPropertyNames = true.
Proof. by vm_compute. Qed.
Lemma table_keyFree_Parent : keyFree (GENERAL_GROUP, "Parent") DefaultPropertyNames = true.
Proof. by vm_compute. Qed.
Lemma table_keyFree_Command : keyFree (GENERAL_GROUP, "Command") DefaultPropertyNames = true.
Proof. by vm_compute. Qed.
Lemma table_propFree_Command : propFree Command DefaultPropertyNames = true.
Proof. by vm_compute. Qed.
Lemma table_propFree_Arguments : propFree Arguments DefaultPropertyNames = true.
Proof. by vm_compute. Qed.
Lemma table_propFree_Path : propFree Path DefaultPropertyNames = true.
Proof. by vm_compute. Qed.
Lemma table_propFree_Title : propFree Title DefaultPropertyNames = true.
Proof. by vm_compute. Qed.
Lemma table_names : Forall (fun i => is_Some (info_name i)) DefaultPropertyNames.
Proof. unfold DefaultPropertyNames. repeat (apply Forall_cons; split; [by eexists|]). by apply Forall_nil. Qed.

Section RoundTripTheorem.
Context `{Platform}.

Lemma chain_ok_parent n h p o q :
  chain_ok (S n) h p = true -> h !! p = Some o -> _parent o = Some q ->
  is_Some (h !! q).
Proof.
  simpl. intros Hc Hp Hq. rewrite Hp, Hq in Hc.
  destruct n; [done|]. simpl in Hc. destruct (h !! q); [by eexists|done].
Qed.

Lemma isPropertySet_lookup o X :
  isPropertySet o X = bool_decide (is_Some (_propertyValues o !! X)).
Proof. done. Qed.

(** The file [writeProfile] leaves at a path that held no file. *)
Lemma writeProfile_fresh n h d path p o :
  h !! p = Some o ->
  chain_ok (S n) h p = true ->
  fs_files d !! path = None ->
  exists config2, 
    writeProfile (S n) h d path p
    = Some (true, mkFS (<[path := writeValues o DefaultPropertyNames config2]> (fs_files d))
                       (fs_dirs d) (fs_locked d))
    /\ (forall key, key <> (GENERAL_GROUP, "Parent") -> key <> (GENERAL_GROUP, "Command") ->
          config2 !! key = None)
    /\ (config2 !! (GENERAL_GROUP, "Command")
        = if isPropertySet o Command || isPropertySet o Arguments
          then (c ← Profile_command (S n) h p;
                a ← Profile_arguments (S n) h p;
                Some (ShellCommand_fullCommand c a))
          else None).
Proof.
  intros Hp Hc Hf. unfold writeProfile. rewrite Hp, Hf. cbn [mbind option_bind default].
  assert (exists config1,
            match _parent o with
            | Some q => pp ← Profile_path (S n) h q;
                        Some (writeEntryString ∅ GENERAL_GROUP "Parent" pp)
            | None => Some ∅
            end = Some config1
            /\ forall key, key <> (GENERAL_GROUP, "Parent") -> config1 !! key = None)
    as (config1 & -> & H1).
  { destruct (_parent o) as [q|] eqn:Hq.
    - destruct (chain_ok_parent n h p o q Hc Hp Hq) as [oq Hoq].
      rewrite (Profile_path_valid n h q oq Hoq). cbn [mbind option_bind].
      eexists. split; [done|]. intros key Hk. unfold writeEntryString.
      rewrite lookup_insert_ne by done. apply lookup_empty.
    - exists ∅. split; [done|]. intros. apply lookup_empty. }
  cbn [mbind option_bind].
  destruct (chain_ok_property _ _ _ Command Hc) as [vc Hvc].
  destruct (chain_ok_property _ _ _ Arguments Hc) as [va Hva].
  unfold Profile_command, Profile_arguments, propertyString. rewrite Hvc, Hva.
  cbn [fmap option_fmap option_map mbind option_bind].
  destruct (isPropertySet o Command || isPropertySet o Arguments).
  - cbn [mbind option_bind]. rewrite (writeProperties_values n h p o) by done.
    cbn [mbind option_bind]. eexists. split; [done|]. split.
    + intros key Hk1 Hk2. unfold writeEntryString. rewrite lookup_insert_ne by done. by apply H1.
    + unfold writeEntryString. apply lookup_insert_eq.
  - cbn [mbind option_bind]. rewrite (writeProperties_values n h p o) by done.
    cbn [mbind option_bind]. eexists. split; [done|]. split.
    + intros key Hk1 Hk2. by apply H1.
    + by apply H1.
Qed.


Lemma keyFree_elem key l e :
  keyFree key l = true -> e ∈ l -> entryKey e <> Some key.
Proof.
  unfold keyFree. rewrite forallb_forall. intros Hf Hin.
  specialize (Hf e (proj1 (list_elem_of_In _ _) Hin)).
  by apply negb_true_iff, bool_decide_eq_false in Hf.
Qed.

Lemma propFree_elem X l e key :
  propFree X l = true -> e ∈ l -> entryKey e = Some key -> info_property e <> X.
Proof.
  unfold propFree. rewrite forallb_forall. intros Hf Hin Hk.
  specialize (Hf e (proj1 (list_elem_of_In _ _) Hin)).
  apply orb_true_iff in Hf as [Hf|Hf]; apply negb_true_iff, bool_decide_eq_false in Hf.
  - exfalso. apply Hf. rewrite Hk. by eexists.
  - done.
Qed.

Lemma with_values_values o m : _propertyValues (with_values o m) = m.
Proof. reflexivity. Qed.

Lemma hasKey_lookup (config : KConfig) g k :
  hasKey config g k = bool_decide (is_Some (config !! (g, k))).
Proof. reflexivity. Qed.

(** C6 (amended).  A profile is written to a path that holds no file and
    the file is read into an empty plain profile.  For every table entry
    with a persistence group the file has the entry exactly when the
    property is set in the profile itself, and the profile read back has
    the property set exactly when the original has; its value is what the
    configuration file gives for the stored text at the declared type, which
    is the original value whenever the file gives that value back
    unchanged.  [Path] and [Title] are not written and do not come back.
    [Command] and [Arguments], which have no group either, are written
    together as the one entry General/Command whenever one of them is set,
    from their resolved values, and both come back set. *)
Theorem write_read_round_trip (n n' : nat) (h : Heap) (d : FileSystem)
  (path : string) (p : Ptr) (o : ProfileObj)
  (h0 : Heap) (r : Ptr) (o0 : ProfileObj) :
  h !! p = Some o ->
  chain_ok (S n) h p = true ->
  fs_files d !! path = None ->
  h0 !! r = Some o0 -> _group o0 = None -> _propertyValues o0 = ∅ ->
  exists d' config parent h1 o',
    writeProfile (S n) h d path p = Some (true, d')
    /\ fs_files d' !! path = Some config
    /\ readProfile (S n') h0 d' path r = Some (true, parent, h1)
    /\ h1 !! r = Some o'
    /\ (forall info g k, info ∈ DefaultPropertyNames ->
          info_group info = Some g -> info_name info = Some k ->
          config !! (g, k) = entryText <$> _propertyValues o !! info_property info
          /\ isPropertySet o' (info_property info)
             = isPropertySet o (info_property info)
          /\ _propertyValues o' !! info_property info
             = (fun v => entryValue (info_type info) (entryText v))
                 <$> _propertyValues o !! info_property info
          /\ (forall v, _propertyValues o !! info_property info = Some v ->
                entryValue (info_type info) (entryText v) = v ->
                _propertyValues o' !! info_property info = Some v))
    /\ _propertyValues o' !! Path = None
    /\ _propertyValues o' !! Title = None
    /\ isPropertySet o' Command = isPropertySet o Command || isPropertySet o Arguments
    /\ isPropertySet o' Arguments = isPropertySet o Command || isPropertySet o Arguments
    /\ config !! (GENERAL_GROUP, "Command")
       = (if isPropertySet o Command || isPropertySet o Arguments
          then c ← Profile_command (S n) h p;
               a ← Profile_arguments (S n) h p;
               Some (ShellCommand_fullCommand c a)
          else None).
Proof.
  intros Hp Hc Hfresh Hr Hg0 Hv0.
  destruct (writeProfile_fresh n h d path p o Hp Hc Hfresh) as (config2 & Hw & Hc2 & Hcmd).
  set (config := writeValues o DefaultPropertyNames config2).
  assert (Hcfg : forall key, keyFree key DefaultPropertyNames = true ->
                             config !! key = config2 !! key).
  { intros key Hk. unfold config. by apply writeValues_other. }
  assert (Hcommand : config !! (GENERAL_GROUP, "Command")
                     = (if isPropertySet o Command || isPropertySet o Arguments
                        then c ← Profile_command (S n) h p;
                             a ← Profile_arguments (S n) h p;
                             Some (ShellCommand_fullCommand c a)
                        else None)).
  { rewrite Hcfg by apply table_keyFree_Command. exact Hcmd. }
  assert (Hhas : hasKey config GENERAL_GROUP "Command"
                 = isPropertySet o Command || isPropertySet o Arguments).
  { rewrite hasKey_lookup, Hcommand.
    destruct (isPropertySet o Command || isPropertySet o Arguments).
    - destruct (chain_ok_property _ _ _ Command Hc) as [vc Hvc].
      destruct (chain_ok_property _ _ _ Arguments Hc) as [va Hva].
      unfold Profile_command, Profile_arguments, propertyString. rewrite Hvc, Hva.
      apply bool_decide_eq_true_2. by eexists.
    - apply bool_decide_eq_false_2. by intros [? ?]. }
  eexists _, config, _, _, _.
  split; [exact Hw|]. cbn [fs_files].
  split; [apply lookup_insert_eq|].
  split.
  { apply (readProfile_plain n' h0 _ path r o0 config); [done|done|].
    cbn [fs_files]. apply lookup_insert_eq. }
  split.
  { apply list_lookup_insert_eq. by eapply lookup_lt_Some. }
  rewrite !with_values_values, Hv0. unfold readProfile_values.
  set (vals1 := if hasKey config GENERAL_GROUP "Command" then _ else _).
  assert (Hvals1 : forall X, X <> Command -> X <> Arguments -> vals1 !! X = None).
  { intros X HX1 HX2. unfold vals1. destruct (hasKey config GENERAL_GROUP "Command").
    - rewrite !lookup_insert_ne by done. apply lookup_empty.
    - apply lookup_empty. }
  split.
  { intros info g k Hin Hgrp Hname.
    assert (Hkey : entryKey info = Some (g, k)) by (unfold entryKey; by rewrite Hgrp, Hname).
    assert (Hfile : config !! (g, k) = entryText <$> _propertyValues o !! info_property info).
    { unfold config.
      rewrite (writeValues_lookup o _ config2 info (g, k) table_distinct Hin Hkey).
      destruct (_propertyValues o !! info_property info); [done|]. cbn [fmap option_fmap option_map].
      apply Hc2.
      - intros E. by apply (keyFree_elem _ _ _ table_keyFree_Parent Hin); rewrite Hkey, E.
      - intros E. by apply (keyFree_elem _ _ _ table_keyFree_Command Hin); rewrite Hkey, E. }
    split; [exact Hfile|].
    assert (Hback : readValues config DefaultPropertyNames vals1 !! info_property info
                    = (fun v => entryValue (info_type info) (entryText v))
                        <$> _propertyValues o !! info_property info).
    { rewrite (readValues_lookup config _ vals1 info (g, k) table_distinct Hin Hkey), Hfile.
      destruct (_propertyValues o !! info_property info) as [v|] eqn:Ev;
        cbn [fmap option_fmap option_map]; [done|].
      apply Hvals1.
      + by apply (propFree_elem _ _ _ _ table_propFree_Command Hin Hkey).
      + by apply (propFree_elem _ _ _ _ table_propFree_Arguments Hin Hkey). }
    split; [|split; [exact Hback|]].
    - unfold isPropertySet. rewrite with_values_values, Hback.
      by destruct (_propertyValues o !! info_property info).
    - intros v Ev Hcodec. rewrite Hback, Ev. cbn [fmap option_fmap option_map].
      by rewrite Hcodec. }
  split.
  { rewrite readValues_propFree by apply table_propFree_Path. by apply Hvals1. }
  split.
  { rewrite readValues_propFree by apply table_propFree_Title. by apply Hvals1. }
  unfold isPropertySet at 1 4. rewrite !with_values_values.
  rewrite (readValues_propFree config Command) by apply table_propFree_Command.
  rewrite (readValues_propFree config Arguments) by apply table_propFree_Arguments.
  unfold vals1. rewrite Hhas.
  split; [|split; [|exact Hcommand]].
  - destruct (isPropertySet o Command || isPropertySet o Arguments).
    + rewrite lookup_insert_ne by done. rewrite lookup_insert_eq.
      apply bool_decide_eq_true_2. by eexists.
    + rewrite lookup_empty. apply bool_decide_eq_false_2. by intros [? ?].
  - destruct (isPropertySet o Command || isPropertySet o Arguments).
    + rewrite lookup_insert_eq. apply bool_decide_eq_true_2. by eexists.
    + rewrite lookup_empty. apply bool_decide_eq_false_2. by intros [? ?].
Qed.

End RoundTripTheorem.

Lemma write_read_round_trip_witness :
  exists d' config parent h1 o',
    writeProfile (H:=examplePlatform) 2 group_heap (mkFS ∅ [] []) "/x/M2.profile" 2%nat
      = Some (true, d')
    /\ fs_files d' !! "/x/M2.profile" = Some config
    /\ readProfile (H:=examplePlatform) 1 command_heap d' "/x/M2.profile" 2%nat
       = Some (true, parent, h1)
    /\ h1 !! 2%nat = Some o'
    /\ config !! (GENERAL_GROUP, "Directory") = Some "/tmp"
    /\ _propertyValues o' !! Directory = Some (VString "/tmp")
    /\ isPropertySet o' Icon = true
    /\ isPropertySet o' Font = false
    /\ _propertyValues o' !! Path = None
    /\ _propertyValues o' !! Title = None
    /\ isPropertySet o' Command = false
    /\ isPropertySet o' Arguments = false
    /\ config !! (GENERAL_GROUP, "Command") = None.
Proof.
  destruct (write_read_round_trip (H:=examplePlatform) 1 0 group_heap (mkFS ∅ [] [])
              "/x/M2.profile" 2%nat
              (plainProfile [ (Name, VString "M2"); (Icon, VString "term");
                              (Directory, VString "/tmp") ])
              command_heap 2%nat (new_Profile (Some 0%nat)))
    as (d' & config & parent & h1 & o' & Hw & Hf & Hr & Ho & Hentries & Hrest);
    [reflexivity ..|].
  exists d', config, parent, h1, o'.
  split; [exact Hw|]. split; [exact Hf|]. split; [exact Hr|]. split; [exact Ho|].
  assert (Hin : forall info, In info DefaultPropertyNames -> info ∈ DefaultPropertyNames)
    by (intros info; apply list_elem_of_In).
  destruct (Hentries (entry Directory "Directory" (Some GENERAL_GROUP) T_String)
              GENERAL_GROUP "Directory") as (Hd1 & _ & _ & Hd2);
    [apply Hin; cbv; tauto|reflexivity|reflexivity|].
  destruct (Hentries (entry Icon "Icon" (Some GENERAL_GROUP) T_String)
              GENERAL_GROUP "Icon") as (_ & Hi & _);
    [apply Hin; cbv; tauto|reflexivity|reflexivity|].
  destruct (Hentries (entry Font "Font" (Some APPEARANCE_GROUP) T_Font)
              APPEARANCE_GROUP "Font") as (_ & Hfn & _);
    [apply Hin; cbv; tauto|reflexivity|reflexivity|].
  split; [exact Hd1|]. split; [apply Hd2; reflexivity|].
  split; [exact Hi|]. split; [exact Hfn|]. exact Hrest.
Defined.



(** C6, as stated, does not hold: [Command] has no persistence group, yet
    a profile that sets only [Command] is written with a "Command" entry
    and comes back with [Command] and [Arguments] set; the entry holds the
    argument list the profile inherits from its parent, which the profile
    itself never set. *)
Lemma roundtrip_keeps_Command :
  Forall (fun info => info_property info = Command -> info_group info = None)
         DefaultPropertyNames
  /\ localValue command_heap 1%nat Arguments = None
  /\ ('(_, d) ← writeProfile (H:=examplePlatform) 2 command_heap
                  (mkFS ∅ [] []) "/x/ssh.profile" 1%nat;
      '(_, _, h) ← readProfile (H:=examplePlatform) 2 command_heap d
                     "/x/ssh.profile" 2%nat;
      o ← h !! 2%nat;
      Some (isPropertySet o Command, fs_files d !! "/x/ssh.profile" ≫= (fun c => c !! ("General", "Command")),
            _propertyValues o !! Arguments))
     = Some (true, Some "/bin/bash", Some (VStringList ["/bin/bash"])).
Proof.
  split; [|split; by vm_compute].
  repeat constructor; by vm_compute.
Qed.

(** ** SessionManager::changeProfile *)



Lemma insertChanges_cons fuel h t X v l :
  insertChanges fuel h t ((X, v) :: l)
  = (h' ← setProperty fuel h t X v; insertChanges fuel h' t l).
Proof.
  unfold insertChanges. cbn [foldl mbind option_bind].
  destruct (setProperty fuel h t X v) as [h'|]; [done|]. cbn [mbind option_bind].
  induction l as [|[Y w] l IH]; [done|]. cbn [foldl]. exact IH.
Qed.

Lemma Profile_name_valid n h p o :
  h !! p = Some o ->
  Profile_name (S n) h p
  = Some (toQString (default VInvalid (_propertyValues o !! Name))).
Proof.
  intros Hp. unfold Profile_name, propertyString. simpl. rewrite Hp.
  destruct (_propertyValues o !! Name); [done|]. by destruct (_parent o).
Qed.

Lemma plainMember_spec fuel h q :
  plainMember fuel h q = true ->
  exists o, h !! q = Some o /\ _group o = None /\ chain_ok fuel h q = true.
Proof.
  unfold plainMember. destruct (h !! q) as [o|]; [|done].
  intros Hb. apply andb_true_iff in Hb as [Hg Hc]. apply bool_decide_eq_true in Hg. eauto.
Qed.

Lemma plainMember_shape fuel h h' q :
  same_shape h h' -> plainMember fuel h' q = plainMember fuel h q.
Proof.
  intros Hs. unfold plainMember. destruct (h !! q) as [o|] eqn:Hq.
  - destruct (same_shape_lookup _ _ _ _ Hs Hq) as (o'&->&_&_&Hg).
    by rewrite (same_shape_chain_ok _ _ Hs), Hg.
  - by rewrite (same_shape_lookup_None _ _ _ Hs Hq).
Qed.

Lemma string_app_cons c (a b : string) : (String c a ++ b)%string = String c (a ++ b).
Proof. reflexivity. Qed.

Lemma prefix_app p x : String.prefix p (p ++ x) = true.
Proof.
  induction p as [|c p IH]; [by destruct x|]. rewrite string_app_cons. cbn [String.prefix].
  destruct (ascii_dec c c); [exact IH|done].
Qed.

Lemma foldl_insert_union (l : list (Property * QVariant)) : forall vals : gmap Property QVariant,
  NoDup l.*1 ->
  foldl (fun acc '(X, v) => <[X := v]> acc) vals l = list_to_map l ∪ vals.
Proof.
  induction l as [|[X v] l IH]; intros vals Hnd; cbn [foldl].
  - by rewrite list_to_map_nil, (left_id_L ∅ (∪)).
  - cbn [fmap list_fmap fst] in Hnd. apply NoDup_cons in Hnd as [Hx Hnd].
    rewrite IH by done. rewrite list_to_map_cons.
    rewrite <- insert_union_l. symmetry. apply insert_union_r.
    by apply not_elem_of_list_to_map_1.
Qed.

Lemma insertChanges_plain n h q o l :
  h !! q = Some o -> _group o = None ->
  insertChanges (S n) h q l
  = Some (<[q := with_values o (foldl (fun acc '(X, v) => <[X := v]> acc)
                                   (_propertyValues o) l)]> h).
Proof.
  revert h o. induction l as [|[X v] l IH]; intros h o Ho Hg.
  - cbn [foldl]. unfold insertChanges. cbn [foldl]. f_equal. symmetry.
    apply list_insert_id. rewrite Ho. by destruct o.
  - rewrite insertChanges_cons. rewrite (setProperty_plain n h q o X v Ho Hg).
    cbn [mbind option_bind].
    assert (Hlt : (q < length h)%nat) by (by eapply lookup_lt_Some).
    rewrite (IH _ (with_values o (<[X := v]> (_propertyValues o)))).
    + cbn [foldl]. by rewrite list_insert_insert_eq.
    + by rewrite list_lookup_insert_eq.
    + done.
Qed.

Lemma insertChanges_plain_map n h q o (changes : gmap Property QVariant) :
  h !! q = Some o -> _group o = None ->
  insertChanges (S n) h q (map_to_list changes)
  = Some (<[q := with_values o (changes ∪ _propertyValues o)]> h).
Proof.
  intros Ho Hg. rewrite (insertChanges_plain n h q o) by done.
  rewrite foldl_insert_union by apply NoDup_fst_map_to_list.
  by rewrite list_to_map_to_list.
Qed.














Section ChangeProfile.
Context `{Platform}.

(** [applyProfile] only records calls on sessions. *)
Lemma applyProfile_spec m profile b :
  heap (applyProfile m profile b) = heap m
  /\ disk (applyProfile m profile b) = disk m
  /\ exists ev, emitted (applyProfile m profile b) = emitted m ++ ev
       /\ forall p, profileChanged p ∉ ev.
Proof.
  unfold applyProfile. generalize (_sessions m) as l. intros l. revert m.
  induction l as [|s l IH]; intros m; cbn [foldl].
  - split; [done|]. split; [done|]. exists []. split; [by rewrite app_nil_r|].
    intros p. apply not_elem_of_nil.
  - destruct (bool_decide (_sessionProfiles m !! s = Some profile)); [|apply IH].
    destruct (IH (applyProfileToSession m s profile b)) as (Hh & Hd & ev & He & Hev).
    rewrite Hh, Hd, He. split; [done|]. split; [done|].
    exists (sessionApplied s profile b :: ev). unfold applyProfileToSession, emit. cbn [emitted].
    split; [by rewrite <- app_assoc|].
    intros p Hin. apply elem_of_cons in Hin as [Hin|Hin]; [done|]. by apply (Hev p).
Qed.

Lemma writeValues_keeps o key : forall l config,
  is_Some (config !! key) -> is_Some (writeValues o l config !! key).
Proof.
  unfold writeValues.
  induction l as [|e l IH]; intros config Hk; [done|]. cbn [foldl]. apply IH.
  rewrite writeValues_entry_key. destruct (entryKey e) as [k|]; [|done].
  destruct (_propertyValues o !! info_property e); [|done].
  destruct (decide (k = key)) as [->|Hne].
  - rewrite lookup_insert_eq. by eexists.
  - by rewrite lookup_insert_ne.
Qed.

(** The file [writeProfile] leaves, whatever was at the path before:
    [config2] is the old file with the Parent and Command entries written. *)
Lemma writeProfile_general n h d path p o :
  h !! p = Some o ->
  chain_ok (S n) h p = true ->
  exists config2,
    writeProfile (S n) h d path p
    = Some (true, mkFS (<[path := writeValues o DefaultPropertyNames config2]> (fs_files d))
                       (fs_dirs d) (fs_locked d))
    /\ (forall key, is_Some (default ∅ (fs_files d !! path) !! key) -> is_Some (config2 !! key))
    /\ (forall key, key <> (GENERAL_GROUP, "Parent") -> key <> (GENERAL_GROUP, "Command") ->
          config2 !! key = default ∅ (fs_files d !! path) !! key)
    /\ (config2 !! (GENERAL_GROUP, "Parent")
        = match _parent o with
          | Some q => Profile_path 1 h q
          | None => default ∅ (fs_files d !! path) !! (GENERAL_GROUP, "Parent")
          end).
Proof.
  intros Hp Hc. unfold writeProfile. rewrite Hp. cbn [mbind option_bind].
  set (config := default ∅ (fs_files d !! path)).
  assert (exists config1,
            match _parent o with
            | Some q => pp ← Profile_path (S n) h q;
                        Some (writeEntryString config GENERAL_GROUP "Parent" pp)
            | None => Some config
            end = Some config1
            /\ (forall key, is_Some (config !! key) -> is_Some (config1 !! key))
            /\ (forall key, key <> (GENERAL_GROUP, "Parent") -> config1 !! key = config !! key)
            /\ config1 !! (GENERAL_GROUP, "Parent")
               = match _parent o with
                 | Some q => Profile_path 1 h q
                 | None => config !! (GENERAL_GROUP, "Parent")
                 end)
    as (config1 & -> & K1 & O1 & P1).
  { destruct (_parent o) as [q|] eqn:Hq.
    - destruct (chain_ok_parent n h p o q Hc Hp Hq) as [oq Hoq].
      rewrite (Profile_path_valid n h q oq Hoq), (Profile_path_valid 0 h q oq Hoq).
      cbn [mbind option_bind].
      eexists. split; [done|]. unfold writeEntryString. split; [|split].
      + intros key Hk. destruct (decide (key = (GENERAL_GROUP, "Parent"))) as [->|Hne].
        * rewrite lookup_insert_eq. by eexists.
        * by rewrite lookup_insert_ne.
      + intros key Hk. by rewrite lookup_insert_ne.
      + apply lookup_insert_eq.
    - exists config. by repeat split. }
  cbn [mbind option_bind].
  destruct (chain_ok_property _ _ _ Command Hc) as [vc Hvc].
  destruct (chain_ok_property _ _ _ Arguments Hc) as [va Hva].
  unfold Profile_command, Profile_arguments, propertyString. rewrite Hvc, Hva.
  cbn [fmap option_fmap option_map mbind option_bind].
  destruct (isPropertySet o Command || isPropertySet o Arguments).
  - cbn [mbind option_bind]. rewrite (writeProperties_values n h p o) by done.
    cbn [mbind option_bind]. eexists. split; [done|]. unfold writeEntryString.
    split; [|split].
    + intros key Hk. destruct (decide (key = (GENERAL_GROUP, "Command"))) as [->|Hne].
      * rewrite lookup_insert_eq. by eexists.
      * rewrite lookup_insert_ne by done. by apply K1.
    + intros key Hk1 Hk2. rewrite lookup_insert_ne by done. by apply O1.
    + rewrite lookup_insert_ne by done. exact P1.
  - cbn [mbind option_bind]. rewrite (writeProperties_values n h p o) by done.
    cbn [mbind option_bind]. eexists. split; [done|]. split; [exact K1|]. split; [|exact P1].
    intros key Hk1 Hk2. by apply O1.
Qed.

Lemma getPath_prefix fuel h p s :
  getPath fuel h p = Some s -> startsWith s saveLocation = true.
Proof.
  unfold getPath. destruct (h !! p) as [o|]; [|done]. cbn [mbind option_bind].
  destruct (Profile_path fuel h p) as [pp|]; [|done]. cbn [mbind option_bind].
  destruct (isPropertySet o Path && startsWith pp saveLocation) eqn:E.
  - intros [= <-]. by apply andb_prop in E as [_ E].
  - destruct (Profile_name fuel h p); [|done]. cbn [mbind option_bind].
    intros [= <-]. unfold startsWith. apply prefix_app.
Qed.

Lemma saveProfile_detail n m p o :
  heap m !! p = Some o -> chain_ok (S n) (heap m) p = true ->
  exists newPath config2,
    getPath (S n) (heap m) p = Some newPath
    /\ (forall key, is_Some (default ∅ (fs_files (disk m) !! newPath) !! key) ->
          is_Some (config2 !! key))
    /\ saveProfile (S n) m p
       = Some (newPath,
               with_disk m (mkFS (<[newPath := writeValues o DefaultPropertyNames config2]>
                                    (fs_files (disk m)))
                                 (fs_dirs (disk m)) (fs_locked (disk m)))).
Proof.
  intros Hp Hc. unfold saveProfile.
  assert (exists newPath, getPath (S n) (heap m) p = Some newPath) as [newPath Hg].
  { unfold getPath. rewrite Hp. cbn [mbind option_bind].
    rewrite (Profile_path_valid n _ p o Hp), (Profile_name_valid n _ p o Hp).
    cbn [mbind option_bind]. destruct (isPropertySet o Path && _); by eexists. }
  rewrite Hg. cbn [mbind option_bind].
  destruct (writeProfile_general n (heap m) (disk m) newPath p o Hp Hc) as (config2 & -> & K & _).
  cbn [mbind option_bind]. by eexists _, _.
Qed.

(** [changeProfile] on a plain profile, after its first loop. *)
Lemma changeProfile_plain_unfold n m q o (changes : gmap Property QVariant) persistent :
  heap m !! q = Some o -> _group o = None ->
  let o1 := with_values o (changes ∪ _propertyValues o) in
  let m3 := emit (applyProfile (with_heap m (<[q := o1]> (heap m))) q true)
                 (profileChanged q) in
  changeProfile (S n) m q changes persistent
  = (if persistent
        && negb (isEmptyString
                   (toQString (default VInvalid ((changes ∪ _propertyValues o) !! Name))))
        && negb (_hidden o)
     then '(newPath, m4) ← saveProfile (S n) m3 q;
          h5 ← setProperty (S n) (heap m4) q Path (VString newPath);
          Some (with_heap m4 h5)
     else Some m3).
Proof.
  intros Ho Hg. cbv zeta.
  assert (Hlt : (q < length (heap m))%nat) by (by eapply lookup_lt_Some).
  cbn [changeProfile]. rewrite (insertChanges_plain_map n _ q o) by done.
  cbn [mbind option_bind].
  erewrite Profile_name_valid by (by apply list_lookup_insert_eq).
  cbn [mbind option_bind]. rewrite list_lookup_insert_eq by done.
  cbn [mbind option_bind]. cbn [_group with_values _propertyValues isHidden _hidden].
  by rewrite Hg.
Qed.











End ChangeProfile.


(** A group of two profiles has no name of its own, so its members are
    not saved even with [persistent = true]. *)
Lemma changeProfile_nameless_group_not_saved :
  (m ← changeProfile (H:=examplePlatform) 3 group_manager 3%nat
         {[ Icon := VString "x" ]} true;
   Some (disk m)) = Some (disk group_manager).
Proof. by vm_compute. Qed.




(** * Further properties *)

(** X1. [Profile::lookupByName] finds registered names whatever the case
    of their letters: a string that equals a name of the table
    [DefaultPropertyNames] after both are put in lower case is mapped to the
    property of that entry. *)
Lemma lookupByName_registered info n s :
  info ∈ DefaultPropertyNames -> info_name info = Some n ->
  toLower s = toLower n ->
  lookupByName s = info_property info.
Proof.
  intros Hin Hn Hs. unfold lookupByName. rewrite Hs. clear s Hs.
  unfold DefaultPropertyNames in Hin.
  repeat (apply elem_of_cons in Hin as [->|Hin];
          [injection Hn as <-; vm_compute; reflexivity|]).
  by apply elem_of_nil in Hin.
Qed.

Lemma span_spec P s : forall a b, span P s = (a, b) ->
  s = (a ++ b)%string /\ allChars P a = true /\
  match b with String c _ => P c = false | EmptyString => True end.
Proof.
  induction s as [|c r IH]; intros a b E; simpl in E.
  - by simplify_eq.
  - destruct (P c) eqn:Pc.
    + destruct (span P r) as [a' b'] eqn:E'. simplify_eq.
      destruct (IH _ _ eq_refl) as (-> & Ha & Hb). simpl. by rewrite Pc, Ha.
    + simplify_eq. simpl. by rewrite Pc.
Qed.

Lemma span_all P a : forall b,
  allChars P a = true ->
  match b with String c _ => P c = false | EmptyString => True end ->
  span P (a ++ b) = (a, b).
Proof.
  induction a as [|c r IH]; intros b Ha Hb; simpl in *.
  - destruct b as [|c b]; [done|]. simpl. by rewrite Hb.
  - apply andb_prop in Ha as [Hc Hr]. rewrite Hc. by rewrite (IH b Hr Hb).
Qed.

Lemma matchHere_spec s cap1 cap2 : matchHere s = Some (cap1, cap2) ->
  cap1 <> "" /\ allChars isLetter cap1 = true /\
  cap2 <> "" /\ allChars notSemicolon cap2 = true /\
  exists rest, s = (cap1 ++ "=" ++ cap2 ++ rest)%string.
Proof.
  unfold matchHere. destruct (span isLetter s) as [c1 rest] eqn:E1.
  apply span_spec in E1 as (-> & H1 & _).
  destruct c1 as [|x c1]; [done|].
  destruct rest as [|e rest']; [done|].
  destruct (Ascii.ascii_dec e "=") as [->|Hne].
  2:{ destruct e as [[] [] [] [] [] [] [] []]; try done. }
  destruct (span notSemicolon rest') as [c2 tl] eqn:E2.
  apply span_spec in E2 as (-> & H2 & _).
  destruct c2 as [|y c2]; [done|]. intros [= <- <-].
  repeat split; try done. exists tl. done.
Qed.

Lemma searchFrom_spec s : forall r, searchFrom s = Some r ->
  exists pre t, s = (pre ++ t)%string /\ matchHere t = Some r.
Proof.
  induction s as [|c s IH]; intros r; simpl.
  - done.
  - destruct (matchHere (String c s)) as [r'|] eqn:E.
    + intros [= ->]. by exists "", (String c s).
    + intros Hs. destruct (IH _ Hs) as (pre & t & -> & Ht).
      by exists (String c pre), t.
Qed.

Lemma string_app_nil_r (a : string) : (a ++ "")%string = a.
Proof. induction a as [|c a IH]; [done|]. by rewrite string_app_cons, IH. Qed.

Lemma string_app_assoc (a b c : string) : ((a ++ b) ++ c)%string = (a ++ b ++ c)%string.
Proof. induction a as [|x a IH]; [done|]. by rewrite !string_app_cons, IH. Qed.

Lemma allChars_app P a b : allChars P (a ++ b) = allChars P a && allChars P b.
Proof. induction a as [|c a IH]; simpl; [done|]. by rewrite IH, andb_assoc. Qed.

Lemma allChars_impl (P Q : ascii -> bool) s :
  (forall c, P c = true -> Q c = true) -> allChars P s = true -> allChars Q s = true.
Proof.
  intros HPQ. induction s as [|c s IH]; simpl; [done|].
  intros [Hc Hs]%andb_prop. by rewrite (HPQ c Hc), IH.
Qed.

Lemma isLetter_notSemicolon c : isLetter c = true -> notSemicolon c = true.
Proof. destruct c as [[] [] [] [] [] [] [] []]; by vm_compute. Qed.

Lemma isLetter_notEquals c : isLetter c = true -> notEquals c = true.
Proof. destruct c as [[] [] [] [] [] [] [] []]; by vm_compute. Qed.

Lemma indexOfFrom_None c s : forall i,
  allChars (fun d => negb (bool_decide (d = c))) s = true -> indexOfFrom c s i = None.
Proof.
  induction s as [|d s IH]; intros i; simpl; [done|].
  intros [Hd Hs]%andb_prop. apply negb_true_iff, bool_decide_eq_false in Hd.
  rewrite bool_decide_eq_false_2 by congruence. by apply IH.
Qed.

Lemma indexOfFrom_shift c s : forall a i,
  indexOfFrom c s (a + i) = (fun k => a + k)%nat <$> indexOfFrom c s i.
Proof.
  induction s as [|d s IH]; intros a i; simpl; [done|].
  destruct (bool_decide (c = d)); [done|].
  replace (S (a + i)) with (a + S i)%nat by lia. apply IH.
Qed.

Lemma indexOfFrom_bounds c s : forall i k,
  indexOfFrom c s i = Some k -> (i <= k < i + String.length s)%nat.
Proof.
  induction s as [|d s IH]; intros i k; simpl; [done|].
  destruct (bool_decide (c = d)).
  - intros [= <-]. lia.
  - intros Hk. apply IH in Hk. lia.
Qed.

Lemma indexOfFrom_first c s : forall rest i,
  allChars (fun d => negb (bool_decide (d = c))) s = true ->
  indexOfFrom c (s ++ String c rest) i = Some (i + String.length s)%nat.
Proof.
  induction s as [|d s IH]; intros rest i; simpl.
  - intros _. rewrite bool_decide_eq_true_2 by done. f_equal. lia.
  - intros [Hd Hs]%andb_prop. apply negb_true_iff, bool_decide_eq_false in Hd.
    rewrite bool_decide_eq_false_2 by congruence. rewrite IH by done. f_equal. lia.
Qed.

Lemma dropString_app pre : forall s off,
  dropString (String.length pre + off) (pre ++ s) = dropString off s.
Proof. induction pre as [|c pre IH]; intros s off; simpl; [done|]. apply IH. Qed.

Lemma dropString_length n : forall s,
  String.length (dropString n s) = (String.length s - n)%nat.
Proof.
  induction n as [|n IH]; intros s; simpl; [lia|].
  destruct s as [|c s]; simpl; [done|]. apply IH.
Qed.

Lemma string_length_app (a b : string) :
  String.length (a ++ b) = (String.length a + String.length b)%nat.
Proof. induction a as [|c a IH]; simpl; [done|]. by rewrite IH. Qed.

Lemma indexIn_shift pre s off :
  indexIn (pre ++ s) (String.length pre + off) = indexIn s off.
Proof.
  unfold indexIn. rewrite string_length_app, dropString_app.
  destruct (off <=? String.length s)%nat eqn:E.
  - apply Nat.leb_le in E. rewrite (proj2 (Nat.leb_le _ _)) by lia. done.
  - apply Nat.leb_gt in E. rewrite (proj2 (Nat.leb_gt _ _)) by lia. done.
Qed.

Lemma indexOf_shift c pre s off :
  indexOf c (pre ++ s) (String.length pre + off)
  = (fun k => String.length pre + k)%nat <$> indexOf c s off.
Proof. unfold indexOf. rewrite dropString_app. apply indexOfFrom_shift. Qed.

Lemma indexOf_bounds c s off k :
  (off <= String.length s)%nat -> indexOf c s off = Some k ->
  (off <= k < String.length s)%nat.
Proof.
  unfold indexOf. intros Hle Hk. apply indexOfFrom_bounds in Hk.
  rewrite dropString_length in Hk. lia.
Qed.

Lemma indexIn_bound s off r : indexIn s off = Some r -> (off <= String.length s)%nat.
Proof.
  unfold indexIn. destruct (off <=? String.length s)%nat eqn:E; [|done].
  intros _. by apply Nat.leb_le.
Qed.

Lemma parse_loop_step n input offset (changes : gmap Property QVariant) :
  parse_loop (S n) input offset changes =
  match indexIn input offset with
  | None => changes
  | Some (cap1, cap2) =>
      let changes' := <[lookupByName cap1 := VString cap2]> changes in
      match indexOf ";" input offset with
      | None => changes'
      | Some i => parse_loop n input (S i) changes'
      end
  end.
Proof. reflexivity. Qed.

Lemma parse_loop_shift pre s : forall n off c,
  parse_loop n (pre ++ s) (String.length pre + off) c = parse_loop n s off c.
Proof.
  induction n as [|n IH]; intros off c; cbn [parse_loop]; [done|].
  rewrite indexIn_shift. destruct (indexIn s off) as [[cap1 cap2]|]; [|done].
  rewrite indexOf_shift. destruct (indexOf ";" s off) as [i|]; cbn [fmap option_fmap option_map]; [|done].
  replace (S (String.length pre + i)) with (String.length pre + S i)%nat by lia.
  apply IH.
Qed.

Lemma parse_loop_fuel s : forall n n' off c,
  (String.length s - off < n)%nat -> (String.length s - off < n')%nat ->
  parse_loop n s off c = parse_loop n' s off c.
Proof.
  induction n as [|n IH]; intros n' off c Hn Hn'; [lia|].
  destruct n' as [|n']; [lia|]. cbn [parse_loop].
  destruct (indexIn s off) as [[cap1 cap2]|] eqn:E; [|done].
  apply indexIn_bound in E.
  destruct (indexOf ";" s off) as [i|] eqn:Ei; [|done].
  apply indexOf_bounds in Ei; [|done].
  apply IH; lia.
Qed.

Lemma parse_loop_acc s : forall n off (c : gmap Property QVariant),
  parse_loop n s off c = parse_loop n s off ∅ ∪ c.
Proof.
  induction n as [|n IH]; intros off c; cbn [parse_loop].
  - by rewrite (left_id_L ∅ (∪)).
  - destruct (indexIn s off) as [[cap1 cap2]|]; [|by rewrite (left_id_L ∅ (∪))].
    destruct (indexOf ";" s off) as [i|].
    + rewrite (IH _ (<[_ := _]> c)), (IH _ (<[_ := _]> ∅)).
      rewrite <- (assoc_L (∪)). f_equal.
      by rewrite <- insert_union_l, (left_id_L ∅ (∪)).
    + by rewrite <- insert_union_l, (left_id_L ∅ (∪)).
Qed.

Lemma parse_loop_values (Q : QVariant -> Prop) s :
  (forall cap1 cap2 t, matchHere t = Some (cap1, cap2) -> Q (VString cap2)) ->
  forall n off (c : gmap Property QVariant),
  (forall X v, c !! X = Some v -> Q v) ->
  forall X v, parse_loop n s off c !! X = Some v -> Q v.
Proof.
  intros HQ. induction n as [|n IH]; intros off c Hc X v; cbn [parse_loop]; [apply Hc|].
  destruct (indexIn s off) as [[cap1 cap2]|] eqn:E; [|apply Hc].
  assert (Hc' : forall X v, <[lookupByName cap1 := VString cap2]> c !! X = Some v -> Q v).
  { intros Y w. destruct (decide (Y = lookupByName cap1)) as [->|Hne].
    - rewrite lookup_insert_eq. intros [= <-].
      unfold indexIn in E. destruct (off <=? String.length s)%nat; [|done].
      apply searchFrom_spec in E as (pre & t & _ & Ht). by eapply HQ.
    - rewrite lookup_insert_ne by done. apply Hc. }
  destruct (indexOf ";" s off) as [i|]; [by apply IH|apply Hc'].
Qed.

(** X2. Every value of the table that [ProfileCommandParser::parse]
    returns is a string, is not empty and holds no semicolon. *)
Theorem parse_values input X v :
  parse input !! X = Some v ->
  exists s, v = VString s /\ s <> "" /\ allChars notSemicolon s = true.
Proof.
  unfold parse.
  apply (parse_loop_values
           (fun v => exists s, v = VString s /\ s <> "" /\ allChars notSemicolon s = true)).
  - intros cap1 cap2 t Ht. apply matchHere_spec in Ht as (_ & _ & ? & ? & _). eauto.
  - intros Y w. by rewrite lookup_empty.
Qed.

Lemma searchFrom_here s r : matchHere s = Some r -> searchFrom s = Some r.
Proof. intros E. destruct s; cbn [searchFrom]; by rewrite E. Qed.

Lemma matchHere_assignment name value tl :
  name <> "" -> allChars isLetter name = true ->
  value <> "" -> allChars notSemicolon value = true ->
  match tl with String c _ => c = ";"%char | EmptyString => True end ->
  matchHere (name ++ "=" ++ value ++ tl) = Some (name, value).
Proof.
  intros Hn Hl Hv Hs Htl. unfold matchHere.
  rewrite (span_all isLetter name ("=" ++ value ++ tl)) by done.
  destruct name as [|c name]; [done|].
  change ("=" ++ value ++ tl)%string with (String "=" (value ++ tl)).
  cbv iota beta.
  rewrite (span_all notSemicolon value tl); [by destruct value| done |].
  destruct tl as [|d tl]; [done|]. by subst d.
Qed.

Lemma assignment_no_semicolon name value :
  allChars isLetter name = true -> allChars notSemicolon value = true ->
  allChars (fun d => negb (bool_decide (d = ";"%char))) (name ++ "=" ++ value) = true.
Proof.
  intros Hl Hv. rewrite allChars_app. apply andb_true_intro. split.
  - eapply allChars_impl; [|exact Hl]. apply isLetter_notSemicolon.
  - exact Hv.
Qed.

(** X3. For a name of one or more letters and a value of one or more
    characters other than the semicolon, [parse] of name=value is the table
    with the one entry that maps [lookupByName name] to the value as a
    string. *)
Theorem parse_single name value :
  name <> "" -> allChars isLetter name = true ->
  value <> "" -> allChars notSemicolon value = true ->
  parse (name ++ "=" ++ value) = {[ lookupByName name := VString value ]}.
Proof.
  intros Hn Hl Hv Hs. unfold parse. cbn [parse_loop].
  unfold indexIn. cbn [Nat.leb dropString].
  pose proof (matchHere_assignment name value "" Hn Hl Hv Hs I) as Hm.
  rewrite string_app_nil_r in Hm. rewrite (searchFrom_here _ _ Hm).
  unfold indexOf. cbn [dropString].
  rewrite indexOfFrom_None by (by apply assignment_no_semicolon).
  by rewrite insert_empty.
Qed.

(** X4. [parse] reads a list of assignments from left to right: for a
    first assignment name=value as in X3, followed by a semicolon and any
    rest, the result holds the entries of [parse rest], and the entry of the
    first assignment unless the rest assigns the same property (a later
    assignment wins). *)
Theorem parse_sequence name value rest :
  name <> "" -> allChars isLetter name = true ->
  value <> "" -> allChars notSemicolon value = true ->
  parse (name ++ "=" ++ value ++ ";" ++ rest)
  = parse rest ∪ {[ lookupByName name := VString value ]}.
Proof.
  intros Hn Hl Hv Hs. unfold parse.
  set (seg := (name ++ "=" ++ value)%string).
  set (input := (name ++ "=" ++ value ++ ";" ++ rest)%string).
  assert (Ein : input = (seg ++ String ";" rest)%string).
  { unfold input, seg. by rewrite !string_app_assoc. }
  assert (Epre : input = ((seg ++ ";") ++ rest)%string).
  { rewrite Ein. by rewrite !string_app_assoc. }
  assert (Hidx : indexOf ";" input 0 = Some (String.length seg)).
  { unfold indexOf. cbn [dropString]. rewrite Ein.
    rewrite indexOfFrom_first by (by apply assignment_no_semicolon). done. }
  assert (Hshift : forall n c, parse_loop n input (S (String.length seg)) c
                               = parse_loop n rest 0 c).
  { intros n c. rewrite Epre.
    replace (S (String.length seg)) with (String.length (seg ++ ";") + 0)%nat
      by (rewrite string_length_app; simpl; lia).
    apply parse_loop_shift. }
  assert (Hlen : String.length input = (S (String.length seg) + String.length rest)%nat).
  { rewrite Epre, !string_length_app. simpl. lia. }
  rewrite (parse_loop_step (String.length input) input).
  unfold indexIn at 1. cbn [Nat.leb dropString].
  rewrite (searchFrom_here input (name, value))
    by (by apply (matchHere_assignment name value (";" ++ rest))).
  rewrite Hidx, Hshift.
  rewrite parse_loop_acc, insert_empty. f_equal.
  apply parse_loop_fuel; lia.
Qed.

Lemma matchHere_no_equals s : allChars notEquals s = true -> matchHere s = None.
Proof.
  intros Hs. unfold matchHere. destruct (span isLetter s) as [a b] eqn:E.
  apply span_spec in E as (-> & _ & _). rewrite allChars_app in Hs.
  apply andb_prop in Hs as [_ Hb].
  destruct a; [done|]. destruct b as [|e b]; [done|].
  simpl in Hb. apply andb_prop in Hb as [He _].
  destruct e as [[] [] [] [] [] [] [] []]; try done.
Qed.

Lemma searchFrom_no_equals s : allChars notEquals s = true -> searchFrom s = None.
Proof.
  induction s as [|c s IH]; intros Hs.
  - done.
  - cbn [searchFrom]. rewrite matchHere_no_equals by done.
    simpl in Hs. apply andb_prop in Hs as [_ Hs]. by apply IH.
Qed.

Lemma allChars_dropString P n : forall s,
  allChars P s = true -> allChars P (dropString n s) = true.
Proof.
  induction n as [|n IH]; intros s Hs; [done|].
  destruct s as [|c s]; [done|]. simpl in *. apply andb_prop in Hs as [_ Hs]. by apply IH.
Qed.

(** X5. An input without an equals sign holds no assignment: [parse]
    returns the empty table. *)
Theorem parse_no_equals input :
  allChars notEquals input = true -> parse input = ∅.
Proof.
  intros Hs. unfold parse. cbn [parse_loop]. unfold indexIn. cbn [Nat.leb dropString].
  by rewrite searchFrom_no_equals.
Qed.

Section CloneAll.
Context `{Platform}.
Variables (fuel : nat) (this profile : Ptr).


Lemma clone_all_inv_shape h h' :
  same_shape h h' -> clone_all_inv fuel this profile h -> clone_all_inv fuel this profile h'.
Proof.
  intros Hs [? ?]. unfold clone_all_inv.
  by rewrite (same_shape_chain_ok _ _ Hs), (same_shape_group_ok _ _ Hs).
Qed.

Lemma clone_all_entry h info :
  clone_all_inv fuel this profile h ->
  exists h' other,
    clone_entry fuel this profile false (Some h) info = Some h'
    /\ property fuel h profile (info_property info) = Some other
    /\ same_shape h h'
    /\ (forall q Y, Y <> info_property info -> localValue h' q Y = localValue h q Y)
    /\ (canInheritProperty (info_property info) = false -> h' = h)
    /\ (canInheritProperty (info_property info) = true ->
          localValue h' this (info_property info) = Some other
          /\ property fuel h' profile (info_property info) = Some other).
Proof.
  intros [Cp Gt]. rewrite clone_entry_unfold. set (X := info_property info).
  destruct (chain_ok_property _ _ _ X Cp) as [other Ho]. rewrite Ho. cbn [mbind option_bind].
  destruct (canInheritProperty X) eqn:HX.
  - destruct (setProperty_returns fuel h this X other Gt) as [h' Hs].
    exists h', other. split; [done|]. split; [done|].
    pose proof (setProperty_only_wrote _ _ _ _ _ _ Hs) as Hw.
    split; [apply Hw|]. split.
    { intros q Y HY. destruct Hw as [_ Hl]. destruct (Hl q Y) as [?|[? _]]; [done|congruence]. }
    split; [done|]. intros _. split.
    + destruct (group_ok_lookup _ _ _ Gt) as [o Hp].
      by eapply setProperty_written, blocked_inheritable.
    + by eapply property_overwrite.
  - exists h, other. split; [done|]. split; [done|]. split; [apply same_shape_refl|].
    split; [done|]. split; [done|]. done.
Qed.

Lemma clone_all_loop : forall (l : list PropertyInfo) h,
  clone_all_inv fuel this profile h ->
  exists h', foldl (clone_entry fuel this profile false) (Some h) l = Some h'
    /\ same_shape h h'
    /\ (forall q Y, Y ∉ map info_property l -> localValue h' q Y = localValue h q Y)
    /\ (forall q Y, canInheritProperty Y = false -> localValue h' q Y = localValue h q Y)
    /\ (forall X, X ∈ map info_property l -> canInheritProperty X = true ->
          exists v, property fuel h profile X = Some v
            /\ localValue h' this X = Some v
            /\ property fuel h' profile X = Some v).
Proof.
  induction l as [|info l IH]; intros h Hinv.
  { exists h. split; [done|]. split; [apply same_shape_refl|]. split; [done|]. split; [done|].
    intros X HX. by apply elem_of_nil in HX. }
  destruct (clone_all_entry h info Hinv) as (h1 & other & E1 & Ho & S1 & F1 & N1 & W1).
  destruct (IH h1 (clone_all_inv_shape _ _ S1 Hinv)) as (h' & E' & S' & F' & N' & P').
  exists h'. cbn [foldl]. rewrite E1. split; [done|]. split; [by eapply same_shape_trans|].
  split.
  { intros q Y HY. cbn [map] in HY. apply not_elem_of_cons in HY as [HY1 HY2].
    rewrite F' by done. by apply F1. }
  split.
  { intros q Y HY. rewrite N' by done.
    destruct (decide (Y = info_property info)) as [->|Hne]; [by rewrite N1|by apply F1]. }
  intros X HX HcX. cbn [map] in HX.
  destruct (decide (X ∈ map info_property l)) as [Hin|Hnin].
  - destruct (P' X Hin HcX) as (v & Hv1 & Hl & Hv').
    exists v. split; [|done].
    destruct (decide (X = info_property info)) as [->|Hne].
    + destruct (W1 HcX) as [_ Hp1]. congruence.
    + rewrite <- Hv1. symmetry. apply property_frame; [done|]. intros q. by apply F1.
  - apply elem_of_cons in HX as [->|HX]; [|done].
    destruct (W1 HcX) as [Hl1 Hp1]. exists other. split; [done|]. split.
    + by rewrite F'.
    + rewrite (property_frame h1 h' _ S' (fun q => F' q _ Hnin)). done.
Qed.

End CloneAll.

(** X6. [Profile::clone] with [differentOnly = false], when the source's
    parent chain ends and the receiver's groups nest within the fuel: the
    call returns; no object gains or loses a parent, a group or its hidden
    flag; no object's local [Name] or [Path] changes; and for every other
    property the receiver now stores locally the value the source resolved
    to, which the source still resolves to afterwards. *)
Theorem clone_all `{Platform} (fuel : nat) (h : Heap) (this profile : Ptr) :
  chain_ok fuel h profile = true -> group_ok fuel h this = true ->
  exists h', clone fuel h this profile false = Some h'
    /\ same_shape h h'
    /\ (forall q, localValue h' q Name = localValue h q Name
                  /\ localValue h' q Path = localValue h q Path)
    /\ (forall X, X <> Name -> X <> Path ->
          exists v, property fuel h profile X = Some v
            /\ localValue h' this X = Some v
            /\ property fuel h' profile X = Some v).
Proof.
  intros Cp Gt.
  destruct (clone_all_loop fuel this profile DefaultPropertyNames h) as (h' & E & S & _ & N & P).
  { by split. }
  exists h'. split; [exact E|]. split; [exact S|]. split.
  - intros q. split; by apply N.
  - intros X HN HP. apply P; [apply tableProperties_complete|].
    by apply canInheritProperty_true.
Qed.

Section CloneMinimal.
Context `{Platform}.
Variables (fuel : nat) (this profile : Ptr) (X : Property).

Lemma clone_minimal_loop : forall (l : list PropertyInfo) h,
  clone_inv fuel this profile h ->
  property fuel h this X = property fuel h profile X ->
  exists h', foldl (clone_entry fuel this profile true) (Some h) l = Some h'
    /\ same_shape h h'
    /\ forall q, localValue h' q X = localValue h q X.
Proof.
  induction l as [|info l IH]; intros h Hinv Heq.
  { exists h. split; [done|]. split; [apply same_shape_refl|]. done. }
  cbn [foldl].
  destruct (decide (info_property info = X)) as [HX|HX].
  - (* the entry for X itself: nothing is written *)
    assert (E1 : clone_entry fuel this profile true (Some h) info = Some h).
    { rewrite clone_entry_unfold, HX. destruct Hinv as (Ct & Cp & _).
      destruct (chain_ok_property _ _ _ X Cp) as [other Ho]. rewrite Ho.
      cbn [mbind option_bind]. destruct (canInheritProperty X); [|done].
      rewrite Heq, Ho. cbn [mbind option_bind].
      by rewrite QVariant_neqb_refl. }
    rewrite E1. by apply IH.
  - destruct (clone_entry_spec fuel this profile h info Hinv) as (h1 & E1 & S1 & F1 & _).
    rewrite E1.
    assert (Hfr : forall p, property fuel h1 p X = property fuel h p X).
    { intros p. apply property_frame; [done|]. intros q. apply F1. congruence. }
    destruct (IH h1) as (h' & E' & S' & F').
    + by eapply clone_inv_shape.
    + by rewrite !Hfr.
    + exists h'. split; [done|]. split; [by eapply same_shape_trans|].
      intros q. rewrite F'. apply F1. congruence.
Qed.

End CloneMinimal.

(** X7. [Profile::clone] with [differentOnly = true] writes no needless
    override: a property for which receiver and source resolve to the same
    value before the call has the same local value (or none) in every object
    after it. *)
Theorem clone_differentOnly_minimal `{Platform} (fuel : nat) (h : Heap)
  (this profile : Ptr) (X : Property) :
  chain_ok fuel h this = true -> chain_ok fuel h profile = true ->
  group_ok fuel h this = true ->
  property fuel h this X = property fuel h profile X ->
  exists h', clone fuel h this profile true = Some h'
    /\ forall q, localValue h' q X = localValue h q X.
Proof.
  intros Ct Cp Gt Heq.
  destruct (clone_minimal_loop fuel this profile X DefaultPropertyNames h) as (h' & E & _ & F).
  { by repeat split. }
  { done. }
  exists h'. by split.
Qed.

Lemma property_insert_other h g og vals X :
  h !! g = Some og -> noChildren h g ->
  forall fuel p, p <> g ->
    property fuel (<[g := with_values og vals]> h) p X = property fuel h p X.
Proof.
  intros Hg Hno. induction fuel as [|n IH]; intros p Hp; [done|]. cbn [property].
  rewrite list_lookup_insert_ne by done.
  destruct (h !! p) as [o|] eqn:Ho; [|done].
  destruct (_propertyValues o !! X); [done|].
  destruct (_parent o) as [q|] eqn:Hq; [|done].
  destruct (canInheritProperty X); [|done]. apply IH.
  intros ->. by apply (Hno p o Ho).
Qed.

Section ScanMembers.
Context `{Platform}.

Lemma scanMembers_insert_other h g og vals X fuel : forall ms value,
  h !! g = Some og -> noChildren h g -> g ∉ ms ->
  scanMembers fuel (<[g := with_values og vals]> h) X value ms
  = scanMembers fuel h X value ms.
Proof.
  induction ms as [|m ms IH]; intros value Hg Hno Hin; [done|].
  apply not_elem_of_cons in Hin as [Hne Hin]. cbn [scanMembers].
  rewrite (property_insert_other h g og vals X Hg Hno fuel m) by done.
  destruct (property fuel h m X) as [pv|]; [|done]. cbn [mbind option_bind].
  rewrite !IH by done. done.
Qed.

Lemma scanMembers_is_Some fuel h X : forall ms value,
  forallb (chain_ok fuel h) ms = true -> is_Some (scanMembers fuel h X value ms).
Proof.
  induction ms as [|m ms IH]; intros value Hall; [by eexists|].
  cbn [forallb] in Hall. apply andb_true_iff in Hall as [Hm Hms]. cbn [scanMembers].
  destruct (chain_ok_property _ _ _ X Hm) as [pv ->]. cbn [mbind option_bind].
  destruct (isNull value); [by apply IH|].
  destruct (QVariant_neqb value pv); [by eexists|by apply IH].
Qed.

(** All members resolve to the same value. *)
Lemma scanMembers_agree fuel h X v : forall ms value,
  (forall m, m ∈ ms -> property fuel h m X = Some v) ->
  value = VInvalid \/ value = v ->
  scanMembers fuel h X value ms = Some (match ms with [] => value | _ => v end).
Proof.
  induction ms as [|m ms IH]; intros value Hall Hval; [done|].
  cbn [scanMembers]. rewrite (Hall m) by (by left). cbn [mbind option_bind].
  assert (Hrest : forall m', m' ∈ ms -> property fuel h m' X = Some v)
    by (intros m' Hm'; apply Hall; by right).
  destruct Hval as [-> | ->].
  - cbn [isNull]. rewrite (IH v Hrest) by (by right). by destruct ms.
  - rewrite QVariant_neqb_refl.
    destruct (isNull v); rewrite (IH v Hrest) by (by right); by destruct ms.
Qed.

(** Members that resolve to the invalid variant before any other value
    are passed over. *)
Lemma scanMembers_skip fuel h X post : forall pre,
  (forall m, m ∈ pre -> property fuel h m X = Some VInvalid) ->
  scanMembers fuel h X VInvalid (pre ++ post) = scanMembers fuel h X VInvalid post.
Proof.
  induction pre as [|m pre IH]; intros Hall; [done|].
  cbn [app scanMembers]. rewrite (Hall m) by (by left). cbn [mbind option_bind isNull].
  apply IH. intros m' Hm'. apply Hall. by right.
Qed.

(** The candidate is not null and every later value compares equal to it. *)
Lemma scanMembers_equal fuel h X v : forall ms,
  isNull v = false ->
  (forall m, m ∈ ms -> exists w, property fuel h m X = Some w /\ QVariant_eqb v w = true) ->
  scanMembers fuel h X v ms = Some v.
Proof.
  induction ms as [|m ms IH]; intros Hv Hall; [done|].
  cbn [scanMembers]. destruct (Hall m) as (w & Hw & Heq); [by left|].
  rewrite Hw. cbn [mbind option_bind]. rewrite Hv. unfold QVariant_neqb. rewrite Heq.
  cbn [negb]. apply IH; [done|]. intros m' Hm'. apply Hall. by right.
Qed.

(** The candidate is not null and a later value compares unequal to it. *)
Lemma scanMembers_differ fuel h X v : forall ms,
  isNull v = false ->
  forallb (chain_ok fuel h) ms = true ->
  (exists m w, m ∈ ms /\ property fuel h m X = Some w /\ QVariant_neqb v w = true) ->
  scanMembers fuel h X v ms = Some VInvalid.
Proof.
  induction ms as [|m ms IH]; intros Hv Hall (m' & w & Hin & Hw & Hne).
  { by apply elem_of_nil in Hin. }
  cbn [forallb] in Hall. apply andb_true_iff in Hall as [Hm Hms].
  cbn [scanMembers]. destruct (chain_ok_property _ _ _ X Hm) as [pv Hpv]. rewrite Hpv.
  cbn [mbind option_bind]. rewrite Hv.
  destruct (QVariant_neqb v pv) eqn:Hd; [done|].
  apply IH; [done|done|]. apply elem_of_cons in Hin as [->|Hin].
  - congruence.
  - by exists m', w.
Qed.

End ScanMembers.

Section UpdateValues.
Context `{Platform}.
Variables (fuel : nat) (g : Ptr) (og : ProfileObj) (ms : list Ptr) (h : Heap).
Hypothesis Hg : h !! g = Some og.
Hypothesis Hms : _group og = Some ms.
Hypothesis Hno : noChildren h g.
Hypothesis Hin : g ∉ ms.
Hypothesis Hall : forallb (chain_ok fuel h) ms = true.

Lemma updateValues_loop : forall (l : list PropertyInfo) (vals : gmap Property QVariant),
  exists vals',
    foldl (updateValues_entry fuel g) (Some (<[g := with_values og vals]> h)) l
    = Some (<[g := with_values og vals']> h)
    /\ (forall X, X ∉ map info_property l -> vals' !! X = vals !! X)
    /\ (forall X, bool_decide (1 < length ms)%nat && negb (canInheritProperty X) = true ->
          vals' !! X = vals !! X)
    /\ (forall X, X ∈ map info_property l ->
          bool_decide (1 < length ms)%nat && negb (canInheritProperty X) = false ->
          vals' !! X = scanMembers fuel h X VInvalid ms).
Proof.
  assert (Hlt : (g < length h)%nat) by (by eapply lookup_lt_Some).
  induction l as [|info l IH]; intros vals.
  { exists vals. split; [done|]. split; [done|]. split; [done|].
    intros X HX. by apply elem_of_nil in HX. }
  cbn [foldl]. unfold updateValues_entry at 2. cbn [mbind option_bind].
  rewrite list_lookup_insert_eq by done. cbn [mbind option_bind _group with_values].
  rewrite Hms. cbn [mbind option_bind].
  set (X0 := info_property info).
  destruct (bool_decide (1 < length ms)%nat && negb (canInheritProperty X0)) eqn:Hb.
  - destruct (IH vals) as (vals' & E & F & B & V). exists vals'. split; [done|].
    split; [|split; [done|]].
    + intros X HX. cbn [map] in HX. apply not_elem_of_cons in HX as [_ HX]. by apply F.
    + intros X HX HbX. cbn [map] in HX. apply elem_of_cons in HX as [->|HX]; [|by apply V].
      fold X0 in HbX. congruence.
  - rewrite (scanMembers_insert_other h g og vals X0 fuel ms VInvalid Hg Hno Hin).
    destruct (scanMembers_is_Some fuel h X0 ms VInvalid Hall) as [value Hval].
    rewrite Hval. cbn [mbind option_bind]. unfold Profile_setProperty.
    rewrite list_lookup_insert_eq by done. cbn [mbind option_bind].
    rewrite list_insert_insert_eq.
    change (with_values (with_values og vals)
              (<[X0:=value]> (_propertyValues (with_values og vals))))
      with (with_values og (<[X0:=value]> vals)).
    destruct (IH (<[X0:=value]> vals)) as (vals' & E & F & B & V). exists vals'.
    split; [done|]. split; [|split].
    + intros X HX. cbn [map] in HX. apply not_elem_of_cons in HX as [HX0 HX].
      rewrite F by done. by apply lookup_insert_ne.
    + intros X HbX. rewrite B by done. apply lookup_insert_ne. intros <-. congruence.
    + intros X HX HbX. cbn [map] in HX.
      destruct (decide (X ∈ map info_property l)) as [Hl|Hl]; [by apply V|].
      apply elem_of_cons in HX as [->|HX]; [|done].
      rewrite F by done. fold X0. by rewrite lookup_insert_eq.
Qed.

End UpdateValues.

(** X8. [ProfileGroup::updateValues] on a group [g] that is nobody's
    parent and not its own member, with members whose parent chains end: the
    call returns and changes only the values stored in [g].  With more than
    one member the entries of [Name] and [Path] stay as they were.  For every
    other property (for every property, when there is at most one member):
    with no member the group stores the invalid variant; if the members
    resolve to the invalid variant up to some point and all to one value
    from there on, the group stores that value; if the first member
    resolves to a value that is not null (neither the invalid variant nor an
    empty text, which may be a null [QString]), the group stores that value
    when the value of every later member compares equal to it, and the
    invalid variant when the value of some later member compares unequal
    to it, in both cases by [QVariant]'s comparison with the first value
    on the left. *)
Theorem updateValues_spec `{Platform} (fuel : nat) (h : Heap) (g : Ptr)
  (og : ProfileObj) (ms : list Ptr) :
  h !! g = Some og -> _group og = Some ms ->
  noChildren h g -> g ∉ ms ->
  forallb (chain_ok fuel h) ms = true ->
  exists vals',
    updateValues fuel h g = Some (<[g := with_values og vals']> h)
    /\ (forall X, (1 < length ms)%nat -> X = Name \/ X = Path ->
          vals' !! X = _propertyValues og !! X)
    /\ (forall X, ms = [] -> vals' !! X = Some VInvalid)
    /\ (forall X v pre post, ((length ms <= 1)%nat \/ (X <> Name /\ X <> Path)) ->
          ms = pre ++ post -> post <> [] ->
          (forall m, m ∈ pre -> property fuel h m X = Some VInvalid) ->
          (forall m, m ∈ post -> property fuel h m X = Some v) ->
          vals' !! X = Some v)
    /\ (forall X m1 rest v, ((length ms <= 1)%nat \/ (X <> Name /\ X <> Path)) ->
          ms = m1 :: rest -> property fuel h m1 X = Some v ->
          isNull v = false -> v <> VString "" ->
          (forall m, m ∈ rest ->
             exists w, property fuel h m X = Some w /\ QVariant_eqb v w = true) ->
          vals' !! X = Some v)
    /\ (forall X m1 rest v, ((length ms <= 1)%nat \/ (X <> Name /\ X <> Path)) ->
          ms = m1 :: rest -> property fuel h m1 X = Some v ->
          isNull v = false -> v <> VString "" ->
          (exists m w, m ∈ rest /\ property fuel h m X = Some w
                       /\ QVariant_neqb v w = true) ->
          vals' !! X = Some VInvalid).
Proof.
  intros Hg Hms Hno Hin Hall.
  destruct (updateValues_loop fuel g og ms h Hg Hms Hno Hin Hall DefaultPropertyNames
              (_propertyValues og)) as (vals' & E & _ & B & V).
  exists vals'. split.
  { unfold updateValues. rewrite <- E. do 2 f_equal. symmetry.
    apply list_insert_id. rewrite Hg. by destruct og. }
  assert (Hnb : forall X, ((length ms <= 1)%nat \/ (X <> Name /\ X <> Path)) ->
            bool_decide (1 < length ms)%nat && negb (canInheritProperty X) = false).
  { intros X [Hl|HX].
    - rewrite bool_decide_eq_false_2 by lia. done.
    - rewrite (proj2 (canInheritProperty_true X)) by done. apply andb_false_r. }
  split; [|split; [|split; [|split]]].
  - intros X Hl HX. apply B. rewrite bool_decide_eq_true_2 by done.
    by rewrite (proj2 (canInheritProperty_false X)).
  - intros X ->. rewrite V; [done|apply tableProperties_complete|done].
  - intros X v pre post Hc -> Hne Hpre Hpost.
    rewrite V; [|apply tableProperties_complete|by apply Hnb].
    rewrite scanMembers_skip by done.
    rewrite (scanMembers_agree fuel h X v post VInvalid) by (done || by left).
    by destruct post.
  - intros X m1 rest v Hc -> Hv1 Hv _ Heq.
    rewrite V; [|apply tableProperties_complete|by apply Hnb].
    cbn [scanMembers]. rewrite Hv1. cbn [mbind option_bind isNull].
    by apply scanMembers_equal.
  - intros X m1 rest v Hc -> Hv1 Hv _ Hd.
    rewrite V; [|apply tableProperties_complete|by apply Hnb].
    cbn [scanMembers]. rewrite Hv1. cbn [mbind option_bind isNull].
    cbn [forallb] in Hall. apply andb_true_iff in Hall as [_ Hall].
    by apply scanMembers_differ.
Qed.

Lemma rev_app_spec a : forall b c,
  String.rev_app (a ++ b) c = String.rev_app b (String.rev_app a c).
Proof. induction a as [|x a IH]; intros b c; [done|]. rewrite string_app_cons. cbn [String.rev_app]. apply IH. Qed.

Lemma rev_app_append a : forall c, String.rev_app a c = (String.rev a ++ c)%string.
Proof.
  unfold String.rev. induction a as [|x a IH]; intros c; [done|].
  cbn [String.rev_app]. rewrite (IH (String x c)), (IH (String x "")).
  by rewrite string_app_assoc.
Qed.

Lemma string_rev_app a b : String.rev (a ++ b) = (String.rev b ++ String.rev a)%string.
Proof. unfold String.rev at 1. rewrite rev_app_spec. by rewrite rev_app_append. Qed.

Lemma endsWith_app a suf : endsWith (a ++ suf) suf = true.
Proof. unfold endsWith. rewrite string_rev_app. apply prefix_app. Qed.

Lemma endsWith_profile_desktop a : endsWith (a ++ ".profile") ".desktop" = false.
Proof. unfold endsWith. rewrite string_rev_app. reflexivity. Qed.

Lemma splitLast_spec c s : forall a b,
  splitLast c s = Some (a, b) -> s = (a ++ String c b)%string.
Proof.
  induction s as [|d r IH]; intros a b; cbn [splitLast]; [done|].
  destruct (splitLast c r) as [[a' b']|].
  - intros [= <- <-]. rewrite string_app_cons. f_equal. by apply IH.
  - destruct (bool_decide (d = c)) eqn:E; [|done]. apply bool_decide_eq_true in E.
    intros [= <- <-]. by subst.
Qed.

Lemma splitLast_head c r a b :
  splitLast c (String c r) = Some (a, b) -> a = "" \/ exists a', a = String c a'.
Proof.
  cbn [splitLast]. destruct (splitLast c r) as [[a' b']|].
  - intros [= <- <-]. eauto.
  - rewrite bool_decide_eq_true_2 by done. intros [= <- <-]. by left.
Qed.

Lemma suffix_profile s :
  QFileInfo_suffix s = "profile" -> exists a, s = (a ++ ".profile")%string.
Proof.
  unfold QFileInfo_suffix, QFileInfo_fileName.
  destruct (splitLast "/" s) as [[d f]|] eqn:Ed.
  - apply splitLast_spec in Ed. destruct (splitLast "." f) as [[a e]|] eqn:Ef; [|done].
    apply splitLast_spec in Ef. intros ->. subst. exists (d ++ "/" ++ a)%string.
    by rewrite !string_app_assoc.
  - destruct (splitLast "." s) as [[a e]|] eqn:Ef; [|done].
    apply splitLast_spec in Ef. intros ->. subst. by exists a.
Qed.

Section Resolve.
Context `{Platform}.

(** X9. The file name [SessionManager::loadProfile] works with always ends
    in .profile and never in .desktop: an absolute path is used as it is
    when its suffix is profile and gets .profile appended otherwise, so for
    an absolute path the branch for .desktop files is never taken; for a
    relative path a name that ends in .profile is located among the data
    files. *)
Theorem resolvePath_profile_suffix shortPath :
  exists p,
    endsWith p ".profile" = true /\ endsWith p ".desktop" = false
    /\ resolvePath shortPath
       = (if QFileInfo_isAbsolute shortPath then p else locate p)
    /\ (QFileInfo_isAbsolute shortPath = true ->
        p = if bool_decide (QFileInfo_suffix shortPath = "profile")
            then shortPath else (shortPath ++ ".profile")%string).
Proof.
  unfold resolvePath.
  set (p0 := if bool_decide (QFileInfo_suffix shortPath ≠ "profile")
             then (shortPath ++ ".profile")%string else shortPath).
  assert (Hp0 : exists a, p0 = (a ++ ".profile")%string).
  { unfold p0. destruct (decide (QFileInfo_suffix shortPath = "profile")) as [E|E].
    - rewrite bool_decide_eq_false_2 by (by intros ?). by apply suffix_profile.
    - rewrite bool_decide_eq_true_2 by done. by exists shortPath. }
  destruct Hp0 as [a Ha].
  destruct (QFileInfo_isAbsolute shortPath) eqn:Habs.
  - assert (Hpath : isEmptyString (QFileInfo_path shortPath)
                    || bool_decide (QFileInfo_path shortPath = ".") = false).
    { unfold QFileInfo_isAbsolute in Habs. destruct shortPath as [|c r]; [done|].
      destruct (ascii_dec c "/") as [->|Hc].
      2:{ destruct c as [[] [] [] [] [] [] [] []]; done. }
      unfold QFileInfo_path. destruct (splitLast "/" (String "/" r)) as [[d f]|] eqn:Ed.
      - apply splitLast_head in Ed as [->|[a' ->]]; done.
      - cbn [splitLast] in Ed. destruct (splitLast "/" r) as [[? ?]|]; done. }
    rewrite Hpath. cbn [negb]. exists p0. rewrite Ha at 1 2.
    split; [apply endsWith_app|]. split; [apply endsWith_profile_desktop|].
    split; [done|]. intros _. unfold p0.
    destruct (decide (QFileInfo_suffix shortPath = "profile")) as [E|E].
    + by rewrite bool_decide_eq_false_2, bool_decide_eq_true_2 by (done || by intros ?).
    + by rewrite bool_decide_eq_true_2, bool_decide_eq_false_2 by done.
  - cbn [negb].
    destruct (isEmptyString (QFileInfo_path shortPath)
              || bool_decide (QFileInfo_path shortPath = ".")).
    + exists ("konsole/" ++ p0)%string. rewrite Ha, <- string_app_assoc.
      split; [apply endsWith_app|]. split; [apply endsWith_profile_desktop|]. done.
    + exists p0. rewrite Ha at 1 2.
      split; [apply endsWith_app|]. split; [apply endsWith_profile_desktop|]. done.
Qed.

End Resolve.

Lemma addProfile_favorites m p : _favorites (addProfile m p) = _favorites m.
Proof. unfold addProfile. by destruct (_profiles m). Qed.
Lemma addProfile_shortcuts m p : _shortcuts (addProfile m p) = _shortcuts m.
Proof. unfold addProfile. by destruct (_profiles m). Qed.
Lemma addProfile_sessions m p : _sessions (addProfile m p) = _sessions m.
Proof. unfold addProfile. by destruct (_profiles m). Qed.
Lemma addProfile_sessionProfiles m p : _sessionProfiles (addProfile m p) = _sessionProfiles m.
Proof. unfold addProfile. by destruct (_profiles m). Qed.
Lemma addProfile_konsolerc m p :
  konsolerc_DefaultProfile (addProfile m p) = konsolerc_DefaultProfile m.
Proof. unfold addProfile. by destruct (_profiles m). Qed.
Lemma addProfile_defaultProfile m p :
  _defaultProfile (addProfile m p)
  = match _profiles m with [] => Some p | _ => _defaultProfile m end.
Proof. unfold addProfile. by destruct (_profiles m). Qed.

Section LoadMore.
Context `{Platform}.

Lemma PopStackOnExit_push m path h :
  PopStackOnExit (length (recursionGuard m))
    (with_heap (with_recursionGuard m (recursionGuard m ++ [path])) h)
  = with_heap m h.
Proof.
  unfold PopStackOnExit, with_heap, with_recursionGuard. cbn.
  by rewrite take_app_length.
Qed.

(** One call whose file does not exist. *)
Lemma loadProfile_missing_step n m shortPath fallbackPath :
  Profile_path (S n) (heap m) (_fallbackProfile m) = Some fallbackPath ->
  shortPath <> fallbackPath ->
  QFileInfo_isDir (disk m) shortPath = false ->
  findLoaded (S n) (heap m) (resolvePath shortPath) (_profiles m) = Some None ->
  resolvePath shortPath ∉ recursionGuard m ->
  endsWith (resolvePath shortPath) ".desktop" = false ->
  fs_files (disk m) !! resolvePath shortPath = None ->
  loadProfile (S n) m shortPath =
    Some (None,
          with_heap m
            (heap m ++ [with_values (new_Profile (Some (_fallbackProfile m)))
                          {[ Path := VString (resolvePath shortPath) ]}])).
Proof.
  intros Hfb Hne Hdir Hfind Hin Hdesk Hfile.
  set (path := resolvePath shortPath) in *. set (newProfile := length (heap m)).
  cbn [loadProfile]. fold path.
  rewrite Hfb. cbn [mbind option_bind].
  rewrite bool_decide_eq_false_2 by done. rewrite Hdir, Hfind. cbn [mbind option_bind].
  rewrite bool_decide_eq_false_2 by done. cbn [recursionGuard with_recursionGuard].
  rewrite Hdesk. unfold alloc. cbn [heap with_recursionGuard _fallbackProfile disk].
  fold newProfile.
  assert (Hnew : (heap m ++ [new_Profile (Some (_fallbackProfile m))]) !! newProfile
                 = Some (new_Profile (Some (_fallbackProfile m)))).
  { unfold newProfile. by rewrite list_lookup_middle. }
  rewrite (setProperty_plain n _ _ _ Path (VString path) Hnew eq_refl).
  cbn [mbind option_bind].
  rewrite readProfile_missing by done.
  cbn [mbind option_bind isEmptyString negb].
  rewrite PopStackOnExit_push. do 3 f_equal.
  unfold newProfile. rewrite insert_app_r_alt by lia. rewrite Nat.sub_diag. simpl.
  by rewrite insert_empty.
Qed.

Lemma loaded_more_refl m : loaded_more m m.
Proof. repeat split; try done. by exists []; rewrite app_nil_r. Qed.

Lemma loaded_more_heap m h ext : h = heap m ++ ext -> loaded_more m (with_heap m h).
Proof. intros ->. repeat split; try done. by exists ext. Qed.

Lemma loaded_more_trans m1 m2 m3 :
  loaded_more m1 m2 -> loaded_more m2 m3 -> _profiles m1 <> [] \/ _profiles m2 = _profiles m1 ->
  loaded_more m1 m3.
Proof.
  intros (D1&F1&S1&SS1&SP1&FB1&K1&G1&[e1 H1]&P1&Df1) (D2&F2&S2&SS2&SP2&FB2&K2&G2&[e2 H2]&P2&Df2) Hp.
  repeat split; try congruence.
  - exists (e1 ++ e2). by rewrite H2, H1, app_assoc.
  - auto.
  - intros Hne. rewrite Df2, Df1; [done|done|].
    intros E. destruct (_profiles m1) as [|q l] eqn:E1; [done|].
    assert (Hq : q ∈ _profiles m2) by (apply P1; by left). rewrite E in Hq. by apply elem_of_nil in Hq.
Qed.

Lemma loaded_more_addProfile m p : loaded_more m (addProfile m p).
Proof.
  unfold loaded_more.
  rewrite addProfile_recursionGuard, addProfile_fallbackProfile,
    addProfile_disk, addProfile_favorites, addProfile_shortcuts,
    addProfile_sessions, addProfile_sessionProfiles, addProfile_konsolerc,
    addProfile_defaultProfile.
  repeat split; try done.
  - rewrite addProfile_heap. by exists []; rewrite app_nil_r.
  - intros q Hq. rewrite addProfile_profiles. by apply QSet_insert_mono.
  - intros Hne. by destruct (_profiles m).
Qed.

Lemma loadProfile_keeps : forall fuel m shortPath r m',
  loadProfile fuel m shortPath = Some (r, m') -> loaded_more m m'.
Proof.
  induction fuel as [|n IH]; intros m shortPath r m' Hload; [done|].
  destruct (Profile_path (S n) (heap m) (_fallbackProfile m)) as [fallbackPath|] eqn:Hfb.
  2:{ cbn [loadProfile] in Hload. by rewrite Hfb in Hload. }
  destruct (decide (shortPath = fallbackPath)) as [Heq|Hne].
  { cbn [loadProfile] in Hload. rewrite Hfb in Hload. cbn [mbind option_bind] in Hload.
    rewrite bool_decide_eq_true_2 in Hload by done. simplify_eq. apply loaded_more_refl. }
  destruct (QFileInfo_isDir (disk m) shortPath) eqn:Hdir.
  { cbn [loadProfile] in Hload. rewrite Hfb in Hload. cbn [mbind option_bind] in Hload.
    rewrite bool_decide_eq_false_2, Hdir in Hload by done. simplify_eq. apply loaded_more_refl. }
  destruct (findLoaded (S n) (heap m) (resolvePath shortPath) (_profiles m)) as [[p|]|] eqn:Hfind.
  { cbn [loadProfile] in Hload. rewrite Hfb in Hload. cbn [mbind option_bind] in Hload.
    rewrite bool_decide_eq_false_2, Hdir, Hfind in Hload by done.
    cbn [mbind option_bind] in Hload. simplify_eq. apply loaded_more_refl. }
  2:{ cbn [loadProfile] in Hload. rewrite Hfb in Hload. cbn [mbind option_bind] in Hload.
      rewrite bool_decide_eq_false_2, Hdir, Hfind in Hload by done. done. }
  destruct (decide (resolvePath shortPath ∈ recursionGuard m)) as [Hin|Hin].
  { rewrite (loadProfile_detects n m shortPath fallbackPath) in Hload by done.
    simplify_eq. apply loaded_more_refl. }
  destruct (endsWith (resolvePath shortPath) ".desktop") eqn:Hdesk.
  { cbn [loadProfile] in Hload. rewrite Hfb in Hload. cbn [mbind option_bind] in Hload.
    rewrite bool_decide_eq_false_2, Hdir, Hfind in Hload by done.
    cbn [mbind option_bind] in Hload.
    rewrite bool_decide_eq_false_2 in Hload by done.
    cbn [recursionGuard with_recursionGuard] in Hload. rewrite Hdesk in Hload.
    simplify_eq.
    change (with_recursionGuard m (recursionGuard m ++ [resolvePath shortPath]))
      with (with_heap (with_recursionGuard m (recursionGuard m ++ [resolvePath shortPath])) (heap m)).
    rewrite PopStackOnExit_push. apply (loaded_more_heap m (heap m) []). by rewrite app_nil_r. }
  destruct (fs_files (disk m) !! resolvePath shortPath) as [config|] eqn:Hfile.
  2:{ rewrite (loadProfile_missing_step n m shortPath fallbackPath) in Hload by done.
      simplify_eq. by eapply loaded_more_heap. }
  rewrite (loadProfile_step n m shortPath fallbackPath config) in Hload by done.
  cbv zeta in Hload.
  set (obj := loadedProfile (_fallbackProfile m) (resolvePath shortPath) config) in *.
  set (m2 := with_heap (with_recursionGuard m (recursionGuard m ++ [resolvePath shortPath]))
               (heap m ++ [obj])) in *.
  destruct (negb (isEmptyString (parentProfileOf config))).
  - destruct (loadProfile n m2 (parentProfileOf config)) as [[pp m'']|] eqn:Hrec; [|done].
    cbn [mbind option_bind] in Hload.
    destruct (setParent (heap m'') (length (heap m)) pp) as [h'|] eqn:Hsp; [|done].
    cbn [mbind option_bind] in Hload. simplify_eq.
    apply IH in Hrec as (D&F&S&SS&SP&FB&K&G&[ext Hh]&P&Df).
    unfold setParent in Hsp. destruct (heap m'' !! length (heap m)) as [o|] eqn:Ho; [|done].
    cbn [mbind option_bind] in Hsp. simplify_eq.
    unfold m2 in *.
    cbn [heap with_heap recursionGuard with_recursionGuard disk _favorites _shortcuts
         _sessions _sessionProfiles _fallbackProfile konsolerc_DefaultProfile _profiles
         _defaultProfile] in *.
    unfold loaded_more.
    rewrite addProfile_recursionGuard, addProfile_fallbackProfile,
      addProfile_disk, addProfile_favorites, addProfile_shortcuts,
      addProfile_sessions, addProfile_sessionProfiles, addProfile_konsolerc,
      addProfile_defaultProfile.
    assert (Hpop : recursionGuard (PopStackOnExit (length (recursionGuard m))
                     (with_heap m'' (<[length (heap m):=with_parent o pp]> (heap m''))))
                   = recursionGuard m).
    { unfold PopStackOnExit. cbn. rewrite G. by rewrite take_app_length. }
    repeat split; try done.
    + rewrite addProfile_heap. cbn. rewrite Hh. exists (with_parent o pp :: ext).
      rewrite <- app_assoc. rewrite insert_app_r_alt by lia. by rewrite Nat.sub_diag.
    + intros q Hq. rewrite addProfile_profiles. apply QSet_insert_mono. cbn. by apply P.
    + intros Hne'. cbn [_profiles PopStackOnExit with_recursionGuard with_heap].
      destruct (_profiles m'') eqn:E.
      * destruct (_profiles m) as [|q l] eqn:E1; [done|].
        assert (Hq : q ∈ @nil Ptr) by (apply P; by left). by apply elem_of_nil in Hq.
      * cbn. by apply Df.
  - cbn [mbind option_bind] in Hload. simplify_eq.
    unfold m2. rewrite PopStackOnExit_push.
    eapply loaded_more_trans; [|apply loaded_more_addProfile|by right].
    by eapply loaded_more_heap.
Qed.

End LoadMore.

Lemma pending_push fs guard path config :
  fs_files fs !! path = Some config -> path ∉ guard ->
  (pending fs (guard ++ [path]) < pending fs guard)%nat.
Proof.
  intros Hf Hin. unfold pending. apply map_subset_size. split.
  - apply map_filter_subseteq_ext. intros i x _ Hi Hc. apply Hi.
    apply elem_of_app. by left.
  - intros Hsub.
    assert (Hp : filter (fun kv : string * KConfig => kv.1 ∉ guard) (fs_files fs) !! path
                 = Some config) by (by apply map_lookup_filter_Some_2).
    eapply lookup_weaken in Hp; [|exact Hsub].
    apply map_lookup_filter_Some_1_2 in Hp. simpl in Hp. apply Hp.
    apply elem_of_app. right. by apply list_elem_of_singleton.
Qed.

Lemma pending_nil fs : pending fs [] = size (fs_files fs).
Proof.
  unfold pending. f_equal. apply map_filter_id. intros i x _. apply not_elem_of_nil.
Qed.

Section Returns.
Context `{Platform}.

Lemma findLoaded_is_Some n h path l :
  Forall (fun p => is_Some (h !! p)) l -> is_Some (findLoaded (S n) h path l).
Proof.
  induction l as [|p l IH]; intros Hall; [by eexists|].
  apply Forall_cons in Hall as [[o Ho] Hl]. cbn [findLoaded].
  rewrite (Profile_path_valid n h p o Ho). cbn [mbind option_bind].
  destruct (bool_decide _); [by eexists|]. by apply IH.
Qed.

Lemma findLoaded_elem n h path l p :
  findLoaded n h path l = Some (Some p) -> p ∈ l.
Proof.
  induction l as [|q l IH]; [done|]. cbn [findLoaded].
  destruct (Profile_path n h q); [|done]. cbn [mbind option_bind].
  destruct (bool_decide _).
  - intros [= ->]. by left.
  - intros Hf. right. by apply IH.
Qed.

Lemma profiles_valid_ext m ext :
  profiles_valid m -> profiles_valid (with_heap m (heap m ++ ext)).
Proof.
  intros [[fo Hfo] Hall]. split.
  - exists fo. cbn. by apply lookup_app_l_Some.
  - cbn. eapply Forall_impl; [exact Hall|].
    intros q [o Ho]. exists o. by apply lookup_app_l_Some.
Qed.

Lemma profiles_valid_addProfile m p :
  profiles_valid m -> is_Some (heap m !! p) -> profiles_valid (addProfile m p).
Proof.
  intros [Hf Hall] Hp. unfold profiles_valid.
  rewrite addProfile_heap, addProfile_fallbackProfile, addProfile_profiles.
  split; [done|]. unfold QSet_insert. destruct (bool_decide _); [done|].
  apply Forall_app. split; [done|]. by apply Forall_singleton.
Qed.

Lemma loadProfile_returns_gen : forall fuel m shortPath,
  profiles_valid m ->
  (pending (disk m) (recursionGuard m) < fuel)%nat ->
  exists r m', loadProfile fuel m shortPath = Some (r, m')
    /\ profiles_valid m'
    /\ forall p, r = Some p -> is_Some (heap m' !! p).
Proof.
  induction fuel as [|n IH]; intros m shortPath Hvalid Hfuel; [lia|].
  pose proof Hvalid as [[fo Hfo] Hall].
  pose proof (Profile_path_valid n (heap m) _ fo Hfo) as Hfb.
  set (fallbackPath := toQString (default VInvalid (_propertyValues fo !! Path))) in *.
  destruct (decide (shortPath = fallbackPath)) as [Heq|Hne].
  { cbn [loadProfile]. rewrite Hfb. cbn [mbind option_bind].
    rewrite bool_decide_eq_true_2 by done. eexists _, _. split; [done|].
    split; [done|]. intros p [= <-]. eauto. }
  destruct (QFileInfo_isDir (disk m) shortPath) eqn:Hdir.
  { cbn [loadProfile]. rewrite Hfb. cbn [mbind option_bind].
    rewrite bool_decide_eq_false_2, Hdir by done. eexists _, _. split; [done|].
    split; [done|]. intros p [=]. }
  destruct (findLoaded_is_Some n (heap m) (resolvePath shortPath) _ Hall) as [[p|] Hfind].
  { cbn [loadProfile]. rewrite Hfb. cbn [mbind option_bind].
    rewrite bool_decide_eq_false_2, Hdir, Hfind by done. eexists _, _. split; [done|].
    split; [done|]. intros p' [= <-]. apply findLoaded_elem in Hfind.
    rewrite Forall_forall in Hall. by apply Hall. }
  destruct (decide (resolvePath shortPath ∈ recursionGuard m)) as [Hin|Hin].
  { rewrite (loadProfile_detects n m shortPath fallbackPath) by done.
    eexists _, _. split; [done|]. split; [done|]. intros p [= <-]. eauto. }
  destruct (endsWith (resolvePath shortPath) ".desktop") eqn:Hdesk.
  { cbn [loadProfile]. rewrite Hfb. cbn [mbind option_bind].
    rewrite bool_decide_eq_false_2, Hdir, Hfind by done.
    cbn [mbind option_bind].
    rewrite bool_decide_eq_false_2 by done.
    cbn [recursionGuard with_recursionGuard]. rewrite Hdesk.
    eexists _, _. split; [done|]. split; [|intros p [=]].
    change (with_recursionGuard m (recursionGuard m ++ [resolvePath shortPath]))
      with (with_heap (with_recursionGuard m (recursionGuard m ++ [resolvePath shortPath])) (heap m)).
    rewrite PopStackOnExit_push. by destruct m. }
  destruct (fs_files (disk m) !! resolvePath shortPath) as [config|] eqn:Hfile.
  2:{ rewrite (loadProfile_missing_step n m shortPath fallbackPath) by done.
      eexists _, _. split; [done|]. split; [by apply profiles_valid_ext|intros p [=]]. }
  rewrite (loadProfile_step n m shortPath fallbackPath config) by done.
  cbv zeta.
  set (obj := loadedProfile (_fallbackProfile m) (resolvePath shortPath) config) in *.
  set (m2 := with_heap (with_recursionGuard m (recursionGuard m ++ [resolvePath shortPath]))
               (heap m ++ [obj])) in *.
  assert (Hvalid2 : profiles_valid m2).
  { apply (profiles_valid_ext (with_recursionGuard m _) [obj]). exact Hvalid. }
  destruct (negb (isEmptyString (parentProfileOf config))).
  2:{ cbn [mbind option_bind]. eexists _, _. split; [done|].
      unfold m2. rewrite PopStackOnExit_push.
      assert (Hnew : is_Some (heap (with_heap m (heap m ++ [obj])) !! length (heap m))).
      { cbn. rewrite list_lookup_middle by done. eauto. }
      split.
      - apply profiles_valid_addProfile; [by apply profiles_valid_ext|done].
      - intros p [= <-]. by rewrite addProfile_heap. }
  destruct (IH m2 (parentProfileOf config) Hvalid2) as (pp & m'' & Hrec & Hvalid'' & Hpp).
  { unfold m2. cbn.
    pose proof (pending_push (disk m) (recursionGuard m) _ config Hfile Hin). lia. }
  rewrite Hrec. cbn [mbind option_bind].
  apply loadProfile_keeps in Hrec as (_&_&_&_&_&_&_&_&[ext Hh]&_).
  unfold setParent. unfold m2 in Hh. cbn in Hh. rewrite Hh.
  rewrite <- app_assoc. cbn [app]. rewrite list_lookup_middle by done.
  cbn [mbind option_bind]. eexists _, _. split; [done|].
  rewrite insert_app_r_alt by lia. rewrite Nat.sub_diag. cbn [insert list_insert].
  set (h' := heap m ++ with_parent obj pp :: ext).
  assert (Hlen : forall q, is_Some (heap m'' !! q) -> is_Some (h' !! q)).
  { intros q Hq. apply lookup_lt_is_Some. apply lookup_lt_is_Some in Hq.
    rewrite Hh in Hq. unfold h'. rewrite !length_app in *. simpl in *. lia. }
  assert (Hv : profiles_valid
                 (PopStackOnExit (length (recursionGuard m)) (with_heap m'' h'))).
  { destruct Hvalid'' as [Hf'' Hall'']. split; cbn.
    - by apply Hlen.
    - eapply Forall_impl; [exact Hall''|]. exact Hlen. }
  assert (Hnew : is_Some (h' !! length (heap m))).
  { unfold h'. rewrite list_lookup_middle by done. eauto. }
  split.
  - by apply profiles_valid_addProfile.
  - intros p [= <-]. by rewrite addProfile_heap.
Qed.

End Returns.

Section LoadTheorems.
Context `{Platform}.

(** X10. [SessionManager::loadProfile] returns, whatever the [Parent]
    entries of the files are (chains, cycles, missing files).  From a
    manager whose fallback profile and registered profiles are objects of
    the store, and with more fuel than there are files that are not on the
    load stack, the call yields a result; a profile it returns is an object
    of the store, and the fallback profile and every registered profile are
    still objects of the store. *)
Theorem loadProfile_terminates (fuel : nat) (m : SessionManager) (shortPath : string) :
  profiles_valid m ->
  (pending (disk m) (recursionGuard m) < fuel)%nat ->
  exists r m', loadProfile fuel m shortPath = Some (r, m')
    /\ profiles_valid m'
    /\ forall p, r = Some p -> is_Some (heap m' !! p).
Proof. apply loadProfile_returns_gen. Qed.

(** X11. [SessionManager::loadProfile] only adds: whatever it returns, the
    disk, the favourites, the shortcuts, the sessions and their profiles, the
    fallback profile and the load stack are as before, every object of the
    store is unchanged (new objects come after the old ones), every
    registered profile stays registered, and the default profile is kept
    when some profile was registered. *)
Theorem loadProfile_frame (fuel : nat) (m : SessionManager) (shortPath : string)
  (r : option Ptr) (m' : SessionManager) :
  loadProfile fuel m shortPath = Some (r, m') -> loaded_more m m'.
Proof. apply loadProfile_keeps. Qed.

End LoadTheorems.

(** [applyProfile] on the sessions [l], from a manager whose bindings are
    those of [m]. *)
Lemma applyProfile_loop profile b : forall (l : list Session) (m : SessionManager),
  let m' := foldl (fun m' next =>
                     if bool_decide (_sessionProfiles m' !! next = Some profile)
                     then applyProfileToSession m' next profile b
                     else m') m l in
  _sessionProfiles m' = _sessionProfiles m
  /\ heap m' = heap m /\ disk m' = disk m /\ _profiles m' = _profiles m
  /\ _favorites m' = _favorites m /\ _shortcuts m' = _shortcuts m
  /\ _sessions m' = _sessions m /\ _defaultProfile m' = _defaultProfile m
  /\ emitted m'
     = emitted m
       ++ map (fun s => sessionApplied s profile b)
              (filter (fun s => _sessionProfiles m !! s = Some profile) l).
Proof.
  induction l as [|s l IH]; intros m; cbv zeta.
  { cbn [foldl]. repeat split; try done. by rewrite filter_nil, app_nil_r. }
  cbn [foldl]. rewrite filter_cons.
  destruct (decide (_sessionProfiles m !! s = Some profile)) as [Hs|Hs].
  - rewrite bool_decide_eq_true_2 by done.
    destruct (IH (applyProfileToSession m s profile b)) as (SP&Hh&Hd&Hp&Hf&Hsc&Hss&Hdf&He).
    cbv zeta in *.
    assert (Esp : _sessionProfiles (applyProfileToSession m s profile b) = _sessionProfiles m).
    { unfold applyProfileToSession. cbn. by apply insert_id. }
    rewrite SP, Hh, Hd, Hp, Hf, Hsc, Hss, Hdf, He, Esp.
    repeat split; try done. cbn [map]. unfold applyProfileToSession at 1. cbn [emitted emit].
    by rewrite <- app_assoc.
  - rewrite bool_decide_eq_false_2 by done. apply IH.
Qed.

(** X21. [SessionManager::applyProfile(profile, modifiedPropertiesOnly)]
    applies the profile to exactly the sessions that use it, once each and
    in the order of the session list; no session changes its profile, and
    the store, the disk, the registered profiles, the favourites, the
    shortcuts, the session list and the default profile are as before. *)
Theorem applyProfile_sessions m profile modifiedPropertiesOnly :
  let m' := applyProfile m profile modifiedPropertiesOnly in
  (forall s p, _sessionProfiles m' !! s = Some p <-> _sessionProfiles m !! s = Some p)
  /\ heap m' = heap m /\ disk m' = disk m /\ _profiles m' = _profiles m
  /\ _favorites m' = _favorites m /\ _shortcuts m' = _shortcuts m
  /\ _sessions m' = _sessions m /\ _defaultProfile m' = _defaultProfile m
  /\ emitted m'
     = emitted m
       ++ map (fun s => sessionApplied s profile modifiedPropertiesOnly)
              (filter (fun s => _sessionProfiles m !! s = Some profile) (_sessions m)).
Proof.
  cbv zeta. unfold applyProfile.
  destruct (applyProfile_loop profile modifiedPropertiesOnly (_sessions m) m) as (E & R).
  cbv zeta in E, R. split; [intros s p; by rewrite E|exact R].
Qed.

Section LoadCases.
Context `{Platform}.

Lemma with_parent_same o : with_parent o (_parent o) = o.
Proof. by destruct o. Qed.

Lemma findLoaded_app n h path l1 l2 :
  findLoaded n h path l1 = Some None ->
  findLoaded n h path (l1 ++ l2) = findLoaded n h path l2.
Proof.
  induction l1 as [|p l IH]; [done|]. cbn [findLoaded app].
  destruct (Profile_path n h p); [|done]. cbn [mbind option_bind].
  destruct (bool_decide _); [done|]. exact IH.
Qed.

Lemma findLoaded_valid n h path l :
  findLoaded n h path l = Some None -> Forall (fun p => is_Some (h !! p)) l.
Proof.
  induction l as [|p l IH]; [by intros; apply Forall_nil|]. cbn [findLoaded].
  destruct (Profile_path n h p) eqn:Hp; [|done]. cbn [mbind option_bind].
  destruct (bool_decide _); [done|]. intros Hf. apply Forall_cons. split; [|by apply IH].
  by eapply Profile_path_is_Some.
Qed.

(** X13. A profile file whose [Parent] entry names the file itself, not
    loaded yet, is loaded (from an empty load stack) without the recursion
    going on: the inner call for the parent finds the path on the load stack
    and yields the fallback profile, so the result is exactly one new
    object, read from the file with the fallback profile as its parent, and
    registered. *)
Theorem loadProfile_self_parent (n : nat) (m : SessionManager)
  (shortPath parent fallbackPath : string) (config : KConfig) :
  Profile_path 1 (heap m) (_fallbackProfile m) = Some fallbackPath ->
  shortPath <> fallbackPath -> parent <> fallbackPath ->
  QFileInfo_isDir (disk m) shortPath = false ->
  QFileInfo_isDir (disk m) parent = false ->
  resolvePath parent = resolvePath shortPath ->
  endsWith (resolvePath shortPath) ".desktop" = false ->
  fs_files (disk m) !! resolvePath shortPath = Some config ->
  config !! (GENERAL_GROUP, "Parent") = Some parent -> parent <> "" ->
  findLoaded 1 (heap m) (resolvePath shortPath) (_profiles m) = Some None ->
  recursionGuard m = [] ->
  loadProfile (S (S n)) m shortPath
  = Some (Some (length (heap m)),
          addProfile
            (with_heap m
               (heap m ++ [loadedProfile (_fallbackProfile m) (resolvePath shortPath) config]))
            (length (heap m))).
Proof.
  intros Hfb Hne Hnep Hdir Hdirp Hres Hdesk Hfile Hkey Hnonempty Hfind Hguard.
  apply parentProfileOf_key in Hkey.
  remember (loadedProfile (_fallbackProfile m) (resolvePath shortPath) config) as obj eqn:Eobj.
  assert (Hpar : _parent obj = Some (_fallbackProfile m)) by (by subst obj).
  rewrite (loadProfile_step_obj (S n) m shortPath fallbackPath config obj).
  - clear Eobj. rewrite Hkey, Hguard. cbn [app length].
    rewrite (loadProfile_detects n _ parent fallbackPath).
    all: cbn [heap disk _profiles _fallbackProfile recursionGuard with_heap with_recursionGuard].
    + cbn [mbind option_bind heap with_heap]. unfold setParent.
      rewrite list_lookup_middle by done. cbn [mbind option_bind].
      rewrite insert_app_r_alt by lia. rewrite Nat.sub_diag. cbn [insert list_insert].
      rewrite <- Hpar, with_parent_same.
      unfold PopStackOnExit. cbn [take recursionGuard with_heap with_recursionGuard].
      do 3 f_equal. destruct m; cbn in *. by subst.
    + by eapply (Profile_path_ext 0).
    + done.
    + done.
    + rewrite Hres. by eapply (findLoaded_ext 0).
    + rewrite Hres. by apply list_elem_of_singleton.
  - by eapply (Profile_path_fuel 0).
  - done.
  - done.
  - by eapply (findLoaded_fuel 0).
  - rewrite Hguard. apply not_elem_of_nil.
  - done.
  - done.
  - by rewrite Hkey.
  - done.
Qed.

(** X12. [SessionManager::loadProfile], called with an empty load stack
    on a path that is not the fallback profile's, is not loaded and names no
    file: the result is the null pointer; no profile is registered, no
    signal is emitted, the default profile, the favourites, the shortcuts
    and the disk are as before, the load stack is empty again and every
    object of the store is still there. *)
Theorem loadProfile_missing_file (n : nat) (m : SessionManager)
  (shortPath fallbackPath : string) :
  Profile_path 1 (heap m) (_fallbackProfile m) = Some fallbackPath ->
  shortPath <> fallbackPath ->
  findLoaded 1 (heap m) (resolvePath shortPath) (_profiles m) = Some None ->
  recursionGuard m = [] ->
  fs_files (disk m) !! resolvePath shortPath = None ->
  exists m', loadProfile (S n) m shortPath = Some (None, m')
    /\ _profiles m' = _profiles m /\ _defaultProfile m' = _defaultProfile m
    /\ _favorites m' = _favorites m /\ _shortcuts m' = _shortcuts m
    /\ disk m' = disk m /\ emitted m' = emitted m
    /\ recursionGuard m' = []
    /\ forall p o, heap m !! p = Some o -> heap m' !! p = Some o.
Proof.
  intros Hfb Hne Hfind Hguard Hfile.
  apply (Profile_path_fuel 0 n) in Hfb. apply (findLoaded_fuel 0 n) in Hfind.
  destruct (QFileInfo_isDir (disk m) shortPath) eqn:Hdir.
  { exists m. cbn [loadProfile]. rewrite Hfb. cbn [mbind option_bind].
    rewrite bool_decide_eq_false_2, Hdir by done. by repeat split. }
  destruct (endsWith (resolvePath shortPath) ".desktop") eqn:Hdesk.
  { exists m. cbn [loadProfile]. rewrite Hfb. cbn [mbind option_bind].
    rewrite bool_decide_eq_false_2, Hdir, Hfind by done.
    cbn [mbind option_bind]. rewrite Hguard.
    rewrite bool_decide_eq_false_2 by apply not_elem_of_nil.
    cbn [recursionGuard with_recursionGuard]. rewrite Hdesk.
    split; [|by repeat split].
    do 2 f_equal. unfold PopStackOnExit. cbn. destruct m; cbn in *. by subst. }
  rewrite (loadProfile_missing_step n m shortPath fallbackPath); try done.
  2:{ rewrite Hguard. apply not_elem_of_nil. }
  eexists. split; [done|]. repeat split; try done.
  intros p o Hp. cbn. by apply lookup_app_l_Some.
Qed.

(** X14. Loading is idempotent: after [loadProfile] has loaded a file
    (here one without [Parent] entry) and registered the new profile under
    the resolved path, a second [loadProfile] of the same path returns the
    same profile and changes nothing. *)
Theorem loadProfile_twice (n n' : nat) (m : SessionManager)
  (shortPath fallbackPath : string) (config : KConfig) :
  Profile_path 1 (heap m) (_fallbackProfile m) = Some fallbackPath ->
  shortPath <> fallbackPath ->
  QFileInfo_isDir (disk m) shortPath = false ->
  endsWith (resolvePath shortPath) ".desktop" = false ->
  fs_files (disk m) !! resolvePath shortPath = Some config ->
  config !! (GENERAL_GROUP, "Parent") = None ->
  findLoaded 1 (heap m) (resolvePath shortPath) (_profiles m) = Some None ->
  recursionGuard m = [] ->
  exists p m', loadProfile (S n) m shortPath = Some (Some p, m')
    /\ (p ∈ _profiles m') /\ (p ∉ _profiles m)
    /\ Profile_path 1 (heap m') p = Some (resolvePath shortPath)
    /\ loadProfile (S n') m' shortPath = Some (Some p, m').
Proof.
  intros Hfb Hne Hdir Hdesk Hfile Hkey Hfind Hguard.
  assert (Hpar : parentProfileOf config = "").
  { unfold parentProfileOf, hasKey. rewrite Hkey.
    by rewrite bool_decide_eq_false_2 by (by intros [? ?]). }
  pose proof (loadedProfile_Path (_fallbackProfile m) (resolvePath shortPath) config) as HP.
  remember (loadedProfile (_fallbackProfile m) (resolvePath shortPath) config) as obj eqn:Eobj.
  pose proof (findLoaded_valid _ _ _ _ Hfind) as Hvalid.
  assert (Hfresh : length (heap m) ∉ _profiles m).
  { intros Hin. rewrite Forall_forall in Hvalid. apply Hvalid in Hin.
    apply lookup_lt_is_Some in Hin. lia. }
  exists (length (heap m)).
  exists (addProfile (with_heap m (heap m ++ [obj])) (length (heap m))).
  assert (Hpath : Profile_path 1 (heap m ++ [obj]) (length (heap m))
                  = Some (resolvePath shortPath)).
  { rewrite (Profile_path_valid 0 _ _ obj) by (by rewrite list_lookup_middle).
    by rewrite HP. }
  split; [|split; [|split; [|split]]].
  - rewrite (loadProfile_step n m shortPath fallbackPath config).
    + cbv zeta. rewrite Hpar. cbn [isEmptyString negb mbind option_bind].
      rewrite <- Eobj, PopStackOnExit_push. done.
    + by eapply (Profile_path_fuel 0).
    + done.
    + done.
    + by eapply (findLoaded_fuel 0).
    + rewrite Hguard. apply not_elem_of_nil.
    + done.
    + done.
  - rewrite addProfile_profiles. apply QSet_insert_elem.
  - exact Hfresh.
  - by rewrite addProfile_heap.
  - cbn [loadProfile].
    rewrite addProfile_heap, addProfile_fallbackProfile, addProfile_disk, addProfile_profiles.
    cbn [heap with_heap _fallbackProfile disk _profiles].
    rewrite (Profile_path_ext 0 n' _ [obj] _ _ Hfb). cbn [mbind option_bind].
    rewrite bool_decide_eq_false_2 by done. rewrite Hdir.
    unfold QSet_insert. rewrite (bool_decide_eq_false_2 (length (heap m) ∈ _profiles m)) by done.
    rewrite findLoaded_app by (by eapply (findLoaded_ext 0)).
    cbn [findLoaded]. rewrite (Profile_path_fuel 0 n' _ _ _ Hpath).
    cbn [mbind option_bind].
    rewrite (bool_decide_eq_true_2 (resolvePath shortPath = resolvePath shortPath)) by done.
    done.
Qed.

End LoadCases.

Lemma loadShortcuts_spec entries : forall m,
  let m' := loadShortcuts entries m in
  heap m' = heap m /\ disk m' = disk m /\ _profiles m' = _profiles m
  /\ _defaultProfile m' = _defaultProfile m /\ _fallbackProfile m' = _fallbackProfile m
  /\ _favorites m' = _favorites m
  /\ ((forall e, e ∈ _shortcuts m -> profileKey e.2 = None) ->
      forall e, e ∈ _shortcuts m' -> profileKey e.2 = None).
Proof.
  unfold loadShortcuts. induction entries as [|[key path] entries IH]; intros m; cbv zeta.
  { by repeat split. }
  cbn [foldl].
  destruct (IH (with_shortcuts m (QMap_insert (_shortcuts m) key (mkShortcutData None path))))
    as (Hh & Hd & Hp & Hdf & Hfb & Hfv & Hs).
  cbv zeta in *. rewrite Hh, Hd, Hp, Hdf, Hfb, Hfv. repeat split; try done.
  intros Hnone. apply Hs. cbn [_shortcuts with_shortcuts]. unfold QMap_insert.
  intros e He. apply elem_of_app in He as [He|He].
  - unfold QMap_remove in He. apply list_elem_of_filter in He as [_ He]. by apply Hnone.
  - apply list_elem_of_singleton in He. by subst.
Qed.

Section ConstructorProof.
Context `{Platform}.

(** The pointer [loadProfile] returns is the fallback profile or a
    registered profile. *)
Lemma loadProfile_result fuel m shortPath p m' :
  loadProfile fuel m shortPath = Some (Some p, m') ->
  p = _fallbackProfile m \/ p ∈ _profiles m'.
Proof.
  destruct fuel as [|n]; [done|]. intros Hload.
  destruct (Profile_path (S n) (heap m) (_fallbackProfile m)) as [fallbackPath|] eqn:Hfb.
  2:{ cbn [loadProfile] in Hload. by rewrite Hfb in Hload. }
  destruct (decide (shortPath = fallbackPath)) as [Heq|Hne].
  { cbn [loadProfile] in Hload. rewrite Hfb in Hload. cbn [mbind option_bind] in Hload.
    rewrite bool_decide_eq_true_2 in Hload by done. simplify_eq. by left. }
  destruct (QFileInfo_isDir (disk m) shortPath) eqn:Hdir.
  { cbn [loadProfile] in Hload. rewrite Hfb in Hload. cbn [mbind option_bind] in Hload.
    rewrite bool_decide_eq_false_2, Hdir in Hload by done. simplify_eq. }
  destruct (findLoaded (S n) (heap m) (resolvePath shortPath) (_profiles m)) as [[q|]|] eqn:Hfind.
  { cbn [loadProfile] in Hload. rewrite Hfb in Hload. cbn [mbind option_bind] in Hload.
    rewrite bool_decide_eq_false_2, Hdir, Hfind in Hload by done.
    cbn [mbind option_bind] in Hload. simplify_eq. right. by eapply findLoaded_elem. }
  2:{ cbn [loadProfile] in Hload. rewrite Hfb in Hload. cbn [mbind option_bind] in Hload.
      rewrite bool_decide_eq_false_2, Hdir, Hfind in Hload by done. done. }
  destruct (decide (resolvePath shortPath ∈ recursionGuard m)) as [Hin|Hin].
  { rewrite (loadProfile_detects n m shortPath fallbackPath) in Hload by done.
    simplify_eq. by left. }
  destruct (endsWith (resolvePath shortPath) ".desktop") eqn:Hdesk.
  { cbn [loadProfile] in Hload. rewrite Hfb in Hload. cbn [mbind option_bind] in Hload.
    rewrite bool_decide_eq_false_2, Hdir, Hfind in Hload by done.
    cbn [mbind option_bind] in Hload.
    rewrite bool_decide_eq_false_2 in Hload by done.
    cbn [recursionGuard with_recursionGuard] in Hload. rewrite Hdesk in Hload.
    simplify_eq. }
  destruct (fs_files (disk m) !! resolvePath shortPath) as [config|] eqn:Hfile.
  2:{ rewrite (loadProfile_missing_step n m shortPath fallbackPath) in Hload by done.
      simplify_eq. }
  rewrite (loadProfile_step n m shortPath fallbackPath config) in Hload by done.
  cbv zeta in Hload.
  match type of Hload with context [mbind _ ?x] => destruct x as [m3|] end; [|done].
  cbn [mbind option_bind] in Hload. simplify_eq. right.
  rewrite addProfile_profiles. apply QSet_insert_elem.
Qed.

(** X15. The constructor of [SessionManager] establishes what its two
    assertions demand, for every disk, every konsolerc and every list of
    configured shortcuts: it returns, the fallback profile is registered,
    and there is a default profile, which is registered and an object of the
    store.  The disk is as given, and no shortcut of the map has a loaded
    profile yet. *)
Theorem SessionManager_new_default (fuel : nat) (fallback : ProfileObj)
  (d : FileSystem) (konsolerc : option string) (entries : list (string * string)) :
  (size (fs_files d) < fuel)%nat ->
  exists m dflt,
    SessionManager_new fuel fallback d konsolerc entries = Some m
    /\ _defaultProfile m = Some dflt
    /\ dflt ∈ _profiles m /\ is_Some (heap m !! dflt)
    /\ _fallbackProfile m ∈ _profiles m
    /\ heap m !! _fallbackProfile m = Some fallback
    /\ disk m = d
    /\ (forall e, e ∈ _shortcuts m -> profileKey e.2 = None).
Proof.
  intros Hfuel. unfold SessionManager_new. cbv zeta.
  set (m0 := with_konsolerc (SessionManager_init fallback d) konsolerc).
  assert (Hv0 : profiles_valid m0).
  { split; cbn; [by eexists|]. apply Forall_singleton. by eexists. }
  assert (Hm0 : _defaultProfile m0 = Some 0%nat /\ _profiles m0 = [0%nat]
                /\ _fallbackProfile m0 = 0%nat /\ heap m0 = [fallback] /\ disk m0 = d
                /\ _shortcuts m0 = []) by done.
  destruct Hm0 as (Hdf0 & Hp0 & Hfb0 & Hh0 & Hd0 & Hs0).
  set (path := locate _).
  assert (exists m1 dflt, (if negb (isEmptyString path) then
              '(profile, m') ← loadProfile fuel m0 path;
              Some (match profile with
                    | Some p => with_defaultProfile m' (Some p)
                    | None => m'
                    end)
            else Some m0) = Some m1
            /\ _defaultProfile m1 = Some dflt /\ dflt ∈ _profiles m1
            /\ is_Some (heap m1 !! dflt) /\ _fallbackProfile m1 ∈ _profiles m1
            /\ heap m1 !! _fallbackProfile m1 = Some fallback /\ disk m1 = d
            /\ _shortcuts m1 = []) as (m1 & dflt & -> & Hdf & Hin & Hvd & Hfin & Hfo & Hdd & Hsh).
  { destruct (negb (isEmptyString path)).
    2:{ exists m0, 0%nat. rewrite Hdf0, Hp0, Hfb0, Hh0.
        split; [done|]. split; [done|]. split; [by left|]. split; [by eexists|].
        split; [by left|]. by split. }
    destruct (loadProfile_returns_gen fuel m0 path Hv0) as (r & m' & Hload & Hv' & Hr).
    { rewrite Hd0. cbn [recursionGuard m0 with_konsolerc SessionManager_init].
      change (recursionGuard _) with (@nil string). by rewrite pending_nil. }
    rewrite Hload. cbn [mbind option_bind].
    pose proof (loadProfile_keeps _ _ _ _ _ Hload) as (D&F&S&_&_&FB&_&_&[ext Hh]&P&Df).
    assert (Hfb' : _fallbackProfile m' ∈ _profiles m').
    { rewrite FB, Hfb0. apply P. rewrite Hp0. by left. }
    assert (Hfo' : heap m' !! _fallbackProfile m' = Some fallback).
    { rewrite FB, Hfb0, Hh, Hh0. done. }
    destruct r as [p|].
    - exists (with_defaultProfile m' (Some p)), p.
      cbn [_defaultProfile _profiles heap _fallbackProfile disk _shortcuts with_defaultProfile].
      split; [done|]. split; [done|].
      split.
      { destruct (loadProfile_result _ _ _ _ _ Hload) as [->|Hp]; [|done].
        by rewrite <- FB. }
      split; [by apply Hr|]. split; [done|]. split; [done|]. split; [congruence|].
      congruence.
    - exists m', 0%nat. split; [done|].
      split; [rewrite Df; [done|by rewrite Hp0]|].
      split; [apply P; rewrite Hp0; by left|].
      split; [rewrite Hh, Hh0; by eexists|].
      split; [done|]. split; [done|]. split; congruence. }
  cbn [mbind option_bind].
  destruct (loadShortcuts_spec entries m1) as (Hh & Hd & Hp & Hdf' & Hfb & _ & Hs).
  cbv zeta in *. eexists _, dflt. split; [reflexivity|].
  rewrite Hdf', Hp, Hh, Hfb, Hd. repeat split; try done.
  apply Hs. rewrite Hsh. intros e He. by apply elem_of_nil in He.
Qed.

End ConstructorProof.

Section Persist.
Context `{Platform}.

(** X17. [KDE4ProfileWriter::writeProfile] never removes an entry: when
    the file exists already, the call returns true and every key the file
    held is still in it after the profile is written over it (keys of
    properties the profile does not set are left behind); no other file
    changes. *)
Theorem writeProfile_keeps_entries n h d path p o old key :
  h !! p = Some o -> chain_ok (S n) h p = true ->
  fs_files d !! path = Some old -> is_Some (old !! key) ->
  exists d' new,
    writeProfile (S n) h d path p = Some (true, d')
    /\ fs_files d' !! path = Some new /\ is_Some (new !! key)
    /\ (forall other, other <> path -> fs_files d' !! other = fs_files d !! other).
Proof.
  intros Hp Hc Hold Hkey.
  destruct (writeProfile_general n h d path p o Hp Hc) as (config2 & -> & K & _).
  eexists _, _. split; [done|]. cbn [fs_files]. split; [apply lookup_insert_eq|].
  split.
  - apply writeValues_keeps, K. by rewrite Hold.
  - intros other Hne. by rewrite lookup_insert_ne.
Qed.

(** X18. The parent survives the round trip through a file:
    [writeProfile] of a profile with a parent followed by
    [KDE4ProfileReader::readProfile] of the same file into any plain profile
    succeeds and reports as the parent's path the path of the parent that
    was written. *)
Theorem writeProfile_readProfile_parent n n' h d path p o q h0 r o0 :
  h !! p = Some o -> chain_ok (S n) h p = true ->
  _parent o = Some q ->
  h0 !! r = Some o0 -> _group o0 = None ->
  exists d' parentPath h1,
    writeProfile (S n) h d path p = Some (true, d')
    /\ Profile_path 1 h q = Some parentPath
    /\ readProfile (S n') h0 d' path r = Some (true, parentPath, h1).
Proof.
  intros Hp Hc Hq Hr Hg0.
  destruct (writeProfile_general n h d path p o Hp Hc) as (config2 & -> & _ & _ & HP).
  rewrite Hq in HP.
  destruct (chain_ok_parent n h p o q Hc Hp Hq) as [oq Hoq].
  rewrite (Profile_path_valid 0 h q oq Hoq) in HP.
  eexists _, _, _. split; [done|].
  split; [by apply Profile_path_valid|].
  erewrite readProfile_plain; [|done|done|cbn [fs_files]; apply lookup_insert_eq].
  do 3 f_equal. apply parentProfileOf_key.
  rewrite writeValues_other by apply table_keyFree_Parent. exact HP.
Qed.

(** X16. [KDE4ProfileWriter::getPath] always yields a path inside the
    user's save location: the profile's own path when that already lies
    there, and the save location followed by the profile's name and
    .profile when the profile has no path. *)
Theorem getPath_under_saveLocation fuel h p s :
  getPath fuel h p = Some s ->
  startsWith s saveLocation = true
  /\ (forall pp, localValue h p Path = Some (VString pp) ->
        startsWith pp saveLocation = true -> s = pp)
  /\ (localValue h p Path = None ->
        exists name, Profile_name fuel h p = Some name
          /\ s = (saveLocation ++ name ++ ".profile")%string).
Proof.
  intros Hg. split; [by eapply getPath_prefix|].
  unfold getPath, localValue in *. destruct (h !! p) as [o|] eqn:Hp; [|done].
  cbn [mbind option_bind] in *.
  destruct (Profile_path fuel h p) as [pp|] eqn:Hpp; [|done]. cbn [mbind option_bind] in Hg.
  split.
  - intros pp' Hl Hs.
    assert (pp = pp').
    { destruct fuel; [done|]. rewrite (Profile_path_valid _ _ _ o Hp), Hl in Hpp.
      by injection Hpp. }
    subst pp'. unfold isPropertySet in Hg. rewrite Hl in Hg.
    rewrite bool_decide_eq_true_2 in Hg by (by eexists). rewrite Hs in Hg. by injection Hg.
  - intros Hl. unfold isPropertySet in Hg. rewrite Hl in Hg.
    rewrite bool_decide_eq_false_2 in Hg by (by intros [? ?]). cbn [andb] in Hg.
    destruct (Profile_name fuel h p) as [name|]; [|done]. cbn [mbind option_bind] in Hg.
    exists name. split; [done|]. by injection Hg.
Qed.

End Persist.

Section ChangeSave.
Context `{Platform}.

(** X19. [SessionManager::changeProfile] on a plain profile writes no
    file when [persistent] is false, when the profile is hidden or when its
    name is empty after the change: the disk is as before, the store differs
    only in the profile's values, which are exactly the changes laid over
    its old values, and [profileChanged] is emitted. *)
Theorem changeProfile_not_saved n m q o (changes : gmap Property QVariant) persistent :
  heap m !! q = Some o -> _group o = None ->
  persistent = false \/ _hidden o = true
  \/ toQString (default VInvalid ((changes ∪ _propertyValues o) !! Name)) = "" ->
  exists m',
    changeProfile (S n) m q changes persistent = Some m'
    /\ disk m' = disk m
    /\ heap m' = <[q := with_values o (changes ∪ _propertyValues o)]> (heap m)
    /\ profileChanged q ∈ emitted m'.
Proof.
  intros Ho Hg Hcase.
  rewrite (changeProfile_plain_unfold n m q o changes persistent Ho Hg).
  cbv zeta.
  assert (Hcond : persistent
             && negb (isEmptyString
                        (toQString (default VInvalid ((changes ∪ _propertyValues o) !! Name))))
             && negb (_hidden o) = false).
  { destruct Hcase as [-> | [-> | ->] ]; [done|by rewrite andb_false_r|by rewrite andb_false_r]. }
  rewrite Hcond.
  match goal with |- context [applyProfile ?mm q true] =>
    destruct (applyProfile_spec mm q true) as (Hh2 & Hd2 & ev & He2 & _) end.
  eexists. split; [done|]. cbn [disk heap emit emitted]. rewrite Hh2, Hd2, He2.
  cbn [heap disk with_heap]. split; [done|]. split; [done|].
  apply elem_of_app. right. by apply list_elem_of_singleton.
Qed.

(** X20. [SessionManager::changeProfile] with [persistent = true] on a
    plain profile that is not hidden and has a name after the change saves
    it: the profile's values are the changes laid over its old values, with
    [Path] set to the new path, which lies in the user's save location; for
    every entry of the property table that has a group and a key, if the
    profile sets the entry's property locally (before [Path] is set), the
    file at the new path holds the text of the value under that group and
    key; no other file changes. *)
Theorem changeProfile_saved n m q o (changes : gmap Property QVariant) :
  heap m !! q = Some o -> _group o = None ->
  chain_ok (S n) (heap m) q = true -> _hidden o = false ->
  toQString (default VInvalid ((changes ∪ _propertyValues o) !! Name)) <> "" ->
  exists m' newPath config,
    changeProfile (S n) m q changes true = Some m'
    /\ startsWith newPath saveLocation = true
    /\ heap m' = <[q := with_values o (<[Path := VString newPath]>
                                         (changes ∪ _propertyValues o))]> (heap m)
    /\ fs_files (disk m') !! newPath = Some config
    /\ (forall other, other <> newPath ->
          fs_files (disk m') !! other = fs_files (disk m) !! other)
    /\ (forall info g k v, info ∈ DefaultPropertyNames ->
          info_group info = Some g -> info_name info = Some k ->
          (changes ∪ _propertyValues o) !! info_property info = Some v ->
          config !! (g, k) = Some (entryText v)).
Proof.
  intros Ho Hg Hc Hh Hname.
  rewrite (changeProfile_plain_unfold n m q o changes true Ho Hg).
  cbv zeta. rewrite Hh. rewrite (isEmptyString_false _ Hname). cbn [andb negb].
  assert (Hlt : (q < length (heap m))%nat) by (by eapply lookup_lt_Some).
  set (o1 := with_values o (changes ∪ _propertyValues o)).
  set (h1 := <[q := o1]> (heap m)).
  assert (Ho1 : h1 !! q = Some o1) by (by apply list_lookup_insert_eq).
  assert (Hs1 : same_shape (heap m) h1) by (by eapply same_shape_insert).
  match goal with |- context [applyProfile ?mm q true] =>
    destruct (applyProfile_spec mm q true) as (Hh2 & Hd2 & ev & He2 & _);
    set (m2 := applyProfile mm q true) in * end.
  cbn [heap disk with_heap] in Hh2, Hd2.
  destruct (saveProfile_detail n (emit m2 (profileChanged q)) q o1) as (newPath & config2 & Hgp & _ & ->).
  { cbn [heap emit]. by rewrite Hh2. }
  { cbn [heap emit]. rewrite Hh2. by rewrite (same_shape_chain_ok _ _ Hs1). }
  cbn [heap emit] in Hgp. rewrite Hh2 in Hgp.
  cbn [mbind option_bind heap with_disk emit disk]. rewrite Hh2, Hd2.
  rewrite (setProperty_plain n h1 q o1 Path _ Ho1) by done.
  cbn [mbind option_bind].
  eexists _, newPath, _. split; [reflexivity|].
  split; [by eapply getPath_prefix|].
  cbn [heap disk with_heap with_disk fs_files].
  split; [unfold h1; by rewrite list_insert_insert_eq|].
  split; [apply lookup_insert_eq|].
  split; [intros other Hne; by rewrite lookup_insert_ne|].
  intros info g k v Hin Hgr Hnm Hv.
  rewrite (writeValues_lookup o1 DefaultPropertyNames config2 info (g, k)).
  - unfold o1. cbn [_propertyValues with_values]. by rewrite Hv.
  - apply table_distinct.
  - done.
  - unfold entryKey. by rewrite Hgr, Hnm.
Qed.

End ChangeSave.

Lemma QSet_remove_elem l p q : q ∈ QSet_remove l p <-> q ∈ l /\ q <> p.
Proof. unfold QSet_remove. rewrite list_elem_of_filter. tauto. Qed.

Lemma QSet_insert_elem_iff l p q : q ∈ QSet_insert l p <-> q ∈ l \/ q = p.
Proof.
  unfold QSet_insert. destruct (bool_decide (p ∈ l)) eqn:E.
  - apply bool_decide_eq_true in E. split; [tauto|]. intros [?| ->]; done.
  - rewrite elem_of_app, list_elem_of_singleton. tauto.
Qed.

Lemma QSet_insert_NoDup l p : NoDup l -> NoDup (QSet_insert l p).
Proof.
  intros Hnd. unfold QSet_insert. destruct (bool_decide (p ∈ l)) eqn:E; [done|].
  apply bool_decide_eq_false in E. apply NoDup_app. split; [done|].
  split; [|apply NoDup_singleton]. intros x Hx Hx'. apply list_elem_of_singleton in Hx'. by subst.
Qed.

Lemma QSet_remove_NoDup l p : NoDup l -> NoDup (QSet_remove l p).
Proof. intros Hnd. unfold QSet_remove. by apply NoDup_filter. Qed.

Lemma addProfile_emitted m p : emitted (addProfile m p) = emitted m ++ [profileAdded p].
Proof. unfold addProfile. by destruct (_profiles m). Qed.

Lemma setFavorite_facts m profile favorite :
  let m' := setFavorite m profile favorite in
  (profile ∈ _favorites m' <-> favorite = true)
  /\ (forall q, q <> profile -> q ∈ _favorites m' <-> q ∈ _favorites m)
  /\ (forall q, q ∈ _profiles m' <-> q ∈ _profiles m \/ q = profile)
  /\ (NoDup (_favorites m) -> NoDup (_favorites m'))
  /\ heap m' = heap m /\ disk m' = disk m /\ _shortcuts m' = _shortcuts m
  /\ emitted m'
     = emitted m
       ++ (if bool_decide (profile ∈ _profiles m) then [] else [profileAdded profile])
       ++ (if bool_decide (profile ∈ _favorites m <-> favorite = true) then []
           else [favoriteStatusChanged profile favorite]).
Proof.
  cbv zeta. unfold setFavorite.
  set (m1 := if bool_decide (profile ∈ _profiles m) then m else addProfile m profile).
  assert (Hfav1 : _favorites m1 = _favorites m).
  { unfold m1. destruct (bool_decide _); [done|apply addProfile_favorites]. }
  assert (Hprof1 : forall q, q ∈ _profiles m1 <-> q ∈ _profiles m \/ q = profile).
  { intros q. unfold m1. destruct (bool_decide (profile ∈ _profiles m)) eqn:E.
    - apply bool_decide_eq_true in E. split; [tauto|]. by intros [?| ->].
    - rewrite addProfile_profiles. apply QSet_insert_elem_iff. }
  assert (Hheap1 : heap m1 = heap m /\ disk m1 = disk m /\ _shortcuts m1 = _shortcuts m).
  { unfold m1. destruct (bool_decide _); [done|].
    by rewrite addProfile_heap, addProfile_disk, addProfile_shortcuts. }
  assert (Hem1 : emitted m1 = emitted m ++
            (if bool_decide (profile ∈ _profiles m) then [] else [profileAdded profile])).
  { unfold m1. destruct (bool_decide _); [by rewrite app_nil_r|apply addProfile_emitted]. }
  destruct Hheap1 as (Hh & Hd & Hs). clearbody m1.
  destruct favorite; cbn [andb negb].
  - destruct (bool_decide (profile ∈ _favorites m1)) eqn:E; cbn [negb].
    + apply bool_decide_eq_true in E. rewrite Hfav1 in *.
      rewrite (bool_decide_eq_true_2 (profile ∈ _favorites m ↔ true = true)) by tauto.
      rewrite app_nil_r. repeat split; try done; try tauto; try (by apply Hprof1).
    + apply bool_decide_eq_false in E. rewrite Hfav1 in *.
      rewrite (bool_decide_eq_false_2 (profile ∈ _favorites m ↔ true = true)) by tauto.
      cbn [_favorites _profiles heap disk _shortcuts emitted emit with_favorites].
      rewrite ?Hfav1, Hem1, <- app_assoc.
      repeat split; try done.
      * intros _. apply QSet_insert_elem.
      * intros Hq. apply QSet_insert_elem_iff in Hq as [?|?]; done.
      * intros Hq. by apply QSet_insert_mono.
      * by apply Hprof1.
      * by apply Hprof1.
      * apply QSet_insert_NoDup.
  - destruct (bool_decide (profile ∈ _favorites m1)) eqn:E.
    + apply bool_decide_eq_true in E. rewrite Hfav1 in *.
      rewrite (bool_decide_eq_false_2 (profile ∈ _favorites m ↔ false = true))
        by (intros [Hx _]; by specialize (Hx E)).
      cbn [_favorites _profiles heap disk _shortcuts emitted emit with_favorites].
      rewrite ?Hfav1, Hem1, <- app_assoc.
      repeat split; try done.
      * intros Hq. apply QSet_remove_elem in Hq. tauto.
      * intros Hq. by apply QSet_remove_elem in Hq as [? _].
      * intros Hq. by apply QSet_remove_elem.
      * by apply Hprof1.
      * by apply Hprof1.
      * apply QSet_remove_NoDup.
    + apply bool_decide_eq_false in E. rewrite Hfav1 in *.
      rewrite (bool_decide_eq_true_2 (profile ∈ _favorites m ↔ false = true))
        by (split; [done|discriminate]).
      rewrite app_nil_r. repeat split; try done; try (by apply Hprof1).
Qed.

(** X22. [SessionManager::setFavorite]: afterwards the profile is a
    favourite exactly when [favorite] is true; no other profile's favourite
    status changes; the profile is registered if it was not; a set of
    favourites without repetition stays so; store, disk and shortcuts are
    untouched; [profileAdded] is emitted only if the profile was not
    registered and [favoriteStatusChanged] only if the status changed; a
    second call with the same arguments changes nothing. *)
Theorem setFavorite_spec m profile favorite :
  let m' := setFavorite m profile favorite in
  (profile ∈ _favorites m' <-> favorite = true)
  /\ (forall q, q <> profile -> q ∈ _favorites m' <-> q ∈ _favorites m)
  /\ (forall q, q ∈ _profiles m' <-> q ∈ _profiles m \/ q = profile)
  /\ (NoDup (_favorites m) -> NoDup (_favorites m'))
  /\ heap m' = heap m /\ disk m' = disk m /\ _shortcuts m' = _shortcuts m
  /\ emitted m'
     = emitted m
       ++ (if bool_decide (profile ∈ _profiles m) then [] else [profileAdded profile])
       ++ (if bool_decide (profile ∈ _favorites m <-> favorite = true) then []
           else [favoriteStatusChanged profile favorite])
  /\ setFavorite m' profile favorite = m'.
Proof.
  cbv zeta.
  destruct (setFavorite_facts m profile favorite) as (F1 & F2 & F3 & F4 & F5 & F6 & F7 & F8).
  cbv zeta in *. repeat (split; [assumption|]).
  set (m' := setFavorite m profile favorite) in *.
  unfold setFavorite at 1.
  rewrite (bool_decide_eq_true_2 (profile ∈ _profiles m')) by (apply F3; by right).
  destruct favorite; cbn [andb negb].
  - by rewrite (bool_decide_eq_true_2 (profile ∈ _favorites m')) by (by apply F1).
  - rewrite (bool_decide_eq_false_2 (profile ∈ _favorites m')); [done|].
    intros Hq. by apply F1 in Hq.
Qed.

Lemma shortcut_scan_none p path l l2 :
  (forall e, e ∈ l -> ~ boundTo p path e) ->
  shortcut_scan p path (l ++ l2) = shortcut_scan p path l2.
Proof.
  induction l as [|[key value] l IH]; intros Hno; [done|]. cbn [app shortcut_scan].
  assert (Hn : ~ boundTo p path (key, value)) by (apply Hno; by left).
  unfold boundTo in Hn. cbn in Hn.
  rewrite (bool_decide_eq_false_2 (profileKey value = Some p)) by tauto.
  rewrite (bool_decide_eq_false_2 (profilePath value = path)) by tauto.
  cbn [orb]. apply IH. intros e He. apply Hno. by right.
Qed.

Lemma QMap_remove_elem l k e : e ∈ QMap_remove l k <-> e ∈ l /\ e.1 <> k.
Proof. unfold QMap_remove. rewrite list_elem_of_filter. tauto. Qed.

Section Shortcuts.
Context `{Platform}.

(** X23. After [SessionManager::setShortcut] with a key sequence that
    is not empty, [shortcut] of the profile is that key sequence, provided
    the profile had at most one shortcut before.  The shortcut map then
    holds the new binding and the old entries except those under the new key
    and under the profile's old key (the empty key sequence when it had
    none); [shortcutChanged] is emitted; store, disk, registered profiles
    and favourites are untouched. *)
Theorem setShortcut_then_shortcut fuel m profile path keySequence :
  Profile_path fuel (heap m) profile = Some path ->
  keySequence <> "" ->
  (forall e, e ∈ _shortcuts m -> boundTo profile path e ->
     e.1 = shortcut_scan profile path (_shortcuts m)) ->
  exists m',
    setShortcut fuel m profile keySequence = Some m'
    /\ shortcut fuel m' profile = Some keySequence
    /\ (forall e, e ∈ _shortcuts m' <->
          e = (keySequence, mkShortcutData (Some profile) path)
          \/ (e ∈ _shortcuts m /\ e.1 <> keySequence
              /\ e.1 <> shortcut_scan profile path (_shortcuts m)))
    /\ emitted m' = emitted m ++ [shortcutChanged profile keySequence]
    /\ heap m' = heap m /\ disk m' = disk m /\ _profiles m' = _profiles m
    /\ _favorites m' = _favorites m.
Proof.
  intros Hp Hk Hsingle. unfold setShortcut, shortcut. rewrite Hp.
  cbn [mbind option_bind]. rewrite (isEmptyString_false _ Hk).
  cbn [heap with_shortcuts]. rewrite Hp. cbn [mbind option_bind].
  eexists. split; [reflexivity|].
  cbn [heap disk _profiles _favorites _shortcuts emitted emit with_shortcuts].
  rewrite Hp. cbn [mbind option_bind].
  set (existing := shortcut_scan profile path (_shortcuts m)) in *.
  split.
  { f_equal. rewrite shortcut_scan_none.
    - cbn [shortcut_scan profileKey]. by rewrite bool_decide_eq_true_2.
    - intros e He Hb. apply QMap_remove_elem in He as [He _].
      apply QMap_remove_elem in He as [He Hne]. by apply Hne, Hsingle. }
  split; [|done].
  intros e. rewrite elem_of_app, list_elem_of_singleton, !QMap_remove_elem. tauto.
Qed.

(** X24. [SessionManager::setShortcut] with the empty key sequence
    removes the profile's shortcut, provided the profile had at most one:
    afterwards no entry of the map is bound to the profile by pointer or by
    path, [shortcut] yields the empty key sequence, the entries under other
    keys than the profile's old one are kept, no signal is emitted, and
    store, disk, registered profiles and favourites are untouched. *)
Theorem setShortcut_empty fuel m profile path :
  Profile_path fuel (heap m) profile = Some path ->
  (forall e, e ∈ _shortcuts m -> boundTo profile path e ->
     e.1 = shortcut_scan profile path (_shortcuts m)) ->
  exists m',
    setShortcut fuel m profile "" = Some m'
    /\ shortcut fuel m' profile = Some ""
    /\ (forall e, e ∈ _shortcuts m' -> ~ boundTo profile path e)
    /\ (forall e, e ∈ _shortcuts m' <->
          e ∈ _shortcuts m /\ e.1 <> shortcut_scan profile path (_shortcuts m))
    /\ emitted m' = emitted m
    /\ heap m' = heap m /\ disk m' = disk m /\ _profiles m' = _profiles m
    /\ _favorites m' = _favorites m.
Proof.
  intros Hp Hsingle. unfold setShortcut, shortcut. rewrite Hp.
  cbn [mbind option_bind isEmptyString].
  eexists. split; [reflexivity|].
  cbn [heap disk _profiles _favorites _shortcuts emitted emit with_shortcuts].
  rewrite Hp. cbn [mbind option_bind].
  set (existing := shortcut_scan profile path (_shortcuts m)) in *.
  assert (Hno : forall e, e ∈ QMap_remove (_shortcuts m) existing -> ~ boundTo profile path e).
  { intros e He Hb. apply QMap_remove_elem in He as [He Hne]. by apply Hne, Hsingle. }
  split.
  { f_equal. rewrite <- (app_nil_r (QMap_remove _ _)). by rewrite shortcut_scan_none. }
  split; [exact Hno|]. split; [|done].
  intros e. apply QMap_remove_elem.
Qed.

End Shortcuts.

Lemma QMap_find_remove l k k' :
  QMap_find (QMap_remove l k) k' = if bool_decide (k' = k) then None else QMap_find l k'.
Proof.
  unfold QMap_remove. induction l as [|[key v] l IH]; [by destruct (bool_decide _)|].
  rewrite filter_cons. cbn [fst]. destruct (decide (key <> k)) as [Hne|Heq].
  - cbn [QMap_find]. rewrite IH. destruct (decide (key = k')) as [->|Hne'].
    + rewrite (bool_decide_eq_true_2 (k' = k')) by done.
      by rewrite (bool_decide_eq_false_2 (k' = k)).
    + by rewrite (bool_decide_eq_false_2 (key = k')).
  - assert (key = k) as -> by (by destruct (decide (key = k))).
    rewrite IH. cbn [QMap_find]. destruct (decide (k' = k)) as [->|Hne'].
    + by rewrite !(bool_decide_eq_true_2 (k = k)).
    + rewrite (bool_decide_eq_false_2 (k' = k)) by done.
      by rewrite (bool_decide_eq_false_2 (k = k')).
Qed.

Lemma QMap_find_setProfileKey l k key k' :
  QMap_find (QMap_setProfileKey l k key) k'
  = if bool_decide (k' = k)
    then (fun d => mkShortcutData key (profilePath d)) <$> QMap_find l k'
    else QMap_find l k'.
Proof.
  unfold QMap_setProfileKey. induction l as [|[key0 v] l IH]; [by destruct (bool_decide _)|].
  cbn [map fst snd]. destruct (decide (key0 = k)) as [->|Hne].
  - rewrite (bool_decide_eq_true_2 (k = k)) by done. cbn [QMap_find].
    destruct (decide (k = k')) as [<-|Hne'].
    + by rewrite !(bool_decide_eq_true_2 (k = k)).
    + rewrite (bool_decide_eq_false_2 (k = k')) by done. rewrite IH.
      by rewrite (bool_decide_eq_false_2 (k' = k)).
  - rewrite (bool_decide_eq_false_2 (key0 = k)) by done. cbn [QMap_find].
    destruct (decide (key0 = k')) as [->|Hne'].
    + rewrite (bool_decide_eq_true_2 (k' = k')) by done.
      by rewrite (bool_decide_eq_false_2 (k' = k)).
    + rewrite (bool_decide_eq_false_2 (key0 = k')) by done. exact IH.
Qed.

Section FindByShortcut.
Context `{Platform}.

(** X25. [SessionManager::findByShortcut] on a shortcut whose profile
    is not loaded yet and cannot be loaded returns the null pointer and
    removes the shortcut from the map, leaving every other shortcut as it
    was; the disk and the favourites are untouched. *)
Theorem findByShortcut_unloadable fuel m k data m2 :
  QMap_find (_shortcuts m) k = Some data -> profileKey data = None ->
  loadProfile fuel m (profilePath data) = Some (None, m2) ->
  exists m',
    findByShortcut fuel m k = Some (None, m')
    /\ (forall k', QMap_find (_shortcuts m') k'
                   = if bool_decide (k' = k) then None else QMap_find (_shortcuts m) k')
    /\ heap m' = heap m2 /\ _profiles m' = _profiles m2 /\ disk m' = disk m
    /\ _favorites m' = _favorites m.
Proof.
  intros Hfind Hkey Hload. unfold findByShortcut, QMap_index. rewrite Hfind, Hkey.
  assert (Em : with_shortcuts m (_shortcuts m) = m) by (by destruct m).
  rewrite Em, Hload. cbn [mbind option_bind].
  apply loadProfile_keeps in Hload as (D&F&S&_).
  eexists. split; [reflexivity|]. cbn [_shortcuts heap _profiles disk _favorites with_shortcuts].
  rewrite S. split; [|done]. intros k'. apply QMap_find_remove.
Qed.

(** X26. [SessionManager::findByShortcut] loads on demand and
    remembers: for a shortcut whose profile is not loaded yet and loads to
    [p], it returns [p] and records [p] in the shortcut's entry, leaving
    the other shortcuts and the disk as they were; a second call returns
    [p] again and changes nothing. *)
Theorem findByShortcut_caches fuel fuel' m k data p m2 :
  QMap_find (_shortcuts m) k = Some data -> profileKey data = None ->
  loadProfile fuel m (profilePath data) = Some (Some p, m2) ->
  exists m',
    findByShortcut fuel m k = Some (Some p, m')
    /\ (forall k', QMap_find (_shortcuts m') k'
                   = if bool_decide (k' = k)
                     then Some (mkShortcutData (Some p) (profilePath data))
                     else QMap_find (_shortcuts m) k')
    /\ heap m' = heap m2 /\ _profiles m' = _profiles m2 /\ disk m' = disk m
    /\ findByShortcut fuel' m' k = Some (Some p, m').
Proof.
  intros Hfind Hkey Hload. unfold findByShortcut at 1. unfold QMap_index. rewrite Hfind, Hkey.
  assert (Em : with_shortcuts m (_shortcuts m) = m) by (by destruct m).
  rewrite Em, Hload. cbn [mbind option_bind].
  apply loadProfile_keeps in Hload as (D&F&S&_).
  eexists. split; [reflexivity|]. cbn [_shortcuts heap _profiles disk _favorites with_shortcuts].
  rewrite S.
  assert (Hf : forall k', QMap_find (QMap_setProfileKey (_shortcuts m) k (Some p)) k'
                 = if bool_decide (k' = k)
                   then Some (mkShortcutData (Some p) (profilePath data))
                   else QMap_find (_shortcuts m) k').
  { intros k'. rewrite QMap_find_setProfileKey. destruct (decide (k' = k)) as [->|Hne].
    - rewrite !(bool_decide_eq_true_2 (k = k)) by done. by rewrite Hfind.
    - by rewrite (bool_decide_eq_false_2 (k' = k)). }
  split; [exact Hf|]. split; [done|]. split; [done|]. split; [done|].
  unfold findByShortcut, QMap_index. cbn [_shortcuts with_shortcuts].
  rewrite Hf, (bool_decide_eq_true_2 (k = k)) by done. cbn [profileKey].
  reflexivity.
Qed.

End FindByShortcut.

Section Delete.
Context `{Platform}.

Lemma getPath_is_Some n h p o : h !! p = Some o -> is_Some (getPath (S n) h p).
Proof.
  intros Hp. unfold getPath. rewrite Hp. cbn [mbind option_bind].
  rewrite (Profile_path_valid n _ p o Hp), (Profile_name_valid n _ p o Hp).
  cbn [mbind option_bind]. destruct (isPropertySet o Path && _); by eexists.
Qed.

Lemma setDefaultProfile_spec n m p o :
  heap m !! p = Some o ->
  exists path,
    (if isEmptyString (toQString (default VInvalid (_propertyValues o !! Path)))
     then getPath (S n) (heap m) p = Some path
     else path = toQString (default VInvalid (_propertyValues o !! Path)))
    /\ setDefaultProfile (S n) m p
       = Some (with_konsolerc (with_defaultProfile m (Some p))
                 (Some (QFileInfo_fileName path))).
Proof.
  intros Hp. unfold setDefaultProfile. cbn [heap with_defaultProfile].
  rewrite (Profile_path_valid n _ p o Hp). cbn [mbind option_bind].
  destruct (isEmptyString _).
  - destruct (getPath_is_Some n (heap m) p o Hp) as [s Hs]. rewrite Hs.
    cbn [mbind option_bind]. by exists s.
  - cbn [mbind option_bind]. by eexists.
Qed.

(** X27. [SessionManager::deleteProfile] on a registered profile whose
    file is not protected and which, when it is the default profile, is
    not the only registered one (the code takes the first of the remaining
    profiles then), returns true; the profile is no longer registered and
    no longer a favourite, while all others are as before; it is marked
    hidden; if it has a path, no file is left at that path, and no other
    file of the disk changes; when the deleted profile was not the default
    one, the default profile and the entry DefaultProfile of konsolerc are
    kept; when it was, a profile that is still registered takes its place
    and the entry DefaultProfile of konsolerc is rewritten to the file name
    of that profile's path (of the path [getPath] gives when it has none);
    the last signal emitted is [profileRemoved]. *)
Theorem deleteProfile_success n m t o :
  heap m !! t = Some o ->
  t ∈ _profiles m ->
  Forall (fun p => is_Some (heap m !! p)) (_profiles m) ->
  (_defaultProfile m = Some t -> exists q, q ∈ _profiles m /\ q <> t) ->
  toQString (default VInvalid (_propertyValues o !! Path)) ∉ fs_locked (disk m) ->
  let path := toQString (default VInvalid (_propertyValues o !! Path)) in
  exists m',
    deleteProfile (S n) m (Some t) = Some (true, m')
    /\ (forall q, q ∈ _profiles m' <-> q ∈ _profiles m /\ q <> t)
    /\ (forall q, q ∈ _favorites m' <-> q ∈ _favorites m /\ q <> t)
    /\ heap m' = <[t := with_hidden o true]> (heap m)
    /\ (isPropertySet o Path = true -> fs_files (disk m') !! path = None)
    /\ (forall other, other <> path ->
          fs_files (disk m') !! other = fs_files (disk m) !! other)
    /\ (_defaultProfile m <> Some t ->
          _defaultProfile m' = _defaultProfile m
          /\ konsolerc_DefaultProfile m' = konsolerc_DefaultProfile m)
    /\ (_defaultProfile m = Some t ->
          exists d od dpath,
            _defaultProfile m' = Some d /\ d ∈ _profiles m'
            /\ heap m' !! d = Some od
            /\ (if isEmptyString (toQString (default VInvalid (_propertyValues od !! Path)))
                then getPath (S n) (heap m') d = Some dpath
                else dpath = toQString (default VInvalid (_propertyValues od !! Path)))
            /\ konsolerc_DefaultProfile m' = Some (QFileInfo_fileName dpath))
    /\ last (emitted m') = Some (profileRemoved (Some t)).
Proof.
  intros Ho Hin Hvalid Hother Hlock path.
  unfold deleteProfile. rewrite Ho. cbn [mbind option_bind].
  rewrite (Profile_path_valid n _ t o Ho). cbn [mbind option_bind]. fold path.
  (* the file *)
  set (fd := if isPropertySet o Path && QFile_exists (disk m) path
             then let '(removed, d) := QFile_remove (disk m) path in (negb removed, d)
             else (false, disk m)).
  assert (Hfd : exists d, fd = (false, d)
                  /\ (isPropertySet o Path = true -> fs_files d !! path = None)
                  /\ (forall other, other <> path ->
                        fs_files d !! other = fs_files (disk m) !! other)).
  { unfold fd. destruct (isPropertySet o Path) eqn:Hset; cbn [andb].
    - destruct (QFile_exists (disk m) path) eqn:Hex.
      + unfold QFile_remove. rewrite Hex.
        rewrite (bool_decide_eq_false_2 (path ∈ fs_locked (disk m))) by done.
        cbn [andb negb]. eexists. split; [done|]. cbn [fs_files]. split.
        * intros _. apply lookup_delete_eq.
        * intros other Hne. by apply lookup_delete_ne.
      + exists (disk m). split; [done|]. split; [|done]. intros _.
        unfold QFile_exists in Hex. apply bool_decide_eq_false in Hex.
        destruct (fs_files (disk m) !! path); [|done]. exfalso. apply Hex. by eexists.
    - exists (disk m). by repeat split. }
  destruct Hfd as (d & -> & Hd1 & Hd2).
  set (m1 := with_disk m d).
  destruct (setFavorite_facts m1 t false) as (F1 & F2 & F3 & _ & F5 & F6 & F7 & _).
  cbv zeta in F1, F2, F3, F5, F6, F7.
  set (m2 := setFavorite m1 t false) in *.
  cbn [heap disk _shortcuts with_disk m1] in F5, F6, F7.
  assert (Hp2 : Profile_path (S n) (heap m2) t = Some path).
  { rewrite F5. by rewrite (Profile_path_valid n _ t o Ho). }
  unfold setShortcut, shortcut. rewrite Hp2. cbn [mbind option_bind isEmptyString].
  cbn [_profiles with_shortcuts heap with_profiles].
  unfold setHidden. rewrite F5, Ho. cbn [mbind option_bind].
  set (m5 := with_heap _ _).
  assert (Hprof5 : forall q, q ∈ _profiles m5 <-> q ∈ _profiles m /\ q <> t).
  { intros q. unfold m5. cbn [_profiles with_heap with_profiles with_shortcuts].
    rewrite QSet_remove_elem, F3. cbn [_profiles m1 with_disk].
    tauto. }
  assert (Hheap5 : heap m5 = <[t := with_hidden o true]> (heap m)) by done.
  assert (Hfav5 : forall q, q ∈ _favorites m5 <-> q ∈ _favorites m /\ q <> t).
  { intros q. unfold m5. cbn [_favorites with_heap with_profiles with_shortcuts].
    destruct (decide (q = t)) as [->|Hne].
    - split; [intros Hq; by apply F1 in Hq|tauto].
    - rewrite (F2 q Hne). cbn [_favorites m1 with_disk]. tauto. }
  assert (Hdisk5 : disk m5 = d) by (unfold m5; cbn; exact F6).
  assert (Hdef5 : _defaultProfile m5 = _defaultProfile m).
  { unfold m5. cbn [_defaultProfile with_heap with_profiles with_shortcuts].
    unfold m2, setFavorite, m1. cbn [_profiles with_disk].
    rewrite (bool_decide_eq_true_2 (t ∈ _profiles m)) by done. cbn [andb negb].
    by destruct (bool_decide _). }
  assert (Hrc5 : konsolerc_DefaultProfile m5 = konsolerc_DefaultProfile m).
  { unfold m5. cbn [konsolerc_DefaultProfile with_heap with_profiles with_shortcuts].
    unfold m2, setFavorite, m1. cbn [_profiles with_disk].
    rewrite (bool_decide_eq_true_2 (t ∈ _profiles m)) by done. cbn [andb negb].
    by destruct (bool_decide _). }
  destruct (decide (_defaultProfile m = Some t)) as [Hdef|Hdef].
  - rewrite (bool_decide_eq_true_2 (Some t = _defaultProfile m)) by done.
    destruct (Hother Hdef) as (q & Hq & Hqt).
    assert (Hq5 : q ∈ _profiles m5) by (by apply Hprof5).
    assert (Hmem : forall x, x ∈ _profiles m5 -> x ∈ _profiles m) by (intros x Hx; by apply Hprof5).
    destruct (_profiles m5) as [|first rest] eqn:Ep.
    { by apply elem_of_nil in Hq5. }
    cbn [head mbind option_bind].
    assert (Hfirst : first ∈ first :: rest) by (by left).
    assert (Hfv : is_Some (heap m5 !! first)).
    { apply Hmem in Hfirst as Hf. rewrite Forall_forall in Hvalid.
      apply Hvalid in Hf. rewrite Hheap5. apply lookup_lt_is_Some.
      rewrite length_insert. by apply lookup_lt_is_Some. }
    destruct Hfv as [ofst Hof].
    destruct (setDefaultProfile_spec n m5 first ofst Hof) as (dpath & Hdpath & ->).
    cbn [mbind option_bind]. eexists. split; [reflexivity|].
    cbn [_profiles _favorites heap disk _defaultProfile konsolerc_DefaultProfile
         emitted emit with_konsolerc with_defaultProfile].
    rewrite Ep, Hdisk5.
    split; [exact Hprof5|]. split; [exact Hfav5|]. split; [exact Hheap5|].
    split; [exact Hd1|]. split; [exact Hd2|]. split; [done|].
    split; [intros _; exists first, ofst, dpath; split; [done|]; split; [by left|];
            split; [exact Hof|]; split; [exact Hdpath|done]|].
    apply last_snoc.
  - rewrite (bool_decide_eq_false_2 (Some t = _defaultProfile m)) by congruence.
    cbn [mbind option_bind]. eexists. split; [reflexivity|].
    cbn [_profiles _favorites heap disk _defaultProfile konsolerc_DefaultProfile
         emitted emit].
    rewrite Hdisk5.
    split; [exact Hprof5|]. split; [exact Hfav5|]. split; [exact Hheap5|].
    split; [exact Hd1|]. split; [exact Hd2|]. split; [by intros _|].
    split; [done|]. apply last_snoc.
Qed.

End Delete.

Section SortPerm.
Context {A : Type} (lessThan : A -> A -> bool).

Lemma qMerge_perm : forall fuel (left right : list A),
  qMerge lessThan fuel left right ≡ₚ left ++ right.
Proof.
  induction fuel as [|f IH]; intros left right; cbn [qMerge]; [done|].
  destruct ((length left =? 0)%nat || (length right =? 0)%nat); [done|].
  destruct (length left + length right =? 2)%nat.
  { destruct left as [|a [|? ?]]; try done. destruct right as [|b [|? ?]]; try done.
    destruct (lessThan b a); [|done]. apply Permutation_swap. }
  match goal with |- context [let '(_, _) := ?e in _] => destruct e as [firstCut len2Half] end.
  rewrite !IH.
  rewrite <- (take_drop firstCut left) at 3. rewrite <- (take_drop len2Half right) at 3.
  rewrite <- !app_assoc. apply Permutation_app_head.
  rewrite !app_assoc. apply Permutation_app_tail. apply Permutation_app_comm.
Qed.

Lemma qStableSortHelper_perm : forall fuel (l : list A),
  qStableSortHelper lessThan fuel l ≡ₚ l.
Proof.
  induction fuel as [|f IH]; intros l; cbn [qStableSortHelper]; [done|].
  destruct (length l <? 2)%nat; [done|].
  rewrite qMerge_perm, !IH. by rewrite take_drop.
Qed.

Lemma qStableSort_perm (l : list A) : qStableSort lessThan l ≡ₚ l.
Proof. apply qStableSortHelper_perm. Qed.

End SortPerm.

Lemma digit_of_pretty_N_char (d : N) :
  (d < 10)%N -> digit_of (pretty_N_char d) = Some (Z.of_N d).
Proof.
  intros Hd.
  destruct d as [|p]; [done|].
  do 4 (destruct p as [p|p|]; try done); lia.
Qed.

Lemma parseDigits_pretty_N_go (x : N) : forall s,
  parseDigits 0 (pretty_N_go x s) = parseDigits (Z.of_N x) s.
Proof.
  induction (N.lt_wf_0 x) as [x _ IH]. intros s.
  destruct (decide (x = 0%N)) as [->|Hx]; [by rewrite pretty_N_go_0|].
  rewrite pretty_N_go_step by lia.
  rewrite IH by (apply N.div_lt; lia).
  cbn [parseDigits]. rewrite digit_of_pretty_N_char by (apply N.mod_lt; lia).
  cbn [mbind option_bind]. f_equal.
  rewrite (N.div_mod x 10) at 3 by lia. lia.
Qed.

Lemma pretty_N_go_nonempty (x : N) : forall s, s <> "" -> pretty_N_go x s <> "".
Proof.
  induction (N.lt_wf_0 x) as [x _ IH]. intros s Hs.
  destruct (decide (x = 0%N)) as [->|Hx]; [by rewrite pretty_N_go_0|].
  rewrite pretty_N_go_step by lia. apply IH; [apply N.div_lt; lia|done].
Qed.

Lemma pretty_N_char_digit d c : pretty_N_char d = c -> c <> "-"%char /\ c <> "+"%char.
Proof.
  intros <-. destruct d as [|p]; [done|].
  do 4 (destruct p as [p|p|]; try done).
Qed.

Lemma pretty_N_go_head (x : N) : forall s c r,
  (forall c' r', s = String c' r' -> c' <> "-"%char /\ c' <> "+"%char) ->
  pretty_N_go x s = String c r -> c <> "-"%char /\ c <> "+"%char.
Proof.
  induction (N.lt_wf_0 x) as [x _ IH]. intros s c r Hs.
  destruct (decide (x = 0%N)) as [->|Hx]; [rewrite pretty_N_go_0; apply Hs|].
  rewrite pretty_N_go_step by lia. apply IH; [apply N.div_lt; lia|].
  intros c' r' [= <- <-]. by eapply pretty_N_char_digit.
Qed.

Lemma pretty_N_char_notSpace d : QChar_isSpace (pretty_N_char d) = false.
Proof.
  destruct d as [|p]; [done|].
  do 4 (destruct p as [p|p|]; try done).
Qed.

Lemma pretty_N_go_notSpace (x : N) : forall s,
  allChars (fun c => negb (QChar_isSpace c)) s = true ->
  allChars (fun c => negb (QChar_isSpace c)) (pretty_N_go x s) = true.
Proof.
  induction (N.lt_wf_0 x) as [x _ IH]. intros s Hs.
  destruct (decide (x = 0%N)) as [->|Hx]; [by rewrite pretty_N_go_0|].
  rewrite pretty_N_go_step by lia. apply IH; [apply N.div_lt; lia|].
  cbn [allChars]. by rewrite pretty_N_char_notSpace, Hs.
Qed.

(** A text without white space is its own trimmed form. *)
Lemma skipSpaces_notSpace s :
  allChars (fun c => negb (QChar_isSpace c)) s = true -> skipSpaces s = s.
Proof.
  destruct s as [|c r]; [done|]. cbn [allChars skipSpaces]. intros Hs.
  apply andb_prop in Hs as [Hc _]. apply negb_true_iff in Hc. by rewrite Hc.
Qed.

Lemma dropTrailingSpaces_notSpace s :
  allChars (fun c => negb (QChar_isSpace c)) s = true -> dropTrailingSpaces s = s.
Proof.
  induction s as [|c r IH]; [done|]. cbn [allChars dropTrailingSpaces]. intros Hs.
  apply andb_prop in Hs as [Hc Hr]. apply negb_true_iff in Hc.
  rewrite IH by done. rewrite Hc. by destruct r.
Qed.

Lemma QString_toInt_number (k : Z) :
  0 < k <= 2147483647 -> QString_toInt (QString_number k) = Some k.
Proof.
  intros Hk. unfold QString_number. destruct k as [|p|p]; try lia.
  change (pretty (Z.pos p)) with (pretty_N_go (N.pos p) "").
  assert (Htrim : dropTrailingSpaces (skipSpaces (pretty_N_go (N.pos p) ""))
                  = pretty_N_go (N.pos p) "").
  { pose proof (pretty_N_go_notSpace (N.pos p) "" eq_refl) as Hns.
    by rewrite (skipSpaces_notSpace _ Hns), (dropTrailingSpaces_notSpace _ Hns). }
  unfold QString_toInt. rewrite Htrim. clear Htrim.
  destruct (pretty_N_go (N.pos p) "") as [|c r] eqn:E.
  { exfalso. revert E. rewrite pretty_N_go_step by lia. by apply pretty_N_go_nonempty. }
  destruct (pretty_N_go_head (N.pos p) "" c r) as [Hm Hp]; [done|done|].
  assert (Hun : parseDigits 0 (String c r) = Some (Z.pos p)).
  { rewrite <- E, parseDigits_pretty_N_go. done. }
  match goal with
  | |- (?body ≫= _) = _ => assert (Hbody : body = Some (Z.pos p))
  end.
  { destruct c as [[] [] [] [] [] [] [] []]; try exact Hun; done. }
  rewrite Hbody. cbn [mbind option_bind].
  rewrite (proj2 (Z.leb_le _ _)) by lia. by rewrite (proj2 (Z.leb_le _ _)) by lia.
Qed.

Lemma plainMember_insert fuel h p o' q :
  plainMember fuel h p = true ->
  (forall o, h !! p = Some o ->
     _parent o = _parent o' /\ _hidden o = _hidden o' /\ _group o = _group o') ->
  plainMember fuel (<[p := o']> h) q = plainMember fuel h q.
Proof.
  intros Hp Ho. apply plainMember_shape.
  destruct (plainMember_spec _ _ _ Hp) as (o & Hpo & _).
  destruct (Ho o Hpo) as (?&?&?). by eapply same_shape_insert.
Qed.

(** The renumbering loop on plain profiles that are pairwise different. *)
Lemma renumber_spec n : forall (l : list Ptr) h i,
  forallb (plainMember (S n) h) l = true -> NoDup l ->
  exists h', renumber (S n) h l i = Some h'
    /\ same_shape h h'
    /\ (forall k p, l !! k = Some p ->
          localValue h' p MenuIndex
          = Some (VString (QString_number (i + Z.of_nat k + 1))))
    /\ (forall q Y, Y <> MenuIndex \/ q ∉ l -> localValue h' q Y = localValue h q Y).
Proof.
  induction l as [|p l IH]; intros h i Hall Hnd.
  - exists h. split; [done|]. split; [apply same_shape_refl|]. split; [done|]. done.
  - cbn [forallb] in Hall. apply andb_true_iff in Hall as [Hp Hl].
    apply NoDup_cons in Hnd as [Hpl Hnd].
    destruct (plainMember_spec _ _ _ Hp) as (o & Ho & Hg & _).
    cbn [renumber]. rewrite (setProperty_plain n h p o _ _ Ho Hg). cbn [mbind option_bind].
    set (h1 := <[p := _]> h).
    assert (Hs1 : same_shape h h1) by (by eapply same_shape_insert).
    assert (Hlt : (p < length h)%nat) by (by eapply lookup_lt_Some).
    destruct (IH h1 (i + 1)) as (h' & E & S' & V & F).
    { rewrite <- Hl. apply forallb_pointwise. intros q. by apply plainMember_shape. }
    { done. }
    exists h'. split; [done|]. split; [by eapply same_shape_trans|]. split.
    + intros [|k] q Hk.
      * injection Hk as <-. rewrite F by (by right).
        unfold localValue, h1. rewrite list_lookup_insert_eq by done.
        cbn. rewrite lookup_insert_eq. do 3 f_equal. lia.
      * cbn in Hk. rewrite (V k q Hk). do 3 f_equal. lia.
    + intros q Y HY. rewrite F.
      * unfold localValue, h1. destruct (decide (q = p)) as [->|Hne].
        -- rewrite list_lookup_insert_eq by done. rewrite Ho. cbn.
           destruct HY as [HY|HY]; [by rewrite lookup_insert_ne|].
           exfalso. apply HY. by left.
        -- by rewrite list_lookup_insert_ne.
      * destruct HY as [HY|HY]; [by left|]. right. intros Hq. apply HY. by right.
Qed.

Section SortProfiles.
Context `{Platform}.

Lemma menuIndexAsInt_is_Some n h p :
  plainMember (S n) h p = true -> is_Some (menuIndexAsInt (S n) h p).
Proof.
  intros Hp. destruct (plainMember_spec _ _ _ Hp) as (o & Ho & Hg & Hc).
  unfold menuIndexAsInt, Profile_menuIndex, propertyString.
  destruct (chain_ok_property _ _ _ MenuIndex Hc) as [v ->]. by eexists.
Qed.

(** The first loop of [sortProfiles]. *)
Lemma sortProfiles_split_spec n h fallbackPath : forall l lack hav,
  forallb (plainMember (S n) h) l = true ->
  let kept p := Profile_path (S n) h p <> Some fallbackPath in
  let lacks p := menuIndexAsInt (S n) h p = Some 0 in
  foldl (sortProfiles_split (S n) h fallbackPath) (Some (lack, hav)) l
  = Some (lack ++ filter (fun p => kept p /\ lacks p) l,
          hav ++ filter (fun p => kept p /\ ~ lacks p) l).
Proof.
  induction l as [|p l IH]; intros lack hav Hall; cbv zeta in *.
  - by rewrite !app_nil_r.
  - cbn [forallb] in Hall. apply andb_true_iff in Hall as [Hp Hl].
    destruct (plainMember_spec _ _ _ Hp) as (o & Ho & Hg & Hc).
    cbn [foldl]. unfold sortProfiles_split at 2. cbn [mbind option_bind].
    rewrite (Profile_path_valid n h p o Ho). cbn [mbind option_bind].
    rewrite !filter_cons.
    destruct (menuIndexAsInt_is_Some n h p Hp) as [idx Hidx].
    rewrite Hidx. cbn [mbind option_bind].
    rewrite (Profile_path_valid n h p o Ho).
    destruct (decide (toQString (default VInvalid (_propertyValues o !! Path)) = fallbackPath))
      as [Heq|Hne].
    + rewrite bool_decide_eq_true_2 by done. rewrite IH by done.
      rewrite !decide_False; [done| |]; intros [Hk _]; apply Hk; by rewrite Heq.
    + rewrite bool_decide_eq_false_2 by done.
      destruct (decide (idx = 0)) as [->|Hi].
      * cbn [Z.eqb]. rewrite IH by done.
        rewrite decide_True by (split; [congruence|done]).
        rewrite decide_False by (intros [_ Hn]; by apply Hn).
        by rewrite <- app_assoc.
      * rewrite (proj2 (Z.eqb_neq idx 0)) by done. rewrite IH by done.
        rewrite decide_False by (intros [_ Hn]; congruence).
        rewrite decide_True by (split; congruence).
        by rewrite <- app_assoc.
Qed.

Lemma forallb_elem {A} (f : A -> bool) l :
  forallb f l = true <-> forall x, x ∈ l -> f x = true.
Proof.
  rewrite forallb_forall. split; intros Hf x Hx; apply Hf; by apply list_elem_of_In.
Qed.

(** [sortProfiles] on plain profiles that are pairwise different: the two
    blocks and the store after the renumbering. *)
Lemma sortProfiles_run n m l fo :
  heap m !! _fallbackProfile m = Some fo ->
  forallb (plainMember (S n) (heap m)) l = true -> NoDup l ->
  let fallbackPath := toQString (default VInvalid (_propertyValues fo !! Path)) in
  let kept p := Profile_path (S n) (heap m) p <> Some fallbackPath in
  let lacks p := menuIndexAsInt (S n) (heap m) p = Some 0 in
  let having := qStableSort (profileIndexLessThan (S n) (heap m))
                  (filter (fun p => kept p /\ ~ lacks p) l) in
  let lacking := qStableSort (profileNameLessThan (S n) (heap m))
                   (filter (fun p => kept p /\ lacks p) l) in
  exists h2,
    sortProfiles (S n) m l = Some (having ++ lacking, with_heap m h2)
    /\ same_shape (heap m) h2
    /\ (forall k p, (having ++ lacking) !! k = Some p ->
          localValue h2 p MenuIndex = Some (VString (QString_number (Z.of_nat k + 1))))
    /\ (forall q Y, Y <> MenuIndex \/ q ∉ having ++ lacking ->
          localValue h2 q Y = localValue (heap m) q Y).
Proof.
  intros Hfo Hall Hnd. cbv zeta.
  set (fallbackPath := toQString (default VInvalid (_propertyValues fo !! Path))).
  set (kept := fun p => Profile_path (S n) (heap m) p <> Some fallbackPath).
  set (lacks := fun p => menuIndexAsInt (S n) (heap m) p = Some 0).
  unfold sortProfiles. rewrite (Profile_path_valid n _ _ fo Hfo). cbn [mbind option_bind].
  fold fallbackPath.
  rewrite (sortProfiles_split_spec n (heap m) fallbackPath l [] [] Hall).
  cbv zeta. cbn [app mbind option_bind].
  unfold sortByIndexProfileList, sortByNameProfileList.
  change (filter (fun p => Profile_path (S n) (heap m) p <> Some fallbackPath
                           /\ menuIndexAsInt (S n) (heap m) p <> Some 0) l)
    with (filter (fun p => kept p /\ ~ lacks p) l).
  change (filter (fun p => Profile_path (S n) (heap m) p <> Some fallbackPath
                           /\ menuIndexAsInt (S n) (heap m) p = Some 0) l)
    with (filter (fun p => kept p /\ lacks p) l).
  set (hav0 := filter (fun p => kept p /\ ~ lacks p) l).
  set (lack0 := filter (fun p => kept p /\ lacks p) l).
  set (hav := qStableSort (profileIndexLessThan (S n) (heap m)) hav0).
  set (lack := qStableSort (profileNameLessThan (S n) (heap m)) lack0).
  assert (Phav : hav ≡ₚ hav0) by apply qStableSort_perm.
  assert (Plack : lack ≡ₚ lack0) by apply qStableSort_perm.
  assert (Hall' : forall x, x ∈ l -> plainMember (S n) (heap m) x = true) by (by apply forallb_elem).
  assert (Hhav_in : forall x, x ∈ hav -> x ∈ l /\ ~ lacks x).
  { intros x Hx. rewrite Phav in Hx. apply list_elem_of_filter in Hx. tauto. }
  assert (Hlack_in : forall x, x ∈ lack -> x ∈ l /\ lacks x).
  { intros x Hx. rewrite Plack in Hx. apply list_elem_of_filter in Hx. tauto. }
  assert (Nhav : NoDup hav) by (rewrite Phav; by apply NoDup_filter).
  assert (Nlack : NoDup lack) by (rewrite Plack; by apply NoDup_filter).
  destruct (renumber_spec n hav (heap m) 0) as (h1 & E1 & S1 & V1 & F1).
  { apply forallb_elem. intros x Hx. apply Hall'. by apply Hhav_in. }
  { done. }
  rewrite E1. cbn [mbind option_bind].
  destruct (renumber_spec n lack h1 (Z.of_nat (length hav))) as (h2 & E2 & S2 & V2 & F2).
  { apply forallb_elem. intros x Hx. rewrite (plainMember_shape _ _ _ _ S1).
    apply Hall'. by apply Hlack_in. }
  { done. }
  rewrite E2. cbn [mbind option_bind].
  exists h2. split; [reflexivity|]. split; [by eapply same_shape_trans|].
  split.
  { intros k p Hk. apply lookup_app_Some in Hk as [Hk|[Hge Hk]].
    - rewrite F2.
      + rewrite (V1 k p Hk). do 3 f_equal.
      + right. intros Hp. apply Hlack_in in Hp as [_ Hp].
        apply list_elem_of_lookup_2 in Hk. apply Hhav_in in Hk as [_ Hk]. done.
    - rewrite (V2 _ p Hk). do 3 f_equal. lia. }
  intros q Y HY. rewrite F2, F1; [done| |].
  - destruct HY as [?|HY]; [by left|]. right. intros Hq. apply HY, elem_of_app. by left.
  - destruct HY as [?|HY]; [by left|]. right. intros Hq. apply HY, elem_of_app. by right.
Qed.

Lemma filter_two_length {A} (P Q : A -> Prop) `{!forall x, Decision (P x)}
  `{!forall x, Decision (Q x)} (l : list A) :
  (forall x, P x -> Q x -> False) ->
  (length (filter P l) + length (filter Q l) <= length l)%nat.
Proof.
  intros Hpq. induction l as [|x l IH]; [done|].
  rewrite !filter_cons. destruct (decide (P x)), (decide (Q x)); cbn [length]; try lia.
  exfalso. by eapply Hpq.
Qed.

(** X28. [SessionManager::sortProfiles] on a list of distinct plain
    profiles (fewer than 2^31 - 1) returns the profiles of the list whose path is not the fallback
    profile's, each once: first those with a menu index other than 0, then
    those with menu index 0.  Afterwards the profile at position k
    (counted from 0) has the menu index k + 1 stored locally; nothing else
    is written: all other local values, parents, groups and hidden flags,
    the disk, the registered profiles and the emitted signals are as
    before. *)
Theorem sortProfiles_spec n m l fo :
  heap m !! _fallbackProfile m = Some fo ->
  forallb (plainMember (S n) (heap m)) l = true -> NoDup l ->
  Z.of_nat (length l) < 2147483647 ->
  let fallbackPath := toQString (default VInvalid (_propertyValues fo !! Path)) in
  let kept p := Profile_path (S n) (heap m) p <> Some fallbackPath in
  let lacks p := menuIndexAsInt (S n) (heap m) p = Some 0 in
  exists having lacking m',
    sortProfiles (S n) m l = Some (having ++ lacking, m')
    /\ having ≡ₚ filter (fun p => kept p /\ ~ lacks p) l
    /\ lacking ≡ₚ filter (fun p => kept p /\ lacks p) l
    /\ (forall k p, (having ++ lacking) !! k = Some p ->
          localValue (heap m') p MenuIndex
          = Some (VString (QString_number (Z.of_nat k + 1)))
          /\ menuIndexAsInt (S n) (heap m') p = Some (Z.of_nat k + 1))
    /\ (forall q Y, Y <> MenuIndex \/ q ∉ having ++ lacking ->
          localValue (heap m') q Y = localValue (heap m) q Y)
    /\ same_shape (heap m) (heap m')
    /\ disk m' = disk m /\ _profiles m' = _profiles m /\ emitted m' = emitted m.
Proof.
  intros Hfo Hall Hnd Hlen. cbv zeta.
  destruct (sortProfiles_run n m l fo Hfo Hall Hnd) as (h2 & E & S2 & V & F).
  cbv zeta in *. eexists _, _, _. split; [exact E|].
  split; [apply qStableSort_perm|]. split; [apply qStableSort_perm|].
  cbn [heap disk _profiles emitted with_heap].
  split.
  { intros k p Hk. split; [by apply V|].
    unfold menuIndexAsInt, Profile_menuIndex, propertyString.
    rewrite (property_local n h2 p MenuIndex _ (V k p Hk)).
    cbn [fmap option_fmap option_map mbind option_bind toQString].
    rewrite QString_toInt_number; [done|].
    apply lookup_lt_Some in Hk. rewrite length_app in Hk.
    rewrite !(Permutation_length (qStableSort_perm _ _)) in Hk.
    match type of Hk with (_ < length (filter ?P l) + length (filter ?Q l))%nat =>
      pose proof (filter_two_length P Q l) as Hfl end.
    cbv beta in Hfl. assert (Hfl' := Hfl ltac:(tauto)). lia. }
  split; [exact F|]. split; [exact S2|]. done.
Qed.

End SortProfiles.

Lemma elem_of_take_list {A} (l : list A) n x : x ∈ take n l -> x ∈ l.
Proof. intros Hx. rewrite <- (take_drop n l). apply elem_of_app. by left. Qed.
Lemma elem_of_drop_list {A} (l : list A) n x : x ∈ drop n l -> x ∈ l.
Proof. intros Hx. rewrite <- (take_drop n l). apply elem_of_app. by right. Qed.

Section Sorted.
Context {A : Type} (lessThan : A -> A -> bool) (key : A -> Z) (dom : list A).
Hypothesis Hagree : forall x y, x ∈ dom -> y ∈ dom ->
  lessThan x y = (key x <=? key y).

Lemma ascending_app (l1 l2 : list A) :
  ascending key l1 -> ascending key l2 ->
  (forall x y, x ∈ l1 -> y ∈ l2 -> key x <= key y) ->
  ascending key (l1 ++ l2).
Proof.
  intros H1 H2 H12 i j x y Hij Hi Hj.
  apply lookup_app_Some in Hi as [Hi|[Hi1 Hi]]; apply lookup_app_Some in Hj as [Hj|[Hj1 Hj]].
  - by eapply H1.
  - apply H12; by eapply list_elem_of_lookup_2.
  - apply lookup_lt_Some in Hj. lia.
  - eapply (H2 (i - length l1)%nat (j - length l1)%nat); [lia|done|done].
Qed.

Lemma ascending_take (l : list A) c : ascending key l -> ascending key (take c l).
Proof.
  intros Hl i j x y Hij Hi Hj. apply lookup_take_Some in Hi as [Hi _].
  apply lookup_take_Some in Hj as [Hj _]. by eapply Hl.
Qed.

Lemma ascending_drop (l : list A) c : ascending key l -> ascending key (drop c l).
Proof.
  intros Hl i j x y Hij Hi Hj. rewrite lookup_drop in Hi, Hj.
  eapply (Hl (c + i)%nat (c + j)%nat); [lia|done|done].
Qed.

Lemma ascending_short (l : list A) : (length l < 2)%nat -> ascending key l.
Proof.
  intros Hl i j x y Hij Hi Hj.
  assert (i = j) as ->.
  { apply lookup_lt_Some in Hi, Hj. lia. }
  assert (x = y) by congruence. subst. lia.
Qed.

(** [qLowerBound] with [<=]: the elements up to the cut are at most the
    value, those from the cut on are greater. *)
Lemma qLowerBound_loop_spec (l : list A) (value : A) :
  ascending key l -> (forall x, x ∈ l -> x ∈ dom) -> value ∈ dom ->
  forall fuel begin n,
  (n <= fuel)%nat -> (begin + n <= length l)%nat ->
  (forall i x, l !! i = Some x -> (i < begin)%nat -> key x <= key value) ->
  (forall i x, l !! i = Some x -> (begin + n <= i)%nat -> key value < key x) ->
  let c := qLowerBound_loop lessThan fuel l value begin n in
  (c <= length l)%nat
  /\ (forall i x, l !! i = Some x -> (i < c)%nat -> key x <= key value)
  /\ (forall i x, l !! i = Some x -> (c <= i)%nat -> key value < key x).
Proof.
  intros Hl Hdom Hv. induction fuel as [|f IH]; intros begin n Hn Hlen Hlo Hhi; cbv zeta.
  { assert (n = 0)%nat as -> by lia. cbn [qLowerBound_loop].
    split; [lia|]. split; [done|]. intros i x Hi Hc. apply (Hhi i x Hi). lia. }
  cbn [qLowerBound_loop]. destruct (n =? 0)%nat eqn:En.
  { apply Nat.eqb_eq in En. subst n. split; [lia|]. split; [done|].
    intros i x Hi Hc. apply (Hhi i x Hi). lia. }
  apply Nat.eqb_neq in En.
  assert (Hhalf : (n / 2 < n)%nat) by (apply Nat.div_lt; lia).
  destruct (l !! (begin + n / 2)%nat) as [x|] eqn:Hx.
  2:{ apply lookup_ge_None in Hx. lia. }
  rewrite Hagree by (first [apply Hdom; by eapply list_elem_of_lookup_2 | done]).
  destruct (key x <=? key value) eqn:Ek.
  - apply Z.leb_le in Ek. apply IH; [lia|lia| |].
    + intros i y Hi Hlt. transitivity (key x); [|done].
      eapply (Hl i (begin + n / 2)%nat); [lia|done|done].
    + intros i y Hi Hge. apply (Hhi i y Hi). lia.
  - apply Z.leb_gt in Ek. apply IH; [lia|lia|done|].
    intros i y Hi Hge. eapply Z.lt_le_trans; [exact Ek|].
    eapply (Hl (begin + n / 2)%nat i); [lia|done|done].
Qed.

(** [qUpperBound] with [<=]: the elements up to the cut are less than the
    value, those from the cut on are at least the value. *)
Lemma qUpperBound_loop_spec (l : list A) (value : A) :
  ascending key l -> (forall x, x ∈ l -> x ∈ dom) -> value ∈ dom ->
  forall fuel begin n,
  (n <= fuel)%nat -> (begin + n <= length l)%nat ->
  (forall i x, l !! i = Some x -> (i < begin)%nat -> key x < key value) ->
  (forall i x, l !! i = Some x -> (begin + n <= i)%nat -> key value <= key x) ->
  let c := qUpperBound_loop lessThan fuel l value begin n in
  (c <= length l)%nat
  /\ (forall i x, l !! i = Some x -> (i < c)%nat -> key x < key value)
  /\ (forall i x, l !! i = Some x -> (c <= i)%nat -> key value <= key x).
Proof.
  intros Hl Hdom Hv. induction fuel as [|f IH]; intros begin n Hn Hlen Hlo Hhi; cbv zeta.
  { assert (n = 0)%nat as -> by lia. cbn [qUpperBound_loop].
    split; [lia|]. split; [done|]. intros i x Hi Hc. apply (Hhi i x Hi). lia. }
  cbn [qUpperBound_loop]. destruct (n =? 0)%nat eqn:En.
  { apply Nat.eqb_eq in En. subst n. split; [lia|]. split; [done|].
    intros i x Hi Hc. apply (Hhi i x Hi). lia. }
  apply Nat.eqb_neq in En.
  assert (Hhalf : (n / 2 < n)%nat) by (apply Nat.div_lt; lia).
  destruct (l !! (begin + n / 2)%nat) as [x|] eqn:Hx.
  2:{ apply lookup_ge_None in Hx. lia. }
  rewrite Hagree by (first [apply Hdom; by eapply list_elem_of_lookup_2 | done]).
  destruct (key value <=? key x) eqn:Ek.
  - apply Z.leb_le in Ek. apply IH; [lia|lia|done|].
    intros i y Hi Hge. transitivity (key x); [done|].
    eapply (Hl (begin + n / 2)%nat i); [lia|done|done].
  - apply Z.leb_gt in Ek. apply IH; [lia|lia| |].
    + intros i y Hi Hlt. eapply Z.le_lt_trans; [|exact Ek].
      eapply (Hl i (begin + n / 2)%nat); [lia|done|done].
    + intros i y Hi Hge. apply (Hhi i y Hi). lia.
Qed.

Lemma qMerge_sorted : forall fuel (left right : list A),
  (length left + length right <= fuel)%nat ->
  (forall x, x ∈ left -> x ∈ dom) -> (forall x, x ∈ right -> x ∈ dom) ->
  ascending key left -> ascending key right ->
  ascending key (qMerge lessThan fuel left right).
Proof.
  induction fuel as [|f IH]; intros left right Hfuel Dl Dr Sl Sr.
  { destruct left, right; cbn in Hfuel; try lia. cbn. apply ascending_short. cbn. lia. }
  cbn [qMerge].
  destruct ((length left =? 0)%nat || (length right =? 0)%nat) eqn:E0.
  { apply orb_true_iff in E0 as [E0|E0]; apply Nat.eqb_eq in E0.
    - destruct left; [|done]. done.
    - destruct right; [|done]. by rewrite app_nil_r. }
  apply orb_false_iff in E0 as [E1 E2]. apply Nat.eqb_neq in E1, E2.
  destruct (length left + length right =? 2)%nat eqn:E3.
  { apply Nat.eqb_eq in E3.
    destruct left as [|a [|? ?]]; cbn in *; try lia.
    destruct right as [|b [|? ?]]; cbn in *; try lia.
    rewrite Hagree by (first [apply Dl; by left | apply Dr; by left]).
    destruct (key b <=? key a) eqn:Ek.
    - apply Z.leb_le in Ek. intros [|[|i]] [|[|j]] x y Hij Hi Hj; cbn in *; simplify_eq; lia.
    - apply Z.leb_gt in Ek. intros [|[|i]] [|[|j]] x y Hij Hi Hj; cbn in *; simplify_eq; lia. }
  apply Nat.eqb_neq in E3.
  set (len1 := length left) in *. set (len2 := length right) in *.
  (* the two cuts *)
  assert (exists firstCut len2Half,
    (if (len2 <? len1)%nat
     then match left !! (len1 / 2)%nat with
          | Some x => ((len1 / 2)%nat, qLowerBound lessThan right x)
          | None => ((len1 / 2)%nat, 0%nat)
          end
     else match right !! (len2 / 2)%nat with
          | Some x => (qUpperBound lessThan left x, (len2 / 2)%nat)
          | None => (len1, (len2 / 2)%nat)
          end) = (firstCut, len2Half)
    /\ (firstCut <= len1)%nat /\ (len2Half <= len2)%nat
    /\ (firstCut + len2Half < len1 + len2)%nat
    /\ (0 < firstCut + len2Half)%nat
    /\ (forall x y, x ∈ take firstCut left ++ take len2Half right ->
                    y ∈ drop firstCut left ++ drop len2Half right -> key x <= key y))
    as (firstCut & len2Half & -> & Hc1 & Hc2 & Hlt & Hgt & Hcross).
  { destruct (len2 <? len1)%nat eqn:Ecmp.
    - apply Nat.ltb_lt in Ecmp.
      assert (Hh : (0 < len1 / 2 < len1)%nat).
      { split; [apply Nat.div_str_pos; lia|apply Nat.div_lt; lia]. }
      destruct (left !! (len1 / 2)%nat) as [x|] eqn:Hx.
      2:{ apply lookup_ge_None in Hx. unfold len1 in *. lia. }
      assert (Hxd : x ∈ dom) by (apply Dl; by eapply list_elem_of_lookup_2).
      destruct (qLowerBound_loop_spec right x Sr Dr Hxd (length right) 0 (length right))
        as (Hb & Hlo & Hhi); [lia|lia|intros; lia|intros i y Hi Hge; apply lookup_lt_Some in Hi; lia|].
      fold (qLowerBound lessThan right x) in Hb, Hlo, Hhi.
      eexists _, _. split; [done|]. fold len2 in Hb.
      split; [lia|]. split; [lia|]. split; [lia|]. split; [lia|].
      intros a b Ha Hb'. transitivity (key x).
      + apply elem_of_app in Ha as [Ha|Ha]; apply list_elem_of_lookup_1 in Ha as [i Hi];
          apply lookup_take_Some in Hi as [Hi Hlti].
        * eapply (Sl i (len1 / 2)%nat); [lia|done|done].
        * by eapply Hlo.
      + apply elem_of_app in Hb' as [Hb'|Hb']; apply list_elem_of_lookup_1 in Hb' as [i Hi];
          rewrite lookup_drop in Hi.
        * eapply (Sl (len1 / 2)%nat); [|done|done]. lia.
        * apply Z.lt_le_incl. eapply Hhi; [done|lia].
    - apply Nat.ltb_ge in Ecmp.
      assert (Hh : (0 < len2 / 2 < len2)%nat).
      { split; [apply Nat.div_str_pos; lia|apply Nat.div_lt; lia]. }
      destruct (right !! (len2 / 2)%nat) as [x|] eqn:Hx.
      2:{ apply lookup_ge_None in Hx. unfold len2 in *. lia. }
      assert (Hxd : x ∈ dom) by (apply Dr; by eapply list_elem_of_lookup_2).
      destruct (qUpperBound_loop_spec left x Sl Dl Hxd (length left) 0 (length left))
        as (Hb & Hlo & Hhi); [lia|lia|intros; lia|intros i y Hi Hge; apply lookup_lt_Some in Hi; lia|].
      fold (qUpperBound lessThan left x) in Hb, Hlo, Hhi.
      eexists _, _. split; [done|]. fold len1 in Hb.
      split; [lia|]. split; [lia|]. split; [lia|]. split; [lia|].
      intros a b Ha Hb'. transitivity (key x).
      + apply elem_of_app in Ha as [Ha|Ha]; apply list_elem_of_lookup_1 in Ha as [i Hi];
          apply lookup_take_Some in Hi as [Hi Hlti].
        * apply Z.lt_le_incl. by eapply Hlo.
        * eapply (Sr i (len2 / 2)%nat); [lia|done|done].
      + apply elem_of_app in Hb' as [Hb'|Hb']; apply list_elem_of_lookup_1 in Hb' as [i Hi];
          rewrite lookup_drop in Hi.
        * eapply Hhi; [done|lia].
        * eapply (Sr (len2 / 2)%nat); [|done|done]. lia. }
  apply ascending_app.
  - apply IH.
    + rewrite !length_take. unfold len1, len2 in *. lia.
    + intros x Hx. apply Dl. by eapply elem_of_take_list.
    + intros x Hx. apply Dr. by eapply elem_of_take_list.
    + by apply ascending_take.
    + by apply ascending_take.
  - apply IH.
    + rewrite !length_drop. unfold len1, len2 in *. lia.
    + intros x Hx. apply Dl. by eapply elem_of_drop_list.
    + intros x Hx. apply Dr. by eapply elem_of_drop_list.
    + by apply ascending_drop.
    + by apply ascending_drop.
  - intros x y Hx Hy. rewrite qMerge_perm in Hx, Hy. by apply Hcross.
Qed.

Lemma qStableSortHelper_sorted : forall fuel (l : list A),
  (length l <= fuel)%nat -> (forall x, x ∈ l -> x ∈ dom) ->
  ascending key (qStableSortHelper lessThan fuel l).
Proof.
  induction fuel as [|f IH]; intros l Hfuel Dl.
  { cbn. apply ascending_short. lia. }
  cbn [qStableSortHelper]. destruct (length l <? 2)%nat eqn:E.
  { apply Nat.ltb_lt in E. by apply ascending_short. }
  apply Nat.ltb_ge in E.
  assert (Hh : (0 < length l / 2 < length l)%nat).
  { split; [apply Nat.div_str_pos; lia|apply Nat.div_lt; lia]. }
  apply qMerge_sorted.
  - rewrite !(Permutation_length (qStableSortHelper_perm lessThan _ _)).
    rewrite length_take, length_drop. lia.
  - intros x Hx. rewrite qStableSortHelper_perm in Hx. apply Dl. by eapply elem_of_take_list.
  - intros x Hx. rewrite qStableSortHelper_perm in Hx. apply Dl. by eapply elem_of_drop_list.
  - apply IH; [rewrite length_take; lia|]. intros x Hx. apply Dl. by eapply elem_of_take_list.
  - apply IH; [rewrite length_drop; lia|]. intros x Hx. apply Dl. by eapply elem_of_drop_list.
Qed.

Lemma qStableSort_sorted (l : list A) :
  (forall x, x ∈ l -> x ∈ dom) -> ascending key (qStableSort lessThan l).
Proof. intros Dl. by apply qStableSortHelper_sorted. Qed.

End Sorted.

Section SortOrder.
Context `{Platform}.

(** X29. In the list [SessionManager::sortProfiles] returns, the
    profiles that had a menu index other than 0 come first and are in
    ascending order of the menu indices they had before the call; the
    others had menu index 0. *)
Theorem sortProfiles_index_order n m l fo :
  heap m !! _fallbackProfile m = Some fo ->
  forallb (plainMember (S n) (heap m)) l = true -> NoDup l ->
  exists having lacking m',
    sortProfiles (S n) m l = Some (having ++ lacking, m')
    /\ (forall p, p ∈ having ->
          p ∈ l /\ exists i, menuIndexAsInt (S n) (heap m) p = Some i /\ i <> 0)
    /\ (forall p, p ∈ lacking -> p ∈ l /\ menuIndexAsInt (S n) (heap m) p = Some 0)
    /\ ascending (fun p => default 0 (menuIndexAsInt (S n) (heap m) p)) having.
Proof.
  intros Hfo Hall Hnd.
  destruct (sortProfiles_run n m l fo Hfo Hall Hnd) as (h2 & E & _).
  cbv zeta in E. eexists _, _, _. split; [exact E|].
  assert (Hall' : forall x, x ∈ l -> plainMember (S n) (heap m) x = true) by (by apply forallb_elem).
  split; [|split].
  - intros p Hp. rewrite qStableSort_perm in Hp. apply list_elem_of_filter in Hp as [[_ Hp] Hl].
    split; [done|]. destruct (menuIndexAsInt_is_Some n (heap m) p (Hall' p Hl)) as [i Hi].
    exists i. split; [done|]. congruence.
  - intros p Hp. rewrite qStableSort_perm in Hp. apply list_elem_of_filter in Hp as [[_ Hp] Hl].
    done.
  - apply (qStableSort_sorted _ _ l).
    + intros x y Hx Hy. unfold profileIndexLessThan.
      destruct (menuIndexAsInt_is_Some n (heap m) x (Hall' x Hx)) as [i ->].
      destruct (menuIndexAsInt_is_Some n (heap m) y (Hall' y Hy)) as [j ->]. done.
    + intros x Hx. by apply list_elem_of_filter in Hx as [_ Hx].
Qed.

End SortOrder.

(** ** The further properties on the example stores *)

Lemma lookupByName_registered_witness :
  lookupByName "TabTitle" = LocalTabTitleFormat.
Proof.
  apply (lookupByName_registered
           (entry LocalTabTitleFormat "tabtitle" None T_String) "tabtitle" "TabTitle").
  - vm_compute. repeat (first [left; reflexivity | right]).
  - reflexivity.
  - reflexivity.
Defined.

Lemma parse_values_witness :
  exists s, VString "term" = VString s /\ s <> ""
            /\ allChars notSemicolon s = true.
Proof.
  apply (parse_values "Icon=term" Icon (VString "term")). by vm_compute.
Defined.

Lemma parse_single_witness :
  parse "Icon=term" = {[ Icon := VString "term" ]}.
Proof.
  apply (parse_single "Icon" "term"); [done|reflexivity|done|reflexivity].
Defined.

Lemma parse_sequence_witness :
  parse "Icon=term;Directory=/tmp"
  = parse "Directory=/tmp" ∪ {[ lookupByName "Icon" := VString "term" ]}.
Proof.
  apply (parse_sequence "Icon" "term" "Directory=/tmp");
    [done|reflexivity|done|reflexivity].
Defined.

Lemma parse_no_equals_witness : parse "hello;world" = ∅.
Proof. apply (parse_no_equals "hello;world"). reflexivity. Defined.

Lemma clone_all_witness :
  chain_ok 2 group_heap 2%nat = true /\ group_ok 2 group_heap 1%nat = true
  /\ exists h', clone (H:=examplePlatform) 2 group_heap 1%nat 2%nat false = Some h'
    /\ same_shape group_heap h'
    /\ (forall q, localValue h' q Name = localValue group_heap q Name
                  /\ localValue h' q Path = localValue group_heap q Path)
    /\ (forall X, X <> Name -> X <> Path ->
          exists v, property 2 group_heap 2%nat X = Some v
            /\ localValue h' 1%nat X = Some v
            /\ property 2 h' 2%nat X = Some v).
Proof.
  split; [reflexivity|]. split; [reflexivity|].
  apply (clone_all (H:=examplePlatform) 2 group_heap 1%nat 2%nat); reflexivity.
Defined.

Lemma clone_differentOnly_minimal_witness :
  property 2 group_heap 1%nat Icon = property 2 group_heap 2%nat Icon
  /\ exists h', clone (H:=examplePlatform) 2 group_heap 1%nat 2%nat true = Some h'
       /\ forall q, localValue h' q Icon = localValue group_heap q Icon.
Proof.
  split; [reflexivity|].
  apply (clone_differentOnly_minimal (H:=examplePlatform) 2 group_heap 1%nat 2%nat Icon);
    reflexivity.
Defined.

Lemma updateValues_spec_witness :
  exists vals',
    updateValues (H:=examplePlatform) 2 group_heap 3%nat
    = Some (<[3%nat := with_values (mkProfile ∅ None true (Some [1; 2]%nat)) vals']>
              group_heap)
    /\ vals' !! Icon = Some (VString "term")
    /\ vals' !! Directory = Some (VString "/tmp").
Proof.
  assert (Hno : noChildren group_heap 3%nat).
  { intros q o Hq Hp. unfold group_heap in Hq.
    destruct q as [|[|[|[|q]]]]; cbn [lookup list_lookup] in Hq;
      [injection Hq as <-; vm_compute in Hp; discriminate Hp ..|discriminate Hq]. }
  assert (Hin : 3%nat ∉ [1; 2]%nat).
  { intros Hin. apply elem_of_cons in Hin as [Hin|Hin]; [discriminate Hin|].
    apply list_elem_of_singleton in Hin. discriminate Hin. }
  assert (Hall : forallb (chain_ok 2 group_heap) [1; 2]%nat = true) by (by vm_compute).
  destruct (updateValues_spec (H:=examplePlatform) 2 group_heap 3%nat
              (mkProfile ∅ None true (Some [1; 2]%nat)) [1; 2]%nat eq_refl eq_refl
              Hno Hin Hall)
    as (vals' & E & _ & _ & Hsame & _).
  exists vals'. split; [exact E|]. split.
  - apply (Hsame Icon (VString "term") [] [1; 2]%nat);
      [right; split; discriminate|reflexivity|discriminate| |].
    + intros m Hm. exfalso. exact (not_elem_of_nil m Hm).
    + intros m Hm. apply elem_of_cons in Hm as [->|Hm]; [(vm_compute; reflexivity)|].
      apply list_elem_of_singleton in Hm as ->. vm_compute; reflexivity.
  - apply (Hsame Directory (VString "/tmp") [1%nat] [2%nat]);
      [right; split; discriminate|reflexivity|discriminate| |].
    + intros m Hm. apply list_elem_of_singleton in Hm as ->. vm_compute; reflexivity.
    + intros m Hm. apply list_elem_of_singleton in Hm as ->. vm_compute; reflexivity.
Defined.

Lemma loadProfile_terminates_witness :
  exists r m',
    loadProfile (H:=examplePlatform) 3 cycle_manager "A.profile" = Some (r, m')
    /\ profiles_valid m'
    /\ forall p, r = Some p -> is_Some (heap m' !! p).
Proof.
  apply (loadProfile_terminates (H:=examplePlatform) 3 cycle_manager "A.profile").
  - split; [by eexists|].
    change (Forall (fun p => is_Some (heap cycle_manager !! p)) [0%nat]).
    repeat constructor. by eexists.
  - apply Nat.ltb_lt. reflexivity.
Defined.

Lemma loadProfile_frame_witness :
  exists r m',
    loadProfile (H:=examplePlatform) 3 cycle_manager "A.profile" = Some (r, m')
    /\ loaded_more cycle_manager m'.
Proof.
  destruct (loadProfile_returns_gen (H:=examplePlatform) 3 cycle_manager "A.profile")
    as (r & m' & E & _).
  - split; [by eexists|].
    change (Forall (fun p => is_Some (heap cycle_manager !! p)) [0%nat]).
    repeat constructor. by eexists.
  - apply Nat.ltb_lt. reflexivity.
  - exists r, m'. split; [exact E|].
    exact (loadProfile_frame (H:=examplePlatform) 3 cycle_manager "A.profile" r m' E).
Defined.

Lemma loadProfile_missing_file_witness :
  exists m',
    loadProfile (H:=examplePlatform) 1 cycle_manager "C.profile" = Some (None, m')
    /\ _profiles m' = _profiles cycle_manager
    /\ _defaultProfile m' = _defaultProfile cycle_manager
    /\ _favorites m' = _favorites cycle_manager
    /\ _shortcuts m' = _shortcuts cycle_manager
    /\ disk m' = disk cycle_manager /\ emitted m' = emitted cycle_manager
    /\ recursionGuard m' = []
    /\ forall p o, heap cycle_manager !! p = Some o -> heap m' !! p = Some o.
Proof.
  apply (loadProfile_missing_file (H:=examplePlatform) 0 cycle_manager
           "C.profile" "FALLBACK/").
  - by vm_compute.
  - discriminate.
  - by vm_compute.
  - reflexivity.
  - by vm_compute.
Defined.

Lemma loadProfile_self_parent_witness :
  loadProfile (H:=examplePlatform) 2 more_manager "S.profile"
  = Some (Some 1%nat,
          addProfile
            (with_heap more_manager
               (heap more_manager
                ++ [loadedProfile (H:=examplePlatform) 0%nat "/usr/share/apps/konsole/S.profile"
                      {[ ("General", "Name") := "S";
                         ("General", "Parent") := "S.profile" ]}]))
            1%nat).
Proof.
  apply (loadProfile_self_parent (H:=examplePlatform) 0 more_manager
           "S.profile" "S.profile" "FALLBACK/"
           {[ ("General", "Name") := "S"; ("General", "Parent") := "S.profile" ]}).
  - first [reflexivity | by vm_compute].
  - discriminate.
  - discriminate.
  - first [reflexivity | by vm_compute].
  - first [reflexivity | by vm_compute].
  - reflexivity.
  - first [reflexivity | by vm_compute].
  - first [reflexivity | by vm_compute].
  - first [reflexivity | by vm_compute].
  - discriminate.
  - first [reflexivity | by vm_compute].
  - reflexivity.
Defined.

Lemma loadProfile_twice_witness :
  exists p m',
    loadProfile (H:=examplePlatform) 1 more_manager "One.profile" = Some (Some p, m')
    /\ (p ∈ _profiles m') /\ (p ∉ _profiles more_manager)
    /\ Profile_path 1 (heap m') p
       = Some (resolvePath (H:=examplePlatform) "One.profile")
    /\ loadProfile (H:=examplePlatform) 1 m' "One.profile" = Some (Some p, m').
Proof.
  apply (loadProfile_twice (H:=examplePlatform) 0 0 more_manager
           "One.profile" "FALLBACK/"
           {[ ("General", "Name") := "One"; ("General", "Icon") := "one" ]}).
  - first [reflexivity | by vm_compute].
  - discriminate.
  - first [reflexivity | by vm_compute].
  - first [reflexivity | by vm_compute].
  - first [reflexivity | by vm_compute].
  - first [reflexivity | by vm_compute].
  - first [reflexivity | by vm_compute].
  - reflexivity.
Defined.

Lemma SessionManager_new_default_witness :
  exists m dflt,
    SessionManager_new (H:=examplePlatform) 3 exampleFallback cycle_disk
      (Some "A.profile") [("Ctrl+B", "B.profile")] = Some m
    /\ _defaultProfile m = Some dflt
    /\ dflt ∈ _profiles m /\ is_Some (heap m !! dflt)
    /\ _fallbackProfile m ∈ _profiles m
    /\ heap m !! _fallbackProfile m = Some exampleFallback
    /\ disk m = cycle_disk
    /\ (forall e, e ∈ _shortcuts m -> profileKey e.2 = None).
Proof.
  apply (SessionManager_new_default (H:=examplePlatform) 3 exampleFallback cycle_disk
           (Some "A.profile") [("Ctrl+B", "B.profile")]).
  vm_compute. lia.
Defined.

Lemma getPath_under_saveLocation_witness :
  getPath (H:=examplePlatform) 2 group_heap 1%nat
  = Some "/home/user/.kde/share/apps/konsole/M1.profile"
  /\ startsWith "/home/user/.kde/share/apps/konsole/M1.profile"
       (saveLocation (Platform:=examplePlatform)) = true.
Proof.
  assert (E : getPath (H:=examplePlatform) 2 group_heap 1%nat
              = Some "/home/user/.kde/share/apps/konsole/M1.profile")
    by (by vm_compute).
  split; [exact E|].
  exact (proj1 (getPath_under_saveLocation (H:=examplePlatform) 2 group_heap 1%nat _ E)).
Defined.

Lemma writeProfile_keeps_entries_witness :
  exists d' new,
    writeProfile (H:=examplePlatform) 2 group_heap old_disk "/x/M2.profile" 2%nat
    = Some (true, d')
    /\ fs_files d' !! "/x/M2.profile" = Some new
    /\ is_Some (new !! ("General", "Stale"))
    /\ (forall other, other <> "/x/M2.profile" ->
          fs_files d' !! other = fs_files old_disk !! other).
Proof.
  apply (writeProfile_keeps_entries (H:=examplePlatform) 1 group_heap old_disk
           "/x/M2.profile" 2%nat
           (plainProfile [ (Name, VString "M2"); (Icon, VString "term");
                           (Directory, VString "/tmp") ])
           {[ ("General", "Stale") := "1" ]} ("General", "Stale")).
  - reflexivity.
  - first [reflexivity | by vm_compute].
  - first [reflexivity | by vm_compute].
  - exists "1". reflexivity.
Defined.

Lemma writeProfile_readProfile_parent_witness :
  exists d' parentPath h1,
    writeProfile (H:=examplePlatform) 2 group_heap (mkFS ∅ [] []) "/x/M1.profile" 1%nat
    = Some (true, d')
    /\ Profile_path 1 group_heap 0%nat = Some parentPath
    /\ readProfile (H:=examplePlatform) 1 command_heap d' "/x/M1.profile" 2%nat
       = Some (true, parentPath, h1).
Proof.
  apply (writeProfile_readProfile_parent (H:=examplePlatform) 1 0 group_heap
           (mkFS ∅ [] []) "/x/M1.profile" 1%nat
           (plainProfile [ (Name, VString "M1"); (Icon, VString "term") ])
           0%nat command_heap 2%nat (new_Profile (Some 0%nat))).
  - reflexivity.
  - by vm_compute.
  - reflexivity.
  - reflexivity.
  - reflexivity.
Defined.

Lemma changeProfile_not_saved_witness :
  exists m',
    changeProfile (H:=examplePlatform) 2 group_manager 1%nat
      {[ Icon := VString "x" ]} false = Some m'
    /\ disk m' = disk group_manager
    /\ heap m'
       = <[1%nat := with_values
                      (plainProfile [ (Name, VString "M1"); (Icon, VString "term") ])
                      ({[ Icon := VString "x" ]}
                       ∪ _propertyValues
                           (plainProfile [ (Name, VString "M1");
                                           (Icon, VString "term") ]))]>
           (heap group_manager)
    /\ profileChanged 1%nat ∈ emitted m'.
Proof.
  apply (changeProfile_not_saved (H:=examplePlatform) 1 group_manager 1%nat
           (plainProfile [ (Name, VString "M1"); (Icon, VString "term") ])
           {[ Icon := VString "x" ]} false).
  - reflexivity.
  - reflexivity.
  - by left.
Defined.

Lemma changeProfile_saved_witness :
  exists m' newPath config,
    changeProfile (H:=examplePlatform) 2 group_manager 1%nat
      {[ Icon := VString "x" ]} true = Some m'
    /\ startsWith newPath (saveLocation (Platform:=examplePlatform)) = true
    /\ fs_files (disk m') !! newPath = Some config
    /\ config !! ("General", "Icon") = Some "x".
Proof.
  destruct (changeProfile_saved (H:=examplePlatform) 1 group_manager 1%nat
              (plainProfile [ (Name, VString "M1"); (Icon, VString "term") ])
              {[ Icon := VString "x" ]})
    as (m' & newPath & config & E & Hs & _ & Hf & _ & Hc).
  - reflexivity.
  - reflexivity.
  - by vm_compute.
  - reflexivity.
  - vm_compute. discriminate.
  - exists m', newPath, config. split; [exact E|]. split; [exact Hs|].
    split; [exact Hf|].
    apply (Hc (entry Icon "Icon" (Some GENERAL_GROUP) T_String) GENERAL_GROUP "Icon"
              (VString "x")).
    + vm_compute. repeat (first [left; reflexivity | right]).
    + reflexivity.
    + reflexivity.
    + by vm_compute.
Defined.

Lemma setShortcut_then_shortcut_witness :
  exists m',
    setShortcut 1 locked_manager 1%nat "Ctrl+N" = Some m'
    /\ shortcut 1 m' 1%nat = Some "Ctrl+N"
    /\ (forall e, e ∈ _shortcuts m' <->
          e = ("Ctrl+N", mkShortcutData (Some 1%nat) "/ro/Work.profile")
          \/ (e ∈ _shortcuts locked_manager /\ e.1 <> "Ctrl+N"
              /\ e.1 <> shortcut_scan 1%nat "/ro/Work.profile"
                          (_shortcuts locked_manager)))
    /\ emitted m' = emitted locked_manager ++ [shortcutChanged 1%nat "Ctrl+N"]
    /\ heap m' = heap locked_manager /\ disk m' = disk locked_manager
    /\ _profiles m' = _profiles locked_manager
    /\ _favorites m' = _favorites locked_manager.
Proof.
  apply (setShortcut_then_shortcut 1 locked_manager 1%nat "/ro/Work.profile" "Ctrl+N").
  - by vm_compute.
  - discriminate.
  - intros e He _. apply list_elem_of_singleton in He as ->. by vm_compute.
Defined.

Lemma setShortcut_empty_witness :
  exists m',
    setShortcut 1 locked_manager 1%nat "" = Some m'
    /\ shortcut 1 m' 1%nat = Some ""
    /\ (forall e, e ∈ _shortcuts m' -> ~ boundTo 1%nat "/ro/Work.profile" e)
    /\ (forall e, e ∈ _shortcuts m' <->
          e ∈ _shortcuts locked_manager
          /\ e.1 <> shortcut_scan 1%nat "/ro/Work.profile" (_shortcuts locked_manager))
    /\ emitted m' = emitted locked_manager
    /\ heap m' = heap locked_manager /\ disk m' = disk locked_manager
    /\ _profiles m' = _profiles locked_manager
    /\ _favorites m' = _favorites locked_manager.
Proof.
  apply (setShortcut_empty 1 locked_manager 1%nat "/ro/Work.profile").
  - by vm_compute.
  - intros e He _. apply list_elem_of_singleton in He as ->. by vm_compute.
Defined.

Lemma findByShortcut_unloadable_witness :
  exists m',
    findByShortcut (H:=examplePlatform) 1 lazy_manager "Ctrl+Z" = Some (None, m')
    /\ QMap_find (_shortcuts m') "Ctrl+Z" = None
    /\ QMap_find (_shortcuts m') "Ctrl+O" = Some (mkShortcutData None "One.profile").
Proof.
  assert (exists m2, loadProfile (H:=examplePlatform) 1 lazy_manager "Z.profile"
                     = Some (None, m2)) as [m2 E] by (eexists; reflexivity).
  destruct (findByShortcut_unloadable (H:=examplePlatform) 1 lazy_manager "Ctrl+Z"
              (mkShortcutData None "Z.profile") m2) as (m' & F & Hk & _).
  - reflexivity.
  - reflexivity.
  - exact E.
  - exists m'. split; [exact F|]. split; [apply (Hk "Ctrl+Z")|apply (Hk "Ctrl+O")].
Defined.

Lemma findByShortcut_caches_witness :
  exists p m',
    findByShortcut (H:=examplePlatform) 1 lazy_manager "Ctrl+O" = Some (Some p, m')
    /\ QMap_find (_shortcuts m') "Ctrl+O"
       = Some (mkShortcutData (Some p) "One.profile")
    /\ findByShortcut (H:=examplePlatform) 1 m' "Ctrl+O" = Some (Some p, m').
Proof.
  assert (exists p m2, loadProfile (H:=examplePlatform) 1 lazy_manager "One.profile"
                       = Some (Some p, m2)) as (p & m2 & E)
    by (do 2 eexists; reflexivity).
  destruct (findByShortcut_caches (H:=examplePlatform) 1 1 lazy_manager "Ctrl+O"
              (mkShortcutData None "One.profile") p m2) as (m' & F & Hk & _ & _ & _ & G).
  - reflexivity.
  - reflexivity.
  - exact E.
  - exists p, m'. split; [exact F|]. split; [apply (Hk "Ctrl+O")|exact G].
Defined.

Lemma deleteProfile_success_witness :
  exists m',
    deleteProfile (H:=examplePlatform) 1 work_manager (Some 1%nat) = Some (true, m')
    /\ (forall q, q ∈ _profiles m' <-> q ∈ _profiles work_manager /\ q <> 1%nat)
    /\ fs_files (disk m') !! "/rw/Work.profile" = None
    /\ (exists d dpath,
          _defaultProfile m' = Some d /\ d ∈ _profiles m'
          /\ konsolerc_DefaultProfile m' = Some (QFileInfo_fileName dpath))
    /\ last (emitted m') = Some (profileRemoved (Some 1%nat)).
Proof.
  destruct (deleteProfile_success (H:=examplePlatform) 0 work_manager 1%nat
              (plainProfile [ (Name, VString "Work");
                              (Path, VString "/rw/Work.profile") ]))
    as (m' & E & Hp & _ & _ & Hf & _ & _ & Hd & Hl).
  - reflexivity.
  - change (1%nat ∈ [0; 1]%nat). apply elem_of_cons; right; apply elem_of_cons; by left.
  - change (Forall (fun p => is_Some (heap work_manager !! p)) [0; 1]%nat).
    repeat constructor; by eexists.
  - intros _. exists 0%nat. split; [|discriminate].
    change (0%nat ∈ [0; 1]%nat). apply elem_of_cons; by left.
  - apply not_elem_of_nil.
  - exists m'. split; [exact E|]. split; [exact Hp|].
    split; [apply Hf; reflexivity|]. split; [|exact Hl].
    destruct (Hd eq_refl) as (d & od & dpath & Hd1 & Hd2 & _ & _ & Hd3).
    by exists d, dpath.
Defined.

Lemma sortProfiles_spec_witness :
  exists having lacking m',
    sortProfiles (H:=examplePlatform) 2 menu_manager [1; 2; 3]%nat
    = Some (having ++ lacking, m')
    /\ (forall k p, (having ++ lacking) !! k = Some p ->
          localValue (heap m') p MenuIndex
          = Some (VString (QString_number (Z.of_nat k + 1)))
          /\ menuIndexAsInt 2 (heap m') p = Some (Z.of_nat k + 1))
    /\ same_shape (heap menu_manager) (heap m')
    /\ disk m' = disk menu_manager /\ _profiles m' = _profiles menu_manager
    /\ emitted m' = emitted menu_manager.
Proof.
  destruct (sortProfiles_spec (H:=examplePlatform) 1 menu_manager [1; 2; 3]%nat
              exampleFallback)
    as (having & lacking & m' & E & _ & _ & Hi & _ & Hs & Hd & Hp & He).
  - reflexivity.
  - by vm_compute.
  - repeat (apply NoDup_cons_2; [rewrite ?elem_of_cons, elem_of_nil; lia|]).
    apply NoDup_nil_2.
  - vm_compute. reflexivity.
  - exists having, lacking, m'. repeat split; try assumption; by apply Hi.
Defined.

Lemma sortProfiles_index_order_witness :
  exists having lacking m',
    sortProfiles (H:=examplePlatform) 2 menu_manager [1; 2; 3]%nat
    = Some (having ++ lacking, m')
    /\ (forall p, p ∈ having ->
          p ∈ [1; 2; 3]%nat
          /\ exists i, menuIndexAsInt 2 (heap menu_manager) p = Some i /\ i <> 0)
    /\ (forall p, p ∈ lacking ->
          p ∈ [1; 2; 3]%nat /\ menuIndexAsInt 2 (heap menu_manager) p = Some 0)
    /\ ascending (fun p => default 0 (menuIndexAsInt 2 (heap menu_manager) p)) having.
Proof.
  apply (sortProfiles_index_order (H:=examplePlatform) 1 menu_manager [1; 2; 3]%nat
           exampleFallback).
  - reflexivity.
  - by vm_compute.
  - repeat (apply NoDup_cons_2; [rewrite ?elem_of_cons, elem_of_nil; lia|]).
    apply NoDup_nil_2.
Defined.
